(** * Blood donation server: registration, stats aggregate and read path

    A shallow embedding of [server/server.js], [models/Donor.js] and
    [models/Stats.js].  Route handlers are asynchronous functions: between
    two storage calls a handler runs without interruption, and what it
    awaits is always the answer of the store to one call.  A handler is
    therefore embedded as a finite tree of storage operations ([prog]);
    running one handler alone, or interleaving several of them, is a matter
    of how the operations are scheduled against the database state.  The
    clock, the availability of the store and the order in which the store
    returns documents with equal sort keys are inputs of every operation. *)

From Stdlib Require Import List ZArith NArith QArith Qround Bool String Ascii Lia.
From Stdlib Require Import Sorting.Sorted Sorting.Permutation DecimalString.
Import ListNotations.

Local Open Scope Z_scope.
Set Warnings "-register-all".

(* ================================================================== *)
(** ** JavaScript values *)

(** A JavaScript string is a sequence of UTF-16 code units; [length] is the
    [.length] property. *)
Definition jsstring := list N.

(** A literal whose characters are all ASCII. *)
Definition str (s : string) : jsstring :=
  map N_of_ascii (list_ascii_of_string s).

Definition jsstring_eqb (a b : jsstring) : bool :=
  if list_eq_dec N.eq_dec a b then true else false.

(** The primitive values a field of a parsed JSON or url-encoded body (or a
    query parameter) can hold.  [Undefined] is an absent field.  A [Num] is a
    finite number, a binary64 value, given by its exact value.  Array- and
    object-valued fields are outside the model. *)
Inductive jsval :=
| Undefined
| Null
| Bool (b : bool)
| Num (q : Q)
| Str (s : jsstring).

(** ToBoolean, as used by [!x] and [x || y]. *)
Definition truthy (v : jsval) : bool :=
  match v with
  | Undefined | Null => false
  | Bool b => b
  | Num q => negb (Qnum q =? 0)
  | Str s => match s with [] => false | _ => true end
  end.

(** WhiteSpace and LineTerminator code units: what [String.prototype.trim]
    strips and what [parseInt] skips. *)
Definition is_whitespace (c : N) : bool :=
  existsb (N.eqb c)
    [9; 10; 11; 12; 13; 32; 160; 5760; 8232; 8233; 8239; 8287; 12288; 65279]%N
  || ((8192 <=? c) && (c <=? 8202))%N.

Fixpoint trimStart (s : jsstring) : jsstring :=
  match s with
  | [] => []
  | c :: s' => if is_whitespace c then trimStart s' else s
  end.

Definition trimEnd (s : jsstring) : jsstring := rev (trimStart (rev s)).

(** [String.prototype.trim]. *)
Definition trim (s : jsstring) : jsstring := trimEnd (trimStart s).

(** *** parseInt *)

(** Value of a code unit as a digit of the given radix. *)
Definition digit_val (radix : Z) (c : N) : option Z :=
  let v :=
    if ((48 <=? c) && (c <=? 57))%N then Some (Z.of_N c - 48)
    else if ((97 <=? c) && (c <=? 122))%N then Some (Z.of_N c - 87)
    else if ((65 <=? c) && (c <=? 90))%N then Some (Z.of_N c - 55)
    else None in
  match v with
  | Some d => if d <? radix then Some d else None
  | None => None
  end.

(** The longest prefix of digits, read as a number; [None] when the prefix
    is empty. *)
Fixpoint parse_digits (radix : Z) (acc : option Z) (s : jsstring) : option Z :=
  match s with
  | [] => acc
  | c :: s' =>
      match digit_val radix c with
      | Some d =>
          parse_digits radix
            (Some (match acc with Some a => a * radix + d | None => d end)) s'
      | None => acc
      end
  end.

(** [parseInt(s)] without a radix argument, on a string: leading white space
    is skipped, a sign is read, a [0x]/[0X] prefix selects radix 16, and the
    longest prefix of digits is converted.  [None] is NaN.  The result is kept
    as an exact integer (JavaScript rounds beyond 2^53). *)
Definition parseInt_string (s : jsstring) : option Z :=
  let s1 := trimStart s in
  let '(neg, s2) :=
    match s1 with
    | 45%N :: r => (true, r)
    | 43%N :: r => (false, r)
    | _ => (false, s1)
    end in
  let '(radix, s3) :=
    match s2 with
    | 48%N :: 120%N :: r => (16, r)
    | 48%N :: 88%N :: r => (16, r)
    | _ => (10, s2)
    end in
  match parse_digits radix None s3 with
  | Some v => Some (if neg then - v else v)
  | None => None
  end.

(** *** Number to string

    [parseInt(x)] on a number reads the text [String(x)].  That text shows
    the decimal with the fewest digits that still rounds to [x] (the closest
    one when several do), in plain notation when this decimal lies in
    [10^-6, 10^21) and as [d.ddde+NN] or [d.ddde-NN] otherwise. *)

Definition Qlt_bool (a b : Q) : bool := negb (Qle_bool b a).

(** [floor (log2 x)], for [x > 0]. *)
Definition ilog2 (x : Q) : Z :=
  let g := Z.log2 (Qnum x) - Z.log2 (Z.pos (Qden x)) in
  if Qle_bool (2 ^ g)%Q x then g else g - 1.

(** Number of decimal digits of an integer [n >= 0]. *)
Fixpoint digits (fuel : nat) (n : Z) : Z :=
  match fuel with
  | O => 0
  | S f => if n <? 10 then 1 else 1 + digits f (n / 10)
  end.

(** [floor (log10 x)], for [x > 0]. *)
Definition ilog10 (x : Q) : Z :=
  let g := if Qle_bool 1%Q x
           then digits (S (Z.to_nat (Z.log2 (Qfloor x)))) (Qfloor x) - 1
           else - digits (S (Z.to_nat (Z.log2 (Qfloor (/ x))))) (Qfloor (/ x)) in
  if Qle_bool (10 ^ (g + 1))%Q x then g + 1 else g.

(** Round to the nearest integer, a tie to the even one. *)
Definition round_even (x : Q) : Z :=
  let f := Qfloor x in
  let r := (x - inject_Z f)%Q in
  if Qlt_bool r (1 # 2)%Q then f
  else if Qlt_bool (1 # 2)%Q r then f + 1
  else if Z.even f then f else f + 1.

(** A binary64 number [x > 0] as [m * 2^e], [m < 2^53] and [e >= -1074]
    (the nearest such number, should [x] not be one). *)
Definition binary64 (x : Q) : Z * Z :=
  let e := Z.max (ilog2 x - 52) (-1074) in
  let m := round_even (x * 2 ^ (- e))%Q in
  if m =? 2 ^ 53 then (2 ^ 52, e + 1) else (m, e).

(** The reals that round to [m * 2^e]: those up to half way to its two
    neighbours, the ends included when [m] is even. *)
Definition rounds_to (m e : Z) (v : Q) : bool :=
  let x := (inject_Z m * 2 ^ e)%Q in
  let above := (2 ^ (e - 1))%Q in
  let below :=
    if (m =? 2 ^ 52) && (-1074 <? e) then (2 ^ (e - 2))%Q else (2 ^ (e - 1))%Q in
  if Z.even m
  then Qle_bool (x - below)%Q v && Qle_bool v (x + above)%Q
  else Qlt_bool (x - below)%Q v && Qlt_bool v (x + above)%Q.

(** The decimal with the fewest digits that rounds to [m * 2^e]: multiples
    of [10^p] are tried for [p] going down, and of the two next to the
    number the closer one is taken.  17 digits always suffice. *)
Fixpoint shortest (fuel : nat) (m e : Z) (p : Z) : Q :=
  let x := (inject_Z m * 2 ^ e)%Q in
  match fuel with
  | O => x
  | S f =>
      let s := Qfloor (x * 10 ^ (- p))%Q in
      let lo := (inject_Z s * 10 ^ p)%Q in
      let hi := (inject_Z (s + 1) * 10 ^ p)%Q in
      match rounds_to m e lo, rounds_to m e hi with
      | true, true =>
          if Qlt_bool (x - lo)%Q (hi - x)%Q then lo
          else if Qlt_bool (hi - x)%Q (x - lo)%Q then hi
          else if Z.even s then lo else hi
      | true, false => lo
      | false, true => hi
      | false, false => shortest f m e (p - 1)
      end
  end.

(** The decimal that [String(x)] shows, for [x > 0]. *)
Definition printed (x : Q) : Q :=
  let '(m, e) := binary64 x in
  if m =? 0 then 0%Q
  else Qred (shortest 17 m e (ilog10 (inject_Z m * 2 ^ e)%Q)).

(** First significant digit of a decimal [v > 0]. *)
Definition lead (v : Q) : Z := Qfloor (v * 10 ^ (- ilog10 v))%Q.

(** [parseInt(x)] on a number.  In plain notation [parseInt] reads the
    integer part, which is that of [x]; in exponent notation it reads the
    one digit before the point or the [e].  The text is in exponent notation
    from [10^21] on, and below the binary64 number nearest to [10^-6],
    4722366482869645 * 2^-72, which is the least that prints in plain
    notation (as [0.000001]). *)
Definition parseInt_number (q : Q) : Z :=
  let n := Z.abs (Qnum q) in
  let d := Z.pos (Qden q) in
  if 10 ^ 21 * d <=? n then
    Z.sgn (Qnum q) * lead (printed (n # Qden q))
  else if (0 <? n) && (n * 2 ^ 72 <? 4722366482869645 * d) then
    Z.sgn (Qnum q) * lead (printed (n # Qden q))
  else Z.quot (Qnum q) d.

(** [parseInt(v)]: [undefined], [null] and booleans print as words, which
    have no digit prefix. *)
Definition parseInt (v : jsval) : option Z :=
  match v with
  | Undefined | Null | Bool _ => None
  | Num q => Some (parseInt_number q)
  | Str s => parseInt_string s
  end.

(** [Array.prototype.includes] on an array of strings compares with
    SameValueZero, so it holds of a string only; the model hands back that
    string, which is how the rest of the handler uses the field. *)
Definition includes (l : list jsstring) (v : jsval) : option jsstring :=
  match v with
  | Str s => if existsb (jsstring_eqb s) l then Some s else None
  | _ => None
  end.

(* ================================================================== *)
(** ** JSON responses *)

Inductive json :=
| JBool (b : bool)
| JNum (z : Z)
| JStr (s : jsstring)
| JDate (t : Z)                 (* a Date, serialised by its instant *)
| JId (n : nat)                 (* an ObjectId *)
| JArr (l : list json)
| JObj (fields : list (string * json)).

(** [res.status(status).json(body)]. *)
Record response := { status : Z; body : json }.

(** Property access on a JSON object. *)
Definition field (name : string) (j : json) : option json :=
  match j with
  | JObj fs =>
      match find (fun kv => String.eqb (fst kv) name) fs with
      | Some kv => Some (snd kv)
      | None => None
      end
  | _ => None
  end.

(** The property names of a JSON object. *)
Definition keys (j : json) : list string :=
  match j with
  | JObj fs => map fst fs
  | _ => []
  end.

(** [Array.prototype.join]. *)
Fixpoint join (sep : jsstring) (l : list jsstring) : jsstring :=
  match l with
  | [] => []
  | [a] => a
  | a :: l' => a ++ sep ++ join sep l'
  end.

(* ================================================================== *)
(** ** models/Donor.js *)

Module Donor.

(** A donor document. *)
Record t := {
  _id : nat;
  fullName : jsstring;
  bloodGroup : jsstring;
  age : Z;
  year : jsstring;
  donatedAt : Z
}.

(** The argument of [new Donor({...})] as the route builds it. *)
Record candidate := {
  c_fullName : jsstring;
  c_bloodGroup : jsstring;
  c_age : Z;
  c_year : jsstring
}.

Definition bloodGroup_values : list jsstring :=
  map str ["A+"; "A-"; "B+"; "B-"; "AB+"; "AB-"; "O+"; "O-"]%string.

Definition year_values : list jsstring :=
  map str ["FY"; "SY"; "TY"; "Final Year"]%string.

(** [new Donor(c)]: the [trim: true] setter runs on [fullName],
    [donatedAt] takes its default [Date.now], and the document gets a fresh
    [_id] (an ObjectId; the model numbers the documents as they come). *)
Definition construct (c : candidate) (now : Z) (id : nat) : t :=
  {| _id := id;
     fullName := trim (c_fullName c);
     bloodGroup := c_bloodGroup c;
     age := c_age c;
     year := c_year c;
     donatedAt := now |}.

(** Validators of one path run in order and the first failure is the
    path's error. *)
Definition validate_fullName (v : jsstring) : option jsstring :=
  if (List.length v =? 0)%nat then Some (str "Full name is required")
  else if (List.length v <? 2)%nat
       then Some (str "Name must be at least 2 characters long")
  else None.

Definition validate_enum (values : list jsstring) (required invalid : string)
    (v : jsstring) : option jsstring :=
  if (List.length v =? 0)%nat then Some (str required)
  else if existsb (jsstring_eqb v) values then None
  else Some (str invalid).

Definition validate_age (v : Z) : option jsstring :=
  if v <? 18 then Some (str "Donor must be at least 18 years old")
  else if 65 <? v then Some (str "Donor must be 65 years or younger")
  else None.

(** The messages of the paths that fail, in schema order. *)
Definition validate (d : t) : list jsstring :=
  flat_map (fun o : option jsstring => match o with Some m => [m] | None => [] end)
    [ validate_fullName (fullName d);
      validate_enum bloodGroup_values "Blood group is required"
        "Invalid blood group" (bloodGroup d);
      validate_age (age d);
      validate_enum year_values "Year is required"
        "Invalid year selection" (year d) ].

(** A document read with [.select('fullName bloodGroup donatedAt')]: an
    inclusive projection keeps [_id] and the named paths. *)
Definition select (d : t) : json :=
  JObj [ ("_id", JId (_id d));
         ("fullName", JStr (fullName d));
         ("bloodGroup", JStr (bloodGroup d));
         ("donatedAt", JDate (donatedAt d)) ]%string.

(** How the store orders two documents with the same sort key: [tie x y]
    holds when [y] is returned ahead of [x]. *)
Definition tiebreak := t -> t -> bool.

(** [.sort({ donatedAt: -1 })]: most recent first.  The query sorts on
    [donatedAt] and on nothing else, so the order among documents with equal
    [donatedAt] is the store's: it is whatever [tie] says, for any [tie]. *)
Fixpoint insert_desc (tie : tiebreak) (x : t) (s : list t) : list t :=
  match s with
  | [] => [x]
  | y :: s' =>
      if (donatedAt x <? donatedAt y) || ((donatedAt x =? donatedAt y) && tie x y)
      then y :: insert_desc tie x s'
      else x :: s
  end.

Fixpoint sort_desc (tie : tiebreak) (l : list t) : list t :=
  match l with
  | [] => []
  | x :: l' => insert_desc tie x (sort_desc tie l')
  end.

(** Two choices a store can make: equal keys in the order in which the
    documents were inserted, or in the opposite order. *)
Definition record_order : tiebreak := fun _ _ => false.
Definition reverse_order : tiebreak := fun _ _ => true.

(** [.limit(n)]: 0 is no limit, and the driver sends a negative limit as
    its absolute value. *)
Definition limit (n : Z) (l : list t) : list t :=
  if n =? 0 then l else firstn (Z.to_nat (Z.abs n)) l.

End Donor.

(* ================================================================== *)
(** ** models/Stats.js: the schema *)

Module Stats.

Record t := {
  identifier : jsstring;
  totalBloodUnits : Z;
  lastUpdated : Z
}.

Definition global : jsstring := str "global".

Definition is_global (s : t) : bool := jsstring_eqb (identifier s) global.

(** [findOne({ identifier: 'global' })] on the collection. *)
Definition findOne (l : list t) : option t := find is_global l.

(** Replace the first document that matches [{ identifier: 'global' }]. *)
Fixpoint updateOne (s' : t) (l : list t) : list t :=
  match l with
  | [] => []
  | s :: l' => if is_global s then s' :: l' else s :: updateOne s' l'
  end.

End Stats.

(* ================================================================== *)
(** ** The database and its operations *)

Record db := {
  donors : list Donor.t;       (* in insertion order *)
  stats : list Stats.t
}.

Inductive error :=
| ValidationError (messages : list jsstring)
| TypeError
| DuplicateKey               (* E11000, from the unique index *)
| StoreUnavailable.

Inductive result (B : Type) :=
| Ok (b : B)
| Err (e : error).
Arguments Ok {B} b.
Arguments Err {B} e.

(** The storage calls the source makes, each with the type it resolves to. *)
Inductive storeop : Type -> Type :=
| DonorSave (c : Donor.candidate) : storeop Donor.t
    (* new Donor(c).save() *)
| DonorCount : storeop Z
    (* Donor.countDocuments() *)
| DonorFindRecent (limit : Z) : storeop (list json)
    (* Donor.find().select('fullName bloodGroup donatedAt')
         .sort({ donatedAt: -1 }).limit(limit) *)
| StatsFindOne : storeop (option Stats.t)
    (* Stats.findOne({ identifier: 'global' }) *)
| StatsCreate : storeop Stats.t
    (* Stats.create({ identifier: 'global', totalBloodUnits: 0 }) *)
| StatsInc (amount : Z) : storeop Stats.t
    (* Stats.findOneAndUpdate({ identifier: 'global' },
         { $inc: { totalBloodUnits: amount }, $set: { lastUpdated: new Date() } },
         { new: true, upsert: true, setDefaultsOnInsert: true }) *)
| StatsSet (total : Z) : storeop (option Stats.t).
    (* Stats.findOneAndUpdate({ identifier: 'global' },
         { totalBloodUnits: total, lastUpdated: new Date() }, { upsert: true }) *)

(** One storage operation, applied atomically.  [now] is the clock reading
    when the handler issues it ([Date.now], [new Date()]); [up] tells whether
    the store can be reached; [tie] is how the store orders equal sort keys
    when it answers this operation.  Mongoose validates a document before it
    contacts the store ([totalBloodUnits: 0] meets [min: 0]),
    [findOneAndUpdate] does not run validators, and the unique index on
    [identifier] refuses a second ['global'] document. *)
Definition exec {B} (o : storeop B) (now : Z) (up : bool)
    (tie : Donor.tiebreak) (d : db) : result B * db :=
  match o in storeop B return result B * db with
  | DonorSave c =>
      let doc := Donor.construct c now (List.length (donors d)) in
      match Donor.validate doc with
      | [] =>
          if up
          then (Ok doc, {| donors := donors d ++ [doc]; stats := stats d |})
          else (Err StoreUnavailable, d)
      | msgs => (Err (ValidationError msgs), d)
      end
  | DonorCount =>
      if up then (Ok (Z.of_nat (List.length (donors d))), d)
      else (Err StoreUnavailable, d)
  | DonorFindRecent n =>
      if up
      then (Ok (map Donor.select (Donor.limit n (Donor.sort_desc tie (donors d)))), d)
      else (Err StoreUnavailable, d)
  | StatsFindOne =>
      if up then (Ok (Stats.findOne (stats d)), d)
      else (Err StoreUnavailable, d)
  | StatsCreate =>
      let doc := {| Stats.identifier := Stats.global;
                    Stats.totalBloodUnits := 0;
                    Stats.lastUpdated := now |} in
      if negb up then (Err StoreUnavailable, d)
      else match Stats.findOne (stats d) with
           | Some _ => (Err DuplicateKey, d)
           | None => (Ok doc, {| donors := donors d; stats := stats d ++ [doc] |})
           end
  | StatsInc amount =>
      if negb up then (Err StoreUnavailable, d)
      else match Stats.findOne (stats d) with
           | Some s =>
               let doc := {| Stats.identifier := Stats.identifier s;
                             Stats.totalBloodUnits := Stats.totalBloodUnits s + amount;
                             Stats.lastUpdated := now |} in
               (Ok doc, {| donors := donors d;
                           stats := Stats.updateOne doc (stats d) |})
           | None =>
               let doc := {| Stats.identifier := Stats.global;
                             Stats.totalBloodUnits := amount;
                             Stats.lastUpdated := now |} in
               (Ok doc, {| donors := donors d; stats := stats d ++ [doc] |})
           end
  | StatsSet total =>
      if negb up then (Err StoreUnavailable, d)
      else match Stats.findOne (stats d) with
           | Some s =>
               let doc := {| Stats.identifier := Stats.identifier s;
                             Stats.totalBloodUnits := total;
                             Stats.lastUpdated := now |} in
               (Ok (Some s), {| donors := donors d;
                                stats := Stats.updateOne doc (stats d) |})
           | None =>
               let doc := {| Stats.identifier := Stats.global;
                             Stats.totalBloodUnits := total;
                             Stats.lastUpdated := now |} in
               (Ok None, {| donors := donors d; stats := stats d ++ [doc] |})
           end
  end.

(* ================================================================== *)
(** ** Asynchronous handlers *)

(** An asynchronous computation: it returns, throws, or issues a storage
    operation and resumes with the outcome once the store has answered. *)
Inductive prog (A : Type) : Type :=
| Ret (a : A)
| Throw (e : error)
| Op {B : Type} (o : storeop B) (k : result B -> prog A).
Arguments Ret {A} a.
Arguments Throw {A} e.
Arguments Op {A B} o k.

(** [await o]: a failed operation is thrown at the point of the [await]. *)
Definition await {B} (o : storeop B) : prog B :=
  Op o (fun r => match r with Ok b => Ret b | Err e => Throw e end).

Fixpoint bind {A C} (p : prog A) (f : A -> prog C) : prog C :=
  match p with
  | Ret a => f a
  | Throw e => Throw e
  | Op o k => Op o (fun r => bind (k r) f)
  end.

(** [try { p } catch (error) { h error }]. *)
Fixpoint try_catch {A} (p : prog A) (h : error -> prog A) : prog A :=
  match p with
  | Ret a => Ret a
  | Throw e => h e
  | Op o k => Op o (fun r => try_catch (k r) h)
  end.

Notation "x <- p ;; q" := (bind p (fun x => q))
  (at level 61, p at next level, right associativity).

(** What one request meets at its i-th storage operation: the clock
    reading, the availability of the store and the order the store gives to
    equal sort keys. *)
Record env := { now : nat -> Z; up : nat -> bool; ties : nat -> Donor.tiebreak }.

(** A handler run on its own, from its [i]-th operation on. *)
Fixpoint run {A} (e : env) (i : nat) (p : prog A) (d : db) : result A * db :=
  match p with
  | Ret a => (Ok a, d)
  | Throw err => (Err err, d)
  | Op o k =>
      let '(r, d') := exec o (now e i) (up e i) (ties e i) d in
      run e (S i) (k r) d'
  end.

(* ================================================================== *)
(** ** models/Stats.js: the statics *)

Definition getStats : prog Stats.t :=
  stats <- await StatsFindOne ;;
  match stats with
  | Some s => Ret s
  | None => await StatsCreate
  end.

Definition incrementCount (amount : Z) : prog Stats.t :=
  await (StatsInc amount).

(* ================================================================== *)
(** ** server/server.js: the API routes *)

(** [req.body], destructured. *)
Record req_body := {
  fullName : jsval;
  bloodGroup : jsval;
  age : jsval;
  year : jsval
}.

Definition validBloodGroups : list jsstring :=
  map str ["A+"; "A-"; "B+"; "B-"; "AB+"; "AB-"; "O+"; "O-"]%string.

Definition validYears : list jsstring :=
  map str ["FY"; "SY"; "TY"; "Final Year"]%string.

(** [fullName.trim()]: only a string has the method. *)
Definition call_trim (v : jsval) : prog jsstring :=
  match v with
  | Str s => Ret (trim s)
  | _ => Throw TypeError
  end.

Definition failure (st : Z) (message : jsstring) : response :=
  {| status := st;
     body := JObj [ ("success", JBool false); ("message", JStr message) ]%string |}.

(** Decimal digits of a number, for template literals. *)
Definition decimal (z : Z) : jsstring :=
  str (DecimalString.NilZero.string_of_int (Z.to_int z)).

(** POST /api/donate *)
Definition donate (b : req_body) : prog response :=
  if negb (truthy (fullName b)) || negb (truthy (bloodGroup b))
     || negb (truthy (age b)) || negb (truthy (year b))
  then Ret (failure 400 (str "All fields are required"))
  else
    match parseInt (age b) with
    | None => Ret (failure 400 (str "Donor must be at least 18 years old"))
    | Some ageNum =>
        if ageNum <? 18
        then Ret (failure 400 (str "Donor must be at least 18 years old"))
        else
          match includes validBloodGroups (bloodGroup b) with
          | None => Ret (failure 400 (str "Invalid blood group"))
          | Some bloodGroup =>
              match includes validYears (year b) with
              | None => Ret (failure 400 (str "Invalid year selection"))
              | Some year =>
                  try_catch
                    (name <- call_trim (fullName b) ;;
                     donor <- await (DonorSave
                                {| Donor.c_fullName := name;
                                   Donor.c_bloodGroup := bloodGroup;
                                   Donor.c_age := ageNum;
                                   Donor.c_year := year |}) ;;
                     stats <- incrementCount 1 ;;
                     Ret {| status := 201;
                            body := JObj
                              [ ("success", JBool true);
                                ("message", JStr (str "Donation registered successfully"));
                                ("data", JObj
                                   [ ("donor", JObj
                                        [ ("fullName", JStr (Donor.fullName donor));
                                          ("bloodGroup", JStr (Donor.bloodGroup donor)) ]);
                                     ("totalUnits", JNum (Stats.totalBloodUnits stats)) ])
                              ]%string |})
                    (fun error =>
                       match error with
                       | ValidationError messages =>
                           Ret (failure 400 (join (str ", ") messages))
                       | _ =>
                           Ret (failure 500 (str "Server error. Please try again later."))
                       end)
              end
          end
    end.

(** GET /api/stats *)
Definition get_stats : prog response :=
  try_catch
    (stats <- getStats ;;
     Ret {| status := 200;
            body := JObj
              [ ("success", JBool true);
                ("data", JObj
                   [ ("totalBloodUnits", JNum (Stats.totalBloodUnits stats));
                     ("lastUpdated", JDate (Stats.lastUpdated stats)) ])
              ]%string |})
    (fun _ => Ret (failure 500 (str "Error fetching statistics"))).

(** POST /api/sync-stats *)
Definition sync_stats : prog response :=
  try_catch
    (donorCount <- await DonorCount ;;
     _ <- await (StatsSet donorCount) ;;
     Ret {| status := 200;
            body := JObj
              [ ("success", JBool true);
                ("message", JStr (str "Stats synced. Total donors: " ++ decimal donorCount)%list);
                ("data", JObj [ ("totalBloodUnits", JNum donorCount) ])
              ]%string |})
    (fun _ => Ret (failure 500 (str "Error syncing statistics"))).

(** [x || dflt] on a number: NaN and 0 are falsy. *)
Definition or_default (x : option Z) (dflt : Z) : Z :=
  match x with
  | Some n => if n =? 0 then dflt else n
  | None => dflt
  end.

(** GET /api/donors, with [req.query.limit]. *)
Definition get_donors (query_limit : jsval) : prog response :=
  try_catch
    (let limit := or_default (parseInt query_limit) 10 in
     donors <- await (DonorFindRecent limit) ;;
     Ret {| status := 200;
            body := JObj [ ("success", JBool true); ("data", JArr donors) ]%string |})
    (fun _ => Ret (failure 500 (str "Error fetching donors"))).

(* ================================================================== *)
(** ** Concurrent requests *)

(** The requests in flight.  The server is one process: at any moment one
    handler runs, up to its next [await]; the operation it issues is applied
    by the store as a unit, and another handler may run before the first one
    resumes. *)
Definition pool := list (prog response).

(** One scheduling decision: which request runs its next storage operation,
    what the clock reads, whether the store can be reached and how it orders
    equal sort keys. *)
Record event :=
  { who : nat; at_time : Z; store_up : bool; tie_break : Donor.tiebreak }.

Fixpoint set_nth {A} (i : nat) (x : A) (l : list A) : list A :=
  match l, i with
  | [], _ => []
  | _ :: l', O => x :: l'
  | y :: l', S j => y :: set_nth j x l'
  end.

(** A request that has answered (or was never in the pool) does nothing. *)
Definition step (ev : event) (ps : pool) (d : db) : pool * db :=
  match nth_error ps (who ev) with
  | Some (Op o k) =>
      let '(r, d') := exec o (at_time ev) (store_up ev) (tie_break ev) d in
      (set_nth (who ev) (k r) ps, d')
  | _ => (ps, d)
  end.

Fixpoint steps (sched : list event) (ps : pool) (d : db) : pool * db :=
  match sched with
  | [] => (ps, d)
  | ev :: sched' => let '(ps', d') := step ev ps d in steps sched' ps' d'
  end.

Definition answered (p : prog response) : bool :=
  match p with
  | Op _ _ => false
  | _ => true
  end.

(** How often request [i] is scheduled. *)
Definition turns (i : nat) (sched : list event) : nat :=
  List.length (filter (fun ev => Nat.eqb (who ev) i) sched).

(* ================================================================== *)
(** ** Observations on the database *)

(** The counter of the Stats Aggregate; 0 as long as it has not been
    created. *)
Definition totalUnits (d : db) : Z :=
  match Stats.findOne (stats d) with
  | Some s => Stats.totalBloodUnits s
  | None => 0
  end.

(** [count()] of the Donor Store. *)
Definition count (d : db) : Z := Z.of_nat (List.length (donors d)).

(** The number of singleton records. *)
Definition singletons (d : db) : nat :=
  List.length (filter Stats.is_global (stats d)).

Definition starts_with_whitespace (s : jsstring) : bool :=
  match s with
  | c :: _ => is_whitespace c
  | [] => false
  end.

Definition ends_with_whitespace (s : jsstring) : bool :=
  starts_with_whitespace (rev s).

(** No white space at either end. *)
Definition trimmed (s : jsstring) : Prop :=
  starts_with_whitespace s = false /\ ends_with_whitespace s = false.

(* ================================================================== *)
(** ** Submissions and answers *)

(** A submission that meets the data model: the four fields are present
    with the given values, the name has two characters or more once trimmed,
    the age is a whole number from 18 to 65, and blood group and year are in
    their closed sets. *)
Definition valid_submission (b : req_body)
    (name bg : jsstring) (a : Z) (yr : jsstring) : Prop :=
  fullName b = Str name /\ (2 <= List.length (trim name))%nat /\
  bloodGroup b = Str bg /\ In bg validBloodGroups /\
  (exists q, age b = Num q /\ Qeq q (inject_Z a)) /\ 18 <= a <= 65 /\
  year b = Str yr /\ In yr validYears.

(** The candidate the route builds from a valid submission. *)
Definition candidate_of (name bg : jsstring) (a : Z) (yr : jsstring)
  : Donor.candidate :=
  {| Donor.c_fullName := trim name;
     Donor.c_bloodGroup := bg;
     Donor.c_age := a;
     Donor.c_year := yr |}.

(** The donor document a valid submission is stored as. *)
Definition donor_of (name bg : jsstring) (a : Z) (yr : jsstring)
    (t : Z) (id : nat) : Donor.t :=
  {| Donor._id := id;
     Donor.fullName := trim name;
     Donor.bloodGroup := bg;
     Donor.age := a;
     Donor.year := yr;
     Donor.donatedAt := t |}.

(** The 201 answer of POST /api/donate. *)
Definition created (name bg : jsstring) (total : Z) : response :=
  {| status := 201;
     body := JObj
       [ ("success", JBool true);
         ("message", JStr (str "Donation registered successfully"));
         ("data", JObj
            [ ("donor", JObj [ ("fullName", JStr name); ("bloodGroup", JStr bg) ]);
              ("totalUnits", JNum total) ])
       ]%string |}.



(** The 200 answer of GET /api/stats. *)
Definition stats_answer (s : Stats.t) : response :=
  {| status := 200;
     body := JObj
       [ ("success", JBool true);
         ("data", JObj
            [ ("totalBloodUnits", JNum (Stats.totalBloodUnits s));
              ("lastUpdated", JDate (Stats.lastUpdated s)) ])
       ]%string |}.

(* ================================================================== *)
(** ** The recent-donors listing *)

(** [x] is at least as recent as [y]. *)
Definition not_older (x y : Donor.t) : Prop :=
  Donor.donatedAt y <= Donor.donatedAt x.

(** The rows GET /api/donors reads for the limit [n] it passes on, when the
    store orders equal keys by [tie]. *)
Definition recent (tie : Donor.tiebreak) (n : Z) (d : db) : list Donor.t :=
  Donor.limit n (Donor.sort_desc tie (donors d)).

(** The position of the identifier [i] in [ids]. *)
Fixpoint rank (ids : list nat) (i : nat) : nat :=
  match ids with
  | [] => O
  | j :: r => if Nat.eqb j i then O else S (rank r i)
  end.

(** The store that returns equal keys in the order they have in [rows]. *)
Definition listed_order (rows : list Donor.t) : Donor.tiebreak :=
  fun x y =>
    Nat.ltb (rank (map Donor._id rows) (Donor._id y))
            (rank (map Donor._id rows) (Donor._id x)).

(** The 200 answer of GET /api/donors. *)
Definition donors_answer (rows : list Donor.t) : response :=
  {| status := 200;
     body := JObj [ ("success", JBool true);
                    ("data", JArr (map Donor.select rows)) ]%string |}.

(* ================================================================== *)
(** ** Stages of the requests in a pool

    A request needs a bounded number of storage operations.  [ns] holds, for
    each request of the pool, how many it may still need; a turn uses up
    one. *)

Fixpoint dec_nth (i : nat) (ns : list nat) : list nat :=
  match ns, i with
  | [], _ => []
  | n :: ns', O => pred n :: ns'
  | n :: ns', S j => n :: dec_nth j ns'
  end.

Definition after_turns (sched : list event) (ns : list nat) : list nat :=
  fold_left (fun ns ev => dec_nth (who ev) ns) sched ns.

(** Saves and increments a registration still has to do when it may need
    [n] more storage operations. *)
Definition saves_left (n : nat) : Z :=
  match n with
  | 2%nat => 1
  | _ => 0
  end.

Definition incs_left (n : nat) : Z :=
  match n with
  | O => 0
  | _ => 1
  end.

Definition total_of (f : nat -> Z) (ns : list nat) : Z :=
  fold_right (fun n acc => f n + acc) 0 ns.

(** The stages of a valid registration: before the save (2), between the
    save and the increment (1), answered with 201 (0). *)
Definition registering (d : db) (p : prog response) (n : nat) : Prop :=
  match p with
  | Ret r => n = 0%nat /\ status r = 201
  | Throw _ => False
  | Op o k =>
      match o in storeop B return (result B -> prog response) -> Prop with
      | DonorSave c => fun k =>
          n = 2%nat /\
          (forall t id, Donor.validate (Donor.construct c t id) = []) /\
          (forall doc, exists k2,
              k (Ok doc) = Op (StatsInc 1) k2 /\
              forall s, exists r, k2 (Ok s) = Ret r /\ status r = 201)
      | StatsInc amount => fun k =>
          n = 1%nat /\ amount = 1 /\
          forall s, exists r, k (Ok s) = Ret r /\ status r = 201
      | _ => fun _ => False
      end k
  end.

(** What a turn of a registration at stage [n] does to the two counts. *)
Definition registration_effect (n : nat) (d d' : db) : Prop :=
  count d' + saves_left (pred n) = count d + saves_left n /\
  totalUnits d' + incs_left (pred n) = totalUnits d + incs_left n.

(** Donors stored plus saves to come, total plus increments to come. *)
Definition registration_balance (C T : Z) (ns : list nat) (d : db) : Prop :=
  count d + total_of saves_left ns = C /\
  totalUnits d + total_of incs_left ns = T.

(** The stages of GET /api/stats: before the lookup (2), before the create
    that follows a lookup that found nothing (1).  A request that has
    answered has seen the singleton, or has run the create. *)
Definition reading (d : db) (p : prog response) (n : nat) : Prop :=
  match p with
  | Ret _ => (1 <= singletons d)%nat
  | Throw _ => False
  | Op o k =>
      match o in storeop B return (result B -> prog response) -> Prop with
      | StatsFindOne => fun k =>
          n = 2%nat /\
          (exists k2, k (Ok None) = Op StatsCreate k2 /\
                      forall r2, exists a, k2 r2 = Ret a) /\
          (forall s, exists a, k (Ok (Some s)) = Ret a)
      | StatsCreate => fun k =>
          n = 1%nat /\ forall r, exists a, k r = Ret a
      | _ => fun _ => False
      end k
  end.

(** A turn of a reader keeps what singleton there is, adds no second one,
    and leaves the total and the donors alone. *)
Definition reading_effect (n : nat) (d d' : db) : Prop :=
  (singletons d <= singletons d')%nat /\
  ((singletons d <= 1)%nat -> (singletons d' <= 1)%nat) /\
  totalUnits d' = totalUnits d /\ donors d' = donors d.

Definition reading_balance (T : Z) (ns : list nat) (d : db) : Prop :=
  (singletons d <= 1)%nat /\ totalUnits d = T.

(* ================================================================== *)
(** ** Sample requests, environments and databases *)

Definition jane : req_body :=
  {| fullName := Str (str "Jane Doe");
     bloodGroup := Str (str "O-");
     age := Num (inject_Z 30);
     year := Str (str "SY") |}.

Definition bo : req_body :=
  {| fullName := Str (str " Bo Li ");
     bloodGroup := Str (str "AB+");
     age := Num (inject_Z 19);
     year := Str (str "Final Year") |}.


(** The age is 30.5. *)
Definition fractional_age : req_body :=
  {| fullName := Str (str "Jane Doe");
     bloodGroup := Str (str "O-");
     age := Num (61 # 2);
     year := Str (str "SY") |}.

(** The name is the number 7 and the age is 70. *)
Definition numeric_name : req_body :=
  {| fullName := Num (inject_Z 7);
     bloodGroup := Str (str "O-");
     age := Num (inject_Z 70);
     year := Str (str "SY") |}.

Definition always_up : env :=
  {| now := fun i => 1000 + Z.of_nat i; up := fun _ => true;
     ties := fun _ => Donor.record_order |}.


Definition always_down : env :=
  {| now := fun _ => 1000; up := fun _ => false;
     ties := fun _ => Donor.record_order |}.

Definition empty_db : db := {| donors := []; stats := [] |}.

(** A donor was stored and the increment never happened. *)
Definition drifted_db : db :=
  {| donors := [donor_of (str "Jane Doe") (str "O-") 30 (str "SY") 1000 0];
     stats := [{| Stats.identifier := Stats.global;
                  Stats.totalBloodUnits := 0;
                  Stats.lastUpdated := 900 |}] |}.

(** Three donors; the second and third were registered at the same
    instant. *)
Definition three_donors : db :=
  {| donors := [ donor_of (str "Asha Rao") (str "A+") 20 (str "FY") 100 0;
                 donor_of (str "Bo Li") (str "B+") 21 (str "SY") 200 1;
                 donor_of (str "Cy Wu") (str "O-") 22 (str "TY") 200 2 ];
     stats := [] |}.

(** Twelve donors, registered two to an instant. *)
Definition twelve_donors : db :=
  {| donors := map (fun i => donor_of (str "Dee Roy") (str "O+") 25 (str "FY")
                               (100 + Z.of_nat (i / 2)) i)
                   (seq 0 12);
     stats := [] |}.

Definition turn (i : nat) (t : Z) : event :=
  {| who := i; at_time := t; store_up := true;
     tie_break := Donor.record_order |}.

(** Both saves first, then both increments, the second request ahead. *)
Definition interleaved : list event := [turn 0 10; turn 1 11; turn 1 12; turn 0 13].

(** Two readers; both look the singleton up before either creates it. *)
Definition race : list event := [turn 0 10; turn 1 11; turn 0 12; turn 1 13].

(* ================================================================== *)
(** ** Further observations on requests and the database *)

(** What the Donor schema lets into the collection. *)
Definition schema_ok (x : Donor.t) : Prop :=
  (2 <= List.length (Donor.fullName x))%nat /\
  trimmed (Donor.fullName x) /\
  18 <= Donor.age x <= 65 /\
  In (Donor.bloodGroup x) Donor.bloodGroup_values /\
  In (Donor.year x) Donor.year_values.

(** By how much the donor count is ahead of the total. *)
Definition drift (d : db) : Z := count d - totalUnits d.

(** The requests of the API. *)
Inductive api_request : prog response -> Prop :=
| api_donate (b : req_body) : api_request (donate b)
| api_get_stats : api_request get_stats
| api_sync_stats : api_request sync_stats
| api_get_donors (q : jsval) : api_request (get_donors q).

(** The requests of the API other than the reconciliation. *)
Inductive everyday_request : prog response -> Prop :=
| everyday_donate (b : req_body) : everyday_request (donate b)
| everyday_get_stats : everyday_request get_stats
| everyday_get_donors (q : jsval) : everyday_request (get_donors q).

(** What a submission must be for the route and the schema to let it
    through. *)
Definition accepted_input (b : req_body)
    (name bg : jsstring) (a : Z) (yr : jsstring) : Prop :=
  fullName b = Str name /\ (2 <= List.length (trim name))%nat /\
  includes validBloodGroups (bloodGroup b) = Some bg /\
  parseInt (age b) = Some a /\ 18 <= a <= 65 /\
  includes validYears (year b) = Some yr.

(** All code units are white space. *)
Definition all_whitespace (w : jsstring) : bool := forallb is_whitespace w.


(** *** Requests that only raise the total *)

(** The operation does not lower the total by its arguments. *)
Definition raises_only {B} (o : storeop B) : Prop :=
  match o with
  | StatsInc amount => 0 <= amount
  | StatsSet total => 0 <= total
  | _ => True
  end.

(** What the store can answer: a count is not negative. *)
Definition plausible {B} (o : storeop B) (r : result B) : Prop :=
  match o in storeop B return result B -> Prop with
  | DonorCount => fun r => match r with Ok n => 0 <= n | Err _ => True end
  | _ => fun _ => True
  end r.

(** Every operation the request may still issue, whatever the store
    answers, only raises the total. *)
Fixpoint total_safe {A} (p : prog A) : Prop :=
  match p with
  | Ret _ | Throw _ => True
  | Op o k => raises_only o /\ forall r, plausible o r -> total_safe (k r)
  end.

(** *** Requests that count only what they stored *)

(** [c] is the number of donors the request has stored and not yet counted.
    An increment must be covered by it; an overwrite of the total is not. *)
Definition spends {B} (o : storeop B) (c : Z) : Prop :=
  match o with
  | StatsInc amount => amount <= c
  | StatsSet _ => False
  | _ => True
  end.

Definition credit_after {B} (o : storeop B) (r : result B) (c : Z) : Z :=
  match r with
  | Ok _ =>
      match o with
      | DonorSave _ => c + 1
      | StatsInc amount => c - amount
      | _ => c
      end
  | Err _ => c
  end.

Fixpoint within_credit {A} (p : prog A) (c : Z) : Prop :=
  match p with
  | Ret _ | Throw _ => True
  | Op o k => spends o c /\ forall r, within_credit (k r) (credit_after o r c)
  end.

Definition sum_credits (cs : list Z) : Z := fold_right Z.add 0 cs.


(** Every clock reading is the instant 200, at which two of the
    [three_donors] were registered, and the store returns equal keys in the
    reverse of the order of insertion. *)
Definition at_200 : env :=
  {| now := fun _ => 200; up := fun _ => true;
     ties := fun _ => Donor.reverse_order |}.


(** All four fields pass the presence check of the route. *)
Definition all_present (b : req_body) : bool :=
  truthy (fullName b) && truthy (bloodGroup b) && truthy (age b) && truthy (year b).

(** The messages of the validators that failed. *)
Definition failures (l : list (option jsstring)) : list jsstring :=
  flat_map (fun o : option jsstring => match o with Some m => [m] | None => [] end) l.

(** A name of one character and an age of 70. *)
Definition short_and_old : req_body :=
  {| fullName := Str (str " J ");
     bloodGroup := Str (str "O-");
     age := Str (str "70");
     year := Str (str "SY") |}.

(** A name of white space only, and an age above the schema's maximum. *)
Definition blank_and_old : req_body :=
  {| fullName := Str (str "   ");
     bloodGroup := Str (str "O-");
     age := Str (str "70");
     year := Str (str "SY") |}.


(* ================================================================== *)
(** ** The page script: requests and the registration form *)

(** [response.ok]. *)
Definition response_ok (r : response) : bool :=
  (200 <=? status r) && (status r <=? 299).

(** ToBoolean of a value read from a parsed reply. *)
Definition json_truthy (j : json) : bool :=
  match j with
  | JBool b => b
  | JNum n => negb (n =? 0)
  | JStr s => match s with [] => false | _ => true end
  | JDate _ | JId _ | JArr _ | JObj _ => true
  end.

(** How [apiRequest] ends: it returns the parsed reply, or throws
    [new Error(message)]; [Rejected] holds the argument of [new Error]. *)
Inductive api_result :=
| Resolved (data : json)
| Rejected (message : json).

(** [apiRequest] on an answer of this server.  The API routes answer with
    [res.json], so the text of the reply parses back to the body that was
    sent; the branch for a reply that is not JSON is not taken. *)
Definition apiRequest (r : response) : api_result :=
  if response_ok r then Resolved (body r)
  else
    Rejected
      (match field "message" (body r) with
       | Some m => if json_truthy m then m else JStr (str "Request failed")
       | None => JStr (str "Request failed")
       end).

(** The two shapes of an answer: success, which [apiRequest] returns, or
    failure with a message, which [apiRequest] throws. *)
Definition well_formed_answer (r : response) : Prop :=
  ((status r = 200 \/ status r = 201) /\
   field "success" (body r) = Some (JBool true) /\
   apiRequest r = Resolved (body r)) \/
  ((status r = 400 \/ status r = 500) /\
   exists m, r = failure (status r) m /\ m <> [] /\
             apiRequest r = Rejected (JStr m)).

Module Form.

(** The [.value] of the four fields of the registration form. *)
Record t := {
  fullName : jsstring;
  bloodGroup : jsstring;
  age : jsstring;
  year : jsstring
}.

End Form.

(** [validateField]: the field must hold something other than white
    space. *)
Definition validateField (value : jsstring) : bool :=
  match trim value with
  | [] => false
  | _ => true
  end.

(** The checks of the age field on submit, with the error shown. *)
Definition age_error (value : jsstring) : option jsstring :=
  if negb (validateField value) then Some (str "Please enter your age")
  else
    match parseInt_string value with
    | Some n =>
        if n <? 18 then Some (str "You must be at least 18 years old")
        else if 65 <? n then Some (str "Maximum age for donation is 65 years")
        else None
    | None => None
    end.

(** The errors the submit handler shows, by error element. *)
Definition form_errors (f : Form.t) : list (string * jsstring) :=
  ((if validateField (Form.fullName f) then []
    else [("fullNameError"%string, str "Please enter your full name")]) ++
   (if validateField (Form.bloodGroup f) then []
    else [("bloodGroupError"%string, str "Please select your blood group")]) ++
   (match age_error (Form.age f) with
    | Some m => [("ageError"%string, m)]
    | None => []
    end) ++
   (if validateField (Form.year f) then []
    else [("yearError"%string, str "Please select your academic year")]))%list.

(** [JSON.stringify] of a number, read back by the server: NaN becomes
    [null]. *)
Definition number_sent (x : option Z) : jsval :=
  match x with
  | Some n => Num (inject_Z n)
  | None => Null
  end.

(** The body of the POST, as the server parses it. *)
Definition form_body (f : Form.t) : req_body :=
  {| fullName := Str (trim (Form.fullName f));
     bloodGroup := Str (Form.bloodGroup f);
     age := number_sent (parseInt_string (Form.age f));
     year := Str (Form.year f) |}.

Inductive submission :=
| Blocked (errors : list (string * jsstring))
| Sent (b : req_body).

(** The submit handler of the form, up to the request. *)
Definition submit (f : Form.t) : submission :=
  match form_errors f with
  | [] => Sent (form_body f)
  | errors => Blocked errors
  end.

(** What the server needs on top of the form's own checks. *)
Definition server_accepts (f : Form.t) : Prop :=
  (2 <= List.length (trim (Form.fullName f)))%nat /\
  In (Form.bloodGroup f) validBloodGroups /\
  In (Form.year f) validYears /\
  parseInt_string (Form.age f) <> None.

(** A form with a name of one character. *)
Definition initial_only : Form.t :=
  {| Form.fullName := str " J ";
     Form.bloodGroup := str "O-";
     Form.age := str "30.9";
     Form.year := str "SY" |}.


(* ================================================================== *)
(** ** The page script: the dashboard *)

Module Dashboard.

(** The two variables [fetchStats] keeps between polls. *)
Record state := {
  previousTotal : Z;
  isFirstLoad : bool
}.

Definition initial : state := {| previousTotal := 0; isFirstLoad := true |}.

(** What one poll sets off: the fetch of the latest donor for the popup,
    and the two count animations with their start and end values. *)
Record effects := {
  popup : bool;
  units_animation : option (Z * Z);
  lives_animation : option (Z * Z)
}.

End Dashboard.

(** The [try] block of [fetchStats] on a reply whose data holds the number
    [totalBloodUnits]. *)
Definition fetchStats (totalBloodUnits : Z) (st : Dashboard.state)
  : Dashboard.state * Dashboard.effects :=
  let changed := negb (totalBloodUnits =? Dashboard.previousTotal st) in
  ({| Dashboard.previousTotal :=
        if changed then totalBloodUnits else Dashboard.previousTotal st;
      Dashboard.isFirstLoad := false |},
   {| Dashboard.popup :=
        negb (Dashboard.isFirstLoad st)
        && (Dashboard.previousTotal st <? totalBloodUnits);
      Dashboard.units_animation :=
        if changed then Some (Dashboard.previousTotal st, totalBloodUnits) else None;
      Dashboard.lives_animation :=
        if changed then Some (Dashboard.previousTotal st * 3, totalBloodUnits * 3)
        else None |}).

(** A run of polls; [None] is a poll whose request failed, which [fetchStats]
    only logs.  The result is the state and the number of popups set off. *)
Fixpoint polls (replies : list (option Z)) (st : Dashboard.state)
  : Dashboard.state * Z :=
  match replies with
  | [] => (st, 0)
  | None :: rest => polls rest st
  | Some total :: rest =>
      let '(st', fx) := fetchStats total st in
      let '(st'', n) := polls rest st' in
      (st'', (if Dashboard.popup fx then 1 else 0) + n)
  end.

(** The totals of the polls that were answered. *)
Definition answered_totals (replies : list (option Z)) : list Z :=
  flat_map (fun o : option Z => match o with Some t => [t] | None => [] end) replies.

(** The polls see 4 units, fail once, see 4 again and then 7. *)
Definition four_then_seven : list (option Z) := [Some 4; None; Some 4; Some 7].


(* ================================================================== *)
(** ** The page script: the donors modal and the markup *)

(** [s.startsWith(t)]. *)
Fixpoint starts_with (s t : jsstring) {struct t} : bool :=
  match t, s with
  | [], _ => true
  | _ :: _, [] => false
  | c :: t', c' :: s' => (c =? c')%N && starts_with s' t'
  end.

(** [String.prototype.includes]: [t] occurs in [s]. *)
Fixpoint string_includes (s t : jsstring) : bool :=
  starts_with s t ||
  match s with
  | [] => false
  | _ :: s' => string_includes s' t
  end.

Module Listed.

(** A donor as the listing hands it to the page. *)
Record t := {
  fullName : jsstring;
  bloodGroup : jsstring;
  donatedAt : Z
}.

End Listed.

(** What the modal shows after a search. *)
Inductive modal :=
| Cards (rows : list Listed.t)
| NoMatch (term : jsstring).

Section Search.

(** [String.prototype.toLowerCase], the case mapping of the engine. *)
Variable toLowerCase : jsstring -> jsstring.

(** The test of [filterDonors] on one donor. *)
Definition matches (searchTerm : jsstring) (donor : Listed.t) : bool :=
  string_includes (toLowerCase (Listed.fullName donor)) searchTerm
  || string_includes (toLowerCase (Listed.bloodGroup donor)) searchTerm.

Definition filterDonors (allDonorsData : list Listed.t) (searchTerm : jsstring)
  : modal :=
  match searchTerm with
  | [] => Cards allDonorsData
  | _ =>
      match filter (matches searchTerm) allDonorsData with
      | [] => NoMatch searchTerm
      | filtered => Cards filtered
      end
  end.

(** The input listener of the search box. *)
Definition search (allDonorsData : list Listed.t) (value : jsstring) : modal :=
  filterDonors allDonorsData (trim (toLowerCase value)).

End Search.

(** The text of one code unit in the [innerHTML] of an element. *)
Definition escape_unit (c : N) : jsstring :=
  if (c =? 38)%N then str "&amp;"
  else if (c =? 60)%N then str "&lt;"
  else if (c =? 62)%N then str "&gt;"
  else if (c =? 160)%N then str "&nbsp;"
  else [c].

(** [escapeHtml]: the text is put into an element as its [textContent] and
    read back as [innerHTML]. *)
Definition escapeHtml (text : jsstring) : jsstring := flat_map escape_unit text.

(** A case mapping that lowers the letters A to Z and keeps the rest. *)
Definition ascii_lower (s : jsstring) : jsstring :=
  map (fun c => if ((65 <=? c) && (c <=? 90))%N then (c + 32)%N else c) s.

Definition two_listed : list Listed.t :=
  [ {| Listed.fullName := str "Asha Rao"; Listed.bloodGroup := str "A+";
       Listed.donatedAt := 200 |};
    {| Listed.fullName := str "Bo Li"; Listed.bloodGroup := str "B+";
       Listed.donatedAt := 100 |} ].


(* ================================================================== *)
(** ** server/server.js: start-up *)

(** How [startServer] ends: the server listens, or [connectDB] has called
    [process.exit(1)]. *)
Inductive startup :=
| Listening
| Exited (code : Z).

(** [startServer]: [connectDB] connects ([connected] tells whether
    [mongoose.connect] succeeds) and initialises the stats with [getStats];
    an error at either step ends the process; otherwise the server
    listens. *)
Definition startServer (connected : bool) : prog startup :=
  try_catch
    (if connected then (_ <- getStats ;; Ret Listening)
     else Throw StoreUnavailable)
    (fun _ => Ret (Exited 1)).

(* ================================================================== *)
(** * Properties *)

(** ** parseInt and trim on examples *)

Example parseInt_30 : parseInt (Str (str "30")) = Some 30.
Proof. reflexivity. Qed.

Example parseInt_30_5 : parseInt (Num (61 # 2)) = Some 30.
Proof. reflexivity. Qed.

Example parseInt_hex : parseInt (Str (str " 0x1Ez")) = Some 30.
Proof. reflexivity. Qed.

Example parseInt_1e21 : parseInt (Num (inject_Z (3 * 10 ^ 21))) = Some 3.
Proof. vm_compute. reflexivity. Qed.

Example parseInt_small : parseInt (Num (7 # 100000000)) = Some 7.
Proof. vm_compute. reflexivity. Qed.

(** [1e23] is the number 99999999999999991611392; it prints as [1e+23]. *)
Example parseInt_1e23 :
  parseInt (Num (inject_Z 99999999999999991611392)) = Some 1.
Proof. vm_compute. reflexivity. Qed.

(** [1e-6] is the number 4722366482869645 * 2^-72; it prints as [0.000001].
    The number next below it prints as [9.999999999999997e-7]. *)
Example parseInt_1e_6 :
  parseInt (Num (4722366482869645 # 2 ^ 72)) = Some 0 /\
  parseInt (Num (4722366482869644 # 2 ^ 72)) = Some 9.
Proof. split; vm_compute; reflexivity. Qed.

(** The least positive number, 2^-1074, prints as [5e-324]. *)
Example parseInt_least : parseInt (Num (1 # 2 ^ 1074)) = Some 5.
Proof. vm_compute. reflexivity. Qed.

Example parseInt_abc : parseInt (Str (str "abc")) = None.
Proof. reflexivity. Qed.

Example trim_ex : trim (str "  Jane Doe ") = str "Jane Doe".
Proof. reflexivity. Qed.

(** ** Strings *)

Lemma jsstring_eqb_eq (a b : jsstring) : jsstring_eqb a b = true <-> a = b.
Proof.
  unfold jsstring_eqb. destruct (list_eq_dec N.eq_dec a b); split; congruence.
Qed.

Lemma jsstring_eqb_refl (a : jsstring) : jsstring_eqb a a = true.
Proof. now apply jsstring_eqb_eq. Qed.

Lemma existsb_In (s : jsstring) (l : list jsstring) :
  existsb (jsstring_eqb s) l = true <-> In s l.
Proof.
  rewrite existsb_exists. split.
  - intros (x & Hx & E). apply jsstring_eqb_eq in E. now subst.
  - intros H. exists s. split; [assumption | apply jsstring_eqb_refl].
Qed.

Lemma includes_In (l : list jsstring) (s : jsstring) :
  In s l -> includes l (Str s) = Some s.
Proof.
  intros H. simpl. apply existsb_In in H. now rewrite H.
Qed.

Lemma includes_Some (l : list jsstring) (v : jsval) (s : jsstring) :
  includes l v = Some s -> v = Str s /\ In s l.
Proof.
  destruct v as [| | b | q | s0]; simpl; try discriminate.
  destruct (existsb (jsstring_eqb s0) l) eqn:E; [|discriminate].
  intros [= ->]. split; [reflexivity | now apply existsb_In].
Qed.

Lemma trimStart_no_lead (s : jsstring) :
  starts_with_whitespace (trimStart s) = false.
Proof.
  induction s as [|c s IH]; simpl; [reflexivity|].
  destruct (is_whitespace c) eqn:E; [assumption | simpl; assumption].
Qed.

Lemma trimStart_id (s : jsstring) :
  starts_with_whitespace s = false -> trimStart s = s.
Proof.
  destruct s as [|c s]; simpl; [reflexivity|]. now intros ->.
Qed.

Lemma trimStart_split (s : jsstring) :
  exists w, s = w ++ trimStart s.
Proof.
  induction s as [|c s [w IH]]; simpl.
  - now exists [].
  - destruct (is_whitespace c).
    + exists (c :: w). simpl. now f_equal.
    + now exists [].
Qed.

Lemma trimEnd_no_trail (s : jsstring) :
  ends_with_whitespace (trimEnd s) = false.
Proof.
  unfold ends_with_whitespace, trimEnd. rewrite rev_involutive.
  apply trimStart_no_lead.
Qed.

Lemma trimEnd_no_lead (s : jsstring) :
  starts_with_whitespace s = false ->
  starts_with_whitespace (trimEnd s) = false.
Proof.
  intros H. unfold trimEnd.
  destruct (trimStart_split (rev s)) as [w E].
  assert (S : s = rev (trimStart (rev s)) ++ rev w).
  { rewrite <- rev_app_distr, <- E. symmetry. apply rev_involutive. }
  destruct (rev (trimStart (rev s))) as [|c t]; [reflexivity|].
  rewrite S in H. exact H.
Qed.

Lemma trim_no_lead (s : jsstring) : starts_with_whitespace (trim s) = false.
Proof. apply trimEnd_no_lead, trimStart_no_lead. Qed.

Lemma trim_no_trail (s : jsstring) : ends_with_whitespace (trim s) = false.
Proof. apply trimEnd_no_trail. Qed.

Lemma trim_id (s : jsstring) :
  starts_with_whitespace s = false -> ends_with_whitespace s = false ->
  trim s = s.
Proof.
  intros H1 H2. unfold trim, trimEnd. rewrite (trimStart_id s H1).
  rewrite (trimStart_id (rev s) H2). apply rev_involutive.
Qed.

Lemma trim_idempotent (s : jsstring) : trim (trim s) = trim s.
Proof. apply trim_id; [apply trim_no_lead | apply trim_no_trail]. Qed.

(** ** Reading a valid submission *)

Lemma parseInt_whole (q : Q) (a : Z) :
  Qeq q (inject_Z a) -> 18 <= a <= 65 -> parseInt (Num q) = Some a.
Proof.
  destruct q as [n d]. unfold Qeq, inject_Z. simpl. intros E Ha.
  rewrite Z.mul_1_r in E. subst n.
  unfold parseInt_number. simpl Qnum. simpl Qden.
  assert (Hd : 0 < Z.pos d) by lia.
  assert (Habs : Z.abs (a * Z.pos d) = a * Z.pos d) by (apply Z.abs_eq; nia).
  rewrite Habs.
  assert (P21 : 10 ^ 21 = 1000000000000000000000) by reflexivity.
  assert (P72 : 2 ^ 72 = 4722366482869645213696) by reflexivity.
  rewrite P21, P72.
  destruct (Z.leb_spec (1000000000000000000000 * Z.pos d) (a * Z.pos d)); [nia|].
  destruct (Z.ltb_spec (a * Z.pos d * 4722366482869645213696)
              (4722366482869645 * Z.pos d)); [nia|].
  rewrite andb_false_r. f_equal. apply Z.quot_mul. lia.
Qed.

Lemma truthy_whole (q : Q) (a : Z) :
  Qeq q (inject_Z a) -> 18 <= a <= 65 -> truthy (Num q) = true.
Proof.
  destruct q as [n d]. unfold Qeq, inject_Z. simpl. intros E Ha.
  rewrite Z.mul_1_r in E. subst n.
  destruct (Z.eqb_spec (a * Z.pos d) 0); [nia | reflexivity].
Qed.

Lemma truthy_member (l : list jsstring) (s : jsstring) :
  In s l -> Forall (fun m => m <> []) l -> truthy (Str s) = true.
Proof.
  intros H F. rewrite Forall_forall in F. specialize (F s H).
  destruct s; [congruence | reflexivity].
Qed.

Lemma validBloodGroups_nonempty : Forall (fun m : jsstring => m <> []) validBloodGroups.
Proof. repeat constructor; discriminate. Qed.

Lemma validYears_nonempty : Forall (fun m : jsstring => m <> []) validYears.
Proof. repeat constructor; discriminate. Qed.

Lemma validate_enum_member (values : list jsstring) (req inv : string) (v : jsstring) :
  In v values -> Forall (fun m => m <> []) values ->
  Donor.validate_enum values req inv v = None.
Proof.
  intros H F. unfold Donor.validate_enum.
  rewrite Forall_forall in F. specialize (F v H).
  destruct v as [|c v]; [congruence|]. simpl List.length. simpl Nat.eqb.
  apply existsb_In in H. now rewrite H.
Qed.

Lemma validate_fullName_ok (v : jsstring) :
  (2 <= List.length v)%nat -> Donor.validate_fullName v = None.
Proof.
  intros H. unfold Donor.validate_fullName.
  destruct (Nat.eqb_spec (List.length v) 0); [lia|].
  destruct (Nat.ltb_spec (List.length v) 2); [lia | reflexivity].
Qed.

Lemma validate_age_ok (a : Z) : 18 <= a <= 65 -> Donor.validate_age a = None.
Proof.
  intros H. unfold Donor.validate_age.
  destruct (Z.ltb_spec a 18); [lia|].
  destruct (Z.ltb_spec 65 a); [lia | reflexivity].
Qed.

Lemma construct_candidate (name bg : jsstring) (a : Z) (yr : jsstring) (t : Z) (id : nat) :
  Donor.construct (candidate_of name bg a yr) t id = donor_of name bg a yr t id.
Proof.
  unfold Donor.construct, donor_of, candidate_of. simpl.
  now rewrite trim_idempotent.
Qed.

Lemma validate_donor_of (name bg : jsstring) (a : Z) (yr : jsstring) (t : Z) (id : nat) :
  (2 <= List.length (trim name))%nat -> In bg validBloodGroups ->
  18 <= a <= 65 -> In yr validYears ->
  Donor.validate (donor_of name bg a yr t id) = [].
Proof.
  intros Hn Hb Ha Hy. unfold Donor.validate, donor_of.
  cbn [Donor.fullName Donor.bloodGroup Donor.age Donor.year flat_map].
  rewrite (validate_fullName_ok _ Hn), (validate_age_ok _ Ha).
  rewrite (validate_enum_member _ _ _ _ Hb validBloodGroups_nonempty).
  rewrite (validate_enum_member _ _ _ _ Hy validYears_nonempty).
  reflexivity.
Qed.

(** A valid submission passes the route's own checks; what is left of the
    handler is the save, then the increment, then the 201 answer. *)
Lemma donate_valid_shape (b : req_body) (name bg : jsstring) (a : Z) (yr : jsstring) :
  valid_submission b name bg a yr ->
  exists k,
    donate b = Op (DonorSave (candidate_of name bg a yr)) k /\
    (forall doc, exists k2,
        k (Ok doc) = Op (StatsInc 1) k2 /\
        (forall s, k2 (Ok s) =
           Ret (created (Donor.fullName doc) (Donor.bloodGroup doc)
                  (Stats.totalBloodUnits s))) /\
        (forall msgs, k2 (Err (ValidationError msgs)) =
           Ret (failure 400 (join (str ", ") msgs))) /\
        (forall err, (forall msgs, err <> ValidationError msgs) ->
           k2 (Err err) = Ret (failure 500 (str "Server error. Please try again later.")))) /\
    (forall msgs, k (Err (ValidationError msgs)) =
       Ret (failure 400 (join (str ", ") msgs))) /\
    (forall err, (forall msgs, err <> ValidationError msgs) ->
       k (Err err) = Ret (failure 500 (str "Server error. Please try again later."))).
Proof.
  intros (Hn & Hlen & Hb & Hbin & (q & Hq & Hqa) & Ha & Hy & Hyin).
  unfold donate. rewrite Hn, Hb, Hq, Hy.
  assert (Tn : truthy (Str name) = true).
  { destruct name; [simpl in Hlen; lia | reflexivity]. }
  rewrite Tn, (truthy_member _ _ Hbin validBloodGroups_nonempty),
    (truthy_whole _ _ Hqa Ha), (truthy_member _ _ Hyin validYears_nonempty).
  cbn [negb orb]. rewrite (parseInt_whole _ _ Hqa Ha).
  destruct (Z.ltb_spec a 18) as [|_]; [lia|].
  rewrite (includes_In _ _ Hbin), (includes_In _ _ Hyin).
  cbn [call_trim bind try_catch await incrementCount].
  eexists. split; [reflexivity|].
  split; [|split].
  - intros doc. cbn [call_trim bind try_catch await incrementCount].
    eexists. split; [reflexivity|]. split; [|split].
    + intros s. reflexivity.
    + intros msgs. reflexivity.
    + intros err Herr. destruct err; try reflexivity. now contradiction (Herr messages).
  - intros msgs. reflexivity.
  - intros err Herr. destruct err; try reflexivity. now contradiction (Herr messages).
Qed.

(** The save of a valid candidate, with the store reachable. *)
Lemma exec_save_valid (name bg : jsstring) (a : Z) (yr : jsstring) (t : Z)
    (tb : Donor.tiebreak) (d : db) :
  (2 <= List.length (trim name))%nat -> In bg validBloodGroups ->
  18 <= a <= 65 -> In yr validYears ->
  let doc := donor_of name bg a yr t (List.length (donors d)) in
  exec (DonorSave (candidate_of name bg a yr)) t true tb d =
    (Ok doc, {| donors := donors d ++ [doc]; stats := stats d |}).
Proof.
  intros Hn Hb Ha Hy doc. unfold exec.
  rewrite construct_candidate. fold doc.
  unfold doc at 1. now rewrite validate_donor_of.
Qed.

(** ** The stats collection *)

Lemma findOne_is_global (l : list Stats.t) (s : Stats.t) :
  Stats.findOne l = Some s -> Stats.is_global s = true.
Proof. intros H. now apply find_some in H. Qed.

Lemma findOne_updateOne (l : list Stats.t) (s doc : Stats.t) :
  Stats.findOne l = Some s -> Stats.is_global doc = true ->
  Stats.findOne (Stats.updateOne doc l) = Some doc.
Proof.
  unfold Stats.findOne. induction l as [|x l IH]; simpl; [discriminate|].
  intros H G. destruct (Stats.is_global x) eqn:E.
  - simpl. now rewrite G.
  - simpl. rewrite E. now apply IH.
Qed.

Lemma findOne_append (l : list Stats.t) (doc : Stats.t) :
  Stats.findOne l = None -> Stats.is_global doc = true ->
  Stats.findOne (l ++ [doc]) = Some doc.
Proof.
  unfold Stats.findOne. induction l as [|x l IH]; simpl.
  - intros _ G. now rewrite G.
  - destruct (Stats.is_global x); [discriminate | assumption].
Qed.

Lemma filter_updateOne (l : list Stats.t) (doc : Stats.t) :
  Stats.is_global doc = true ->
  List.length (filter Stats.is_global (Stats.updateOne doc l)) =
  List.length (filter Stats.is_global l).
Proof.
  intros G. induction l as [|x l IH]; simpl; [reflexivity|].
  destruct (Stats.is_global x) eqn:E; simpl.
  - now rewrite G.
  - now rewrite E.
Qed.

Lemma findOne_None_filter (l : list Stats.t) :
  Stats.findOne l = None -> filter Stats.is_global l = [].
Proof.
  unfold Stats.findOne. induction l as [|x l IH]; simpl; [reflexivity|].
  destruct (Stats.is_global x); [discriminate | assumption].
Qed.

(** The atomic increment, with the store reachable: the document it
    returns is the singleton afterwards, and its counter is the former
    counter plus the amount. *)
Lemma exec_inc_up (amount t : Z) (tb : Donor.tiebreak) (d : db) :
  exists s d',
    exec (StatsInc amount) t true tb d = (Ok s, d') /\
    Stats.findOne (stats d') = Some s /\
    Stats.totalBloodUnits s = totalUnits d + amount /\
    Stats.lastUpdated s = t /\
    donors d' = donors d /\
    singletons d' = Nat.max 1 (singletons d).
Proof.
  unfold exec, totalUnits, singletons. cbn [negb].
  destruct (Stats.findOne (stats d)) as [s|] eqn:F.
  - eexists. eexists. split; [reflexivity|]. cbn [stats donors].
    pose proof (findOne_is_global _ _ F) as G.
    split; [|split; [|split; [|split]]]; try reflexivity.
    + eapply findOne_updateOne; [exact F | exact G].
    + rewrite filter_updateOne by exact G.
      apply find_some in F. destruct F as [Hin _].
      assert (Hin' : In s (filter Stats.is_global (stats d)))
        by (apply filter_In; split; assumption).
      destruct (filter Stats.is_global (stats d)); [destruct Hin' | simpl; lia].
  - eexists. eexists. split; [reflexivity|]. cbn [stats donors].
    split; [|split; [|split; [|split]]]; try reflexivity.
    + now apply findOne_append.
    + rewrite filter_app, (findOne_None_filter _ F). reflexivity.
Qed.

Lemma totalUnits_findOne (d : db) (s : Stats.t) :
  Stats.findOne (stats d) = Some s -> totalUnits d = Stats.totalBloodUnits s.
Proof. unfold totalUnits. now intros ->. Qed.

(* ================================================================== *)
(** ** The registration transaction *)

(** C1. For every valid submission [{fullName, bloodGroup, age, year}], with
    the store reachable, POST /api/donate appends the donor record (the name
    trimmed, [donatedAt] the time of the save), raises the counter of the
    Stats Aggregate by exactly 1, and answers 201 with
    [{success: true, data: {donor: {fullName, bloodGroup}, totalUnits}}],
    where [totalUnits] is the former total plus 1. *)
Theorem donate_valid_registers (b : req_body) (name bg : jsstring) (a : Z)
    (yr : jsstring) (e : env) (d : db) :
  valid_submission b name bg a yr ->
  up e 0%nat = true -> up e 1%nat = true ->
  exists d',
    run e 0 (donate b) d = (Ok (created (trim name) bg (totalUnits d + 1)), d') /\
    donors d' =
      donors d ++ [donor_of name bg a yr (now e 0%nat) (List.length (donors d))] /\
    totalUnits d' = totalUnits d + 1 /\
    count d' = count d + 1.
Proof.
  intros V U0 U1.
  destruct (donate_valid_shape _ _ _ _ _ V) as (k & -> & Hk & _).
  destruct V as (_ & Hlen & _ & Hbin & _ & Ha & _ & Hyin).
  cbn [run]. rewrite U0.
  rewrite (exec_save_valid name bg a yr (now e 0%nat) (ties e 0%nat) d Hlen Hbin Ha Hyin).
  set (doc := donor_of name bg a yr (now e 0%nat) (List.length (donors d))).
  destruct (Hk doc) as (k2 & -> & Hk2 & _).
  cbn [run]. rewrite U1.
  set (d1 := {| donors := donors d ++ [doc]; stats := stats d |}).
  destruct (exec_inc_up 1 (now e 1%nat) (ties e 1%nat) d1) as (s & d' & -> & F & T & _ & D & _).
  rewrite Hk2. cbn [run]. exists d'.
  rewrite T. unfold totalUnits at 1 2. cbn [stats d1].
  split; [reflexivity|]. split; [exact D|]. split.
  - rewrite (totalUnits_findOne _ _ F), T. reflexivity.
  - unfold count. rewrite D. cbn [donors d1]. rewrite length_app. simpl. lia.
Qed.

Lemma jane_valid : valid_submission jane (str "Jane Doe") (str "O-") 30 (str "SY").
Proof.
  unfold valid_submission, jane. cbn [fullName bloodGroup age year].
  split; [reflexivity|]. split; [vm_compute; lia|].
  split; [reflexivity|]. split; [vm_compute; tauto|].
  split; [exists (inject_Z 30); split; reflexivity|].
  split; [lia|]. split; [reflexivity|]. vm_compute. tauto.
Defined.

Lemma donate_valid_registers_witness :
  exists d',
    run always_up 0 (donate jane) empty_db =
      (Ok (created (trim (str "Jane Doe")) (str "O-") (totalUnits empty_db + 1)), d') /\
    donors d' =
      donors empty_db ++ [donor_of (str "Jane Doe") (str "O-") 30 (str "SY")
                            (now always_up 0%nat) (List.length (donors empty_db))] /\
    totalUnits d' = totalUnits empty_db + 1 /\
    count d' = count empty_db + 1.
Proof.
  apply (donate_valid_registers jane (str "Jane Doe") (str "O-") 30 (str "SY")
           always_up empty_db jane_valid); reflexivity.
Defined.






(** ** Every way POST /api/donate can end *)

(** Either nothing was written and the answer is 400 or 500; or the donor
    was saved, and then the increment either failed (500, stats untouched)
    or was applied (201). *)
Lemma donate_outcome (b : req_body) (e : env) (d : db) :
  exists r d',
    run e 0 (donate b) d = (Ok r, d') /\
    ((d' = d /\ (status r = 400 \/ status r = 500)) \/
     (exists name bg a yr,
        let doc := Donor.construct
                     {| Donor.c_fullName := trim name; Donor.c_bloodGroup := bg;
                        Donor.c_age := a; Donor.c_year := yr |}
                     (now e 0%nat) (List.length (donors d)) in
        fullName b = Str name /\ up e 0%nat = true /\
        ((up e 1%nat = false /\ status r = 500 /\
          d' = {| donors := donors d ++ [doc]; stats := stats d |}) \/
         (up e 1%nat = true /\ status r = 201 /\
          donors d' = donors d ++ [doc] /\
          totalUnits d' = totalUnits d + 1)))).
Proof.
  unfold donate.
  destruct (truthy (fullName b)) eqn:Tn; cbn [negb orb];
    [|eexists; eexists; split; [reflexivity | left; split; [reflexivity | now left]]].
  destruct (truthy (bloodGroup b)) eqn:Tb; cbn [negb orb];
    [|eexists; eexists; split; [reflexivity | left; split; [reflexivity | now left]]].
  destruct (truthy (age b)) eqn:Ta; cbn [negb orb];
    [|eexists; eexists; split; [reflexivity | left; split; [reflexivity | now left]]].
  destruct (truthy (year b)) eqn:Ty; cbn [negb orb];
    [|eexists; eexists; split; [reflexivity | left; split; [reflexivity | now left]]].
  destruct (parseInt (age b)) as [a|] eqn:Pa;
    [|eexists; eexists; split; [reflexivity | left; split; [reflexivity | now left]]].
  destruct (Z.ltb_spec a 18) as [|Ha];
    [eexists; eexists; split; [reflexivity | left; split; [reflexivity | now left]]|].
  destruct (includes validBloodGroups (bloodGroup b)) as [bg|] eqn:Ib;
    [|eexists; eexists; split; [reflexivity | left; split; [reflexivity | now left]]].
  destruct (includes validYears (year b)) as [yr|] eqn:Iy;
    [|eexists; eexists; split; [reflexivity | left; split; [reflexivity | now left]]].
  destruct (fullName b) as [| | nb | nq | name] eqn:Fn;
    try (cbn [call_trim bind try_catch run]; eexists; eexists;
         split; [reflexivity | left; split; [reflexivity | now right]]).
  cbn [call_trim bind try_catch await run incrementCount].
  unfold exec at 1.
  set (doc := Donor.construct _ (now e 0%nat) (List.length (donors d))).
  destruct (Donor.validate doc) as [|m msgs].
  2:{ cbn [run]. eexists; eexists.
      split; [reflexivity | left; split; [reflexivity | now left]]. }
  destruct (up e 0%nat) eqn:U0.
  2:{ cbn [run]. eexists; eexists.
      split; [reflexivity | left; split; [reflexivity | now right]]. }
  cbn [run bind try_catch]. destruct (up e 1%nat) eqn:U1.
  - set (d1 := {| donors := donors d ++ [doc]; stats := stats d |}).
    destruct (exec_inc_up 1 (now e 1%nat) (ties e 1%nat) d1) as (s & d' & -> & F & T & _ & D & _).
    cbn [run bind try_catch]. eexists; eexists. split; [reflexivity|].
    right. exists name, bg, a, yr. cbn zeta. fold doc.
    split; [reflexivity|]. split; [reflexivity|]. right.
    split; [reflexivity|]. split; [reflexivity|]. split; [exact D|].
    rewrite (totalUnits_findOne _ _ F), T. reflexivity.
  - unfold exec. cbn [negb run bind try_catch]. eexists; eexists.
    split; [reflexivity|].
    right. exists name, bg, a, yr. cbn zeta. fold doc.
    split; [reflexivity|]. split; [reflexivity|]. left.
    split; [reflexivity|]. split; reflexivity.
Qed.



(* ================================================================== *)
(** ** The Stats Aggregate *)

(** A [try] block that ends by answering, with a [catch] that answers:
    the route passes on what the block's computation did. *)
Lemma run_try_answer {A} (p : prog A) (g : A -> response) (h : error -> response)
    (e : env) (i : nat) (d : db) :
  run e i (try_catch (a <- p ;; Ret (g a)) (fun err => Ret (h err))) d =
  match run e i p d with
  | (Ok a, d') => (Ok (g a), d')
  | (Err err, d') => (Ok (h err), d')
  end.
Proof.
  revert i d. induction p as [a | err | B o k IH]; intros i d; cbn [bind try_catch run].
  - reflexivity.
  - reflexivity.
  - destruct (exec o (now e i) (up e i) (ties e i) d) as [r d']. apply IH.
Qed.

(** [getStats] with the store reachable: it returns the singleton, leaving
    the database alone when the singleton exists and creating it with a
    total of 0 when it does not. *)
Lemma run_getStats_up (e : env) (d : db) :
  up e 0%nat = true -> up e 1%nat = true ->
  exists s d',
    run e 0 getStats d = (Ok s, d') /\
    Stats.findOne (stats d') = Some s /\
    Stats.totalBloodUnits s = totalUnits d /\
    donors d' = donors d /\
    ((Stats.findOne (stats d) = Some s /\ d' = d) \/
     (Stats.findOne (stats d) = None /\
      s = {| Stats.identifier := Stats.global; Stats.totalBloodUnits := 0;
             Stats.lastUpdated := now e 1%nat |} /\
      stats d' = stats d ++ [s])).
Proof.
  intros U0 U1. unfold getStats, totalUnits. cbn [await bind run].
  rewrite U0. unfold exec at 1.
  destruct (Stats.findOne (stats d)) as [s|] eqn:F; cbn [run bind].
  - exists s, d. repeat split; try assumption; try reflexivity. left. now split.
  - cbn [await run]. rewrite U1. unfold exec. cbn [negb]. rewrite F. cbn [run].
    eexists; eexists. split; [reflexivity|]. cbn [stats donors Stats.totalBloodUnits].
    split; [now apply findOne_append|]. split; [reflexivity|]. split; [reflexivity|].
    right. repeat split; reflexivity.
Qed.

(** C7, as the code has it. For every state of the Stats Aggregate, GET
    /api/stats passes on what [getStats] did: when [getStats] returns the
    aggregate the answer is 200 with body
    [{success: true, data: {totalBloodUnits, lastUpdated}}] holding the
    aggregate's two values, and when it throws the answer is 500; with the
    store reachable it returns the aggregate, whose counter is the current
    total.  The counter field of the response data is named
    [totalBloodUnits]. *)
Theorem get_stats_passthrough (e : env) (d : db) :
  run e 0 get_stats d =
    match run e 0 getStats d with
    | (Ok s, d') => (Ok (stats_answer s), d')
    | (Err _, d') => (Ok (failure 500 (str "Error fetching statistics")), d')
    end /\
  (up e 0%nat = true -> up e 1%nat = true ->
   exists s d',
     run e 0 get_stats d = (Ok (stats_answer s), d') /\
     Stats.findOne (stats d') = Some s /\
     Stats.totalBloodUnits s = totalUnits d /\
     field "data" (body (stats_answer s)) =
       Some (JObj [ ("totalBloodUnits", JNum (totalUnits d));
                    ("lastUpdated", JDate (Stats.lastUpdated s)) ]%string)).
Proof.
  assert (P : run e 0 get_stats d =
    match run e 0 getStats d with
    | (Ok s, d') => (Ok (stats_answer s), d')
    | (Err _, d') => (Ok (failure 500 (str "Error fetching statistics")), d')
    end).
  { unfold get_stats.
    apply (run_try_answer getStats stats_answer
             (fun _ => failure 500 (str "Error fetching statistics"))). }
  split; [exact P|].
  intros U0 U1. rewrite P.
  destruct (run_getStats_up e d U0 U1) as (s & d' & -> & F & T & _).
  exists s, d'. split; [reflexivity|]. split; [exact F|]. split; [exact T|].
  cbn. now rewrite T.
Qed.

Lemma get_stats_passthrough_witness :
  exists s d',
    run always_up 0 get_stats empty_db = (Ok (stats_answer s), d') /\
    Stats.findOne (stats d') = Some s /\
    Stats.totalBloodUnits s = totalUnits empty_db /\
    field "data" (body (stats_answer s)) =
      Some (JObj [ ("totalBloodUnits", JNum (totalUnits empty_db));
                   ("lastUpdated", JDate (Stats.lastUpdated s)) ]%string).
Proof.
  apply (proj2 (get_stats_passthrough always_up empty_db)); reflexivity.
Defined.

(** C7 fails as stated. On a fresh database GET /api/stats answers 200, and
    the data of the answer has the fields [totalBloodUnits] and
    [lastUpdated]: there is no field named [totalUnits]. *)
Lemma get_stats_no_totalUnits_field :
  exists r d' data,
    run always_up 0 get_stats empty_db = (Ok r, d') /\
    status r = 200 /\
    field "data" (body r) = Some data /\
    keys data = ["totalBloodUnits"; "lastUpdated"]%string /\
    field "totalUnits" data = None.
Proof.
  eexists. eexists. eexists. vm_compute. repeat split; reflexivity.
Qed.

(** C9. When the increment runs and no Stats Aggregate record exists, it
    does not fail: the upsert creates the singleton, whose total is the
    increment amount.  So the singleton can be created first by an
    increment: a valid registration on a database without the singleton
    leaves exactly one, with total 1. *)
Theorem incrementCount_upserts (amount : Z) (e : env) (d : db) :
  Stats.findOne (stats d) = None ->
  up e 0%nat = true ->
  let s := {| Stats.identifier := Stats.global;
              Stats.totalBloodUnits := amount;
              Stats.lastUpdated := now e 0%nat |} in
  let d' := {| donors := donors d; stats := stats d ++ [s] |} in
  run e 0 (incrementCount amount) d = (Ok s, d') /\
  Stats.findOne (stats d') = Some s /\
  totalUnits d' = amount /\
  singletons d = 0%nat /\ singletons d' = 1%nat /\
  (forall b name bg a yr,
      valid_submission b name bg a yr -> up e 1%nat = true ->
      exists r d2,
        run e 0 (donate b) d = (Ok r, d2) /\ status r = 201 /\
        singletons d2 = 1%nat /\ totalUnits d2 = 1).
Proof.
  intros F U0 s d'.
  assert (F' : Stats.findOne (stats d') = Some s)
    by (now apply findOne_append).
  assert (S0 : singletons d = 0%nat)
    by (unfold singletons; now rewrite (findOne_None_filter _ F)).
  split; [|split; [|split; [|split; [|split]]]].
  - unfold incrementCount. cbn [await run]. rewrite U0. unfold exec.
    cbn [negb]. rewrite F. reflexivity.
  - exact F'.
  - unfold totalUnits. now rewrite F'.
  - exact S0.
  - unfold singletons, d'. cbn [stats].
    rewrite filter_app, (findOne_None_filter _ F). reflexivity.
  - intros b name bg a yr V U1.
    destruct (donate_valid_shape _ _ _ _ _ V) as (k & -> & Hk & _).
    destruct V as (_ & Hlen & _ & Hbin & _ & Ha & _ & Hyin).
    cbn [run]. rewrite U0.
    rewrite (exec_save_valid name bg a yr (now e 0%nat) (ties e 0%nat) d Hlen Hbin Ha Hyin).
    set (doc := donor_of name bg a yr (now e 0%nat) (List.length (donors d))).
    destruct (Hk doc) as (k2 & -> & Hk2 & _).
    cbn [run]. rewrite U1.
    set (d1 := {| donors := donors d ++ [doc]; stats := stats d |}).
    destruct (exec_inc_up 1 (now e 1%nat) (ties e 1%nat) d1) as (s2 & d2 & -> & F2 & T & _ & _ & S).
    rewrite Hk2. cbn [run]. eexists; eexists. split; [reflexivity|].
    split; [reflexivity|]. split.
    + rewrite S. unfold singletons in S0 |- *. cbn [stats d1]. now rewrite S0.
    + rewrite (totalUnits_findOne _ _ F2), T. unfold totalUnits.
      cbn [stats d1]. now rewrite F.
Qed.

Lemma incrementCount_upserts_witness :
  let s := {| Stats.identifier := Stats.global;
              Stats.totalBloodUnits := 1;
              Stats.lastUpdated := now always_up 0%nat |} in
  let d' := {| donors := donors empty_db; stats := stats empty_db ++ [s] |} in
  run always_up 0 (incrementCount 1) empty_db = (Ok s, d') /\
  Stats.findOne (stats d') = Some s /\
  totalUnits d' = 1 /\
  singletons empty_db = 0%nat /\ singletons d' = 1%nat /\
  (forall b name bg a yr,
      valid_submission b name bg a yr -> up always_up 1%nat = true ->
      exists r d2,
        run always_up 0 (donate b) empty_db = (Ok r, d2) /\ status r = 201 /\
        singletons d2 = 1%nat /\ totalUnits d2 = 1).
Proof.
  apply (incrementCount_upserts 1 always_up empty_db); reflexivity.
Defined.

(** ** Reconciliation *)

(** The overwrite of POST /api/sync-stats, with the store reachable. *)
Lemma exec_set_up (total t : Z) (tb : Donor.tiebreak) (d : db) :
  exists old s d',
    exec (StatsSet total) t true tb d = (Ok old, d') /\
    Stats.findOne (stats d') = Some s /\
    Stats.totalBloodUnits s = total /\
    Stats.lastUpdated s = t /\
    donors d' = donors d /\
    singletons d' = Nat.max 1 (singletons d).
Proof.
  unfold exec, singletons. cbn [negb].
  destruct (Stats.findOne (stats d)) as [s|] eqn:F.
  - eexists; eexists; eexists. split; [reflexivity|]. cbn [stats donors].
    pose proof (findOne_is_global _ _ F) as G.
    split; [eapply findOne_updateOne; [exact F | exact G]|].
    split; [reflexivity|]. split; [reflexivity|]. split; [reflexivity|].
    rewrite filter_updateOne by exact G.
    apply find_some in F. destruct F as [Hin _].
    assert (Hin' : In s (filter Stats.is_global (stats d)))
      by (apply filter_In; split; assumption).
    destruct (filter Stats.is_global (stats d)); [destruct Hin' | simpl; lia].
  - eexists; eexists; eexists. split; [reflexivity|]. cbn [stats donors].
    split; [now apply findOne_append|].
    split; [reflexivity|]. split; [reflexivity|]. split; [reflexivity|].
    rewrite filter_app, (findOne_None_filter _ F). reflexivity.
Qed.

(** C4. For every state of the Donor Store (so also when a donor was
    created and the aggregate was not incremented), with the store
    reachable, POST /api/sync-stats sets the aggregate's total to the exact
    number of donor records and its [lastUpdated] to the time of the update,
    leaves the donors alone, and answers 200 with the new total as data. *)
Theorem sync_stats_reconciles (e : env) (d : db) :
  up e 0%nat = true -> up e 1%nat = true ->
  exists r s d',
    run e 0 sync_stats d = (Ok r, d') /\
    status r = 200 /\
    field "success" (body r) = Some (JBool true) /\
    field "data" (body r) = Some (JObj [ ("totalBloodUnits", JNum (count d)) ]%string) /\
    Stats.findOne (stats d') = Some s /\
    Stats.totalBloodUnits s = count d /\
    Stats.lastUpdated s = now e 1%nat /\
    donors d' = donors d /\
    totalUnits d' = count d'.
Proof.
  intros U0 U1. unfold sync_stats. cbn [await bind try_catch run].
  rewrite U0. unfold exec at 1. cbn [run bind try_catch]. rewrite U1.
  destruct (exec_set_up (Z.of_nat (List.length (donors d))) (now e 1%nat) (ties e 1%nat) d)
    as (old & s & d' & -> & F & T & L & D & _).
  cbn [run bind try_catch]. eexists; exists s; eexists.
  split; [reflexivity|]. cbn [status body].
  split; [reflexivity|]. split; [reflexivity|]. split; [reflexivity|].
  split; [exact F|]. split; [exact T|]. split; [exact L|]. split; [exact D|].
  rewrite (totalUnits_findOne _ _ F), T. unfold count. now rewrite D.
Qed.

Lemma sync_stats_reconciles_witness :
  exists r s d',
    run always_up 0 sync_stats drifted_db = (Ok r, d') /\
    status r = 200 /\
    field "success" (body r) = Some (JBool true) /\
    field "data" (body r) =
      Some (JObj [ ("totalBloodUnits", JNum (count drifted_db)) ]%string) /\
    Stats.findOne (stats d') = Some s /\
    Stats.totalBloodUnits s = count drifted_db /\
    Stats.lastUpdated s = now always_up 1%nat /\
    donors d' = donors drifted_db /\
    totalUnits d' = count d'.
Proof.
  apply (sync_stats_reconciles always_up drifted_db); reflexivity.
Defined.

Lemma insert_desc_perm (tie : Donor.tiebreak) (x : Donor.t) (s : list Donor.t) :
  Permutation (Donor.insert_desc tie x s) (x :: s).
Proof.
  induction s as [|y s IH]; simpl; [apply Permutation_refl|].
  destruct ((Donor.donatedAt x <? Donor.donatedAt y)
            || (Donor.donatedAt x =? Donor.donatedAt y) && tie x y).
  - eapply perm_trans; [apply perm_skip, IH | apply perm_swap].
  - apply Permutation_refl.
Qed.

Lemma sort_desc_perm (tie : Donor.tiebreak) (l : list Donor.t) :
  Permutation (Donor.sort_desc tie l) l.
Proof.
  induction l as [|x l IH]; simpl; [constructor|].
  eapply perm_trans; [apply insert_desc_perm | now apply perm_skip].
Qed.

(** Whatever the store does with equal keys, no document comes back ahead
    of a more recent one. *)
Lemma insert_desc_sorted (tie : Donor.tiebreak) (x : Donor.t) (s : list Donor.t) :
  StronglySorted not_older s ->
  StronglySorted not_older (Donor.insert_desc tie x s).
Proof.
  induction 1 as [|y s Hs IH Hy]; simpl.
  - repeat constructor.
  - destruct ((Donor.donatedAt x <? Donor.donatedAt y)
              || (Donor.donatedAt x =? Donor.donatedAt y) && tie x y) eqn:C.
    + assert (Hle : Donor.donatedAt x <= Donor.donatedAt y).
      { apply orb_true_iff in C. destruct C as [C | C].
        - apply Z.ltb_lt in C. lia.
        - apply andb_true_iff in C. destruct C as [C _]. apply Z.eqb_eq in C. lia. }
      constructor; [exact IH|].
      apply (Permutation_Forall (Permutation_sym (insert_desc_perm tie x s))).
      constructor; [exact Hle | exact Hy].
    + assert (Hge : Donor.donatedAt y <= Donor.donatedAt x).
      { apply orb_false_iff in C. destruct C as [C _]. apply Z.ltb_ge in C. exact C. }
      constructor; [now constructor|].
      constructor; [exact Hge|].
      eapply Forall_impl; [|exact Hy]. unfold not_older. intros z Hz. lia.
Qed.

Lemma sort_desc_sorted (tie : Donor.tiebreak) (l : list Donor.t) :
  StronglySorted not_older (Donor.sort_desc tie l).
Proof.
  induction l as [|x l IH]; simpl; [constructor | now apply insert_desc_sorted].
Qed.

Lemma firstn_sorted (n : nat) (l : list Donor.t) :
  StronglySorted not_older l -> StronglySorted not_older (firstn n l).
Proof.
  revert n. induction l as [|x l IH]; intros n H.
  - rewrite firstn_nil. constructor.
  - destruct n as [|n]; [constructor|]. simpl.
    apply StronglySorted_inv in H. destruct H as [Hs Hx].
    constructor; [now apply IH|].
    rewrite Forall_forall in *. intros y Hy. apply Hx.
    rewrite <- (firstn_skipn n l). apply in_or_app. now left.
Qed.

(** In a sorted list, what [firstn] cuts off is not more recent than what
    it keeps. *)
Lemma skipn_sorted (n : nat) (l : list Donor.t) :
  StronglySorted not_older l ->
  Forall (fun y => Forall (fun x => not_older x y) (firstn n l)) (skipn n l).
Proof.
  revert n. induction l as [|x l IH]; intros n H.
  - rewrite skipn_nil. constructor.
  - destruct n as [|n]; simpl.
    + apply Forall_forall. intros y _. constructor.
    + apply StronglySorted_inv in H. destruct H as [Hs Hx].
      specialize (IH n Hs). rewrite Forall_forall in *.
      intros y Hy. constructor; [|now apply IH].
      apply Hx. rewrite <- (firstn_skipn n l). apply in_or_app. now right.
Qed.

Lemma recent_sorted (tie : Donor.tiebreak) (n : Z) (d : db) :
  StronglySorted not_older (recent tie n d).
Proof.
  unfold recent, Donor.limit. destruct (n =? 0).
  - apply sort_desc_sorted.
  - apply firstn_sorted, sort_desc_sorted.
Qed.

(** The listing is a choice among the stored donors, and the donors it
    leaves out are not more recent than the ones it shows. *)
Lemma recent_most_recent (tie : Donor.tiebreak) (n : Z) (d : db) :
  exists rest,
    Permutation (recent tie n d ++ rest) (donors d) /\
    Forall (fun y => Forall (fun x => not_older x y) (recent tie n d)) rest.
Proof.
  unfold recent, Donor.limit. destruct (n =? 0).
  - exists []. rewrite app_nil_r. split; [apply sort_desc_perm | constructor].
  - exists (skipn (Z.to_nat (Z.abs n)) (Donor.sort_desc tie (donors d))). split.
    + rewrite firstn_skipn. apply sort_desc_perm.
    + apply skipn_sorted, sort_desc_sorted.
Qed.

Lemma recent_length (tie : Donor.tiebreak) (n : Z) (d : db) :
  0 < n -> Z.of_nat (List.length (recent tie n d)) = Z.min n (count d).
Proof.
  intros H. unfold recent, Donor.limit, count.
  destruct (Z.eqb_spec n 0); [lia|].
  rewrite length_firstn, (Permutation_length (sort_desc_perm tie (donors d))).
  rewrite Z.abs_eq by lia. lia.
Qed.

(** ** Any order of equal keys *)

Lemma rank_nth (ids : list nat) (i : nat) :
  In i ids -> nth_error ids (rank ids i) = Some i.
Proof.
  induction ids as [|j r IH]; intros H; [destruct H|]. simpl.
  destruct (Nat.eqb_spec j i) as [->|N]; [reflexivity|].
  destruct H as [H|H]; [contradiction | now apply IH].
Qed.

Lemma rank_older (rows : list Donor.t) (x y : Donor.t) :
  NoDup (map Donor._id rows) -> StronglySorted not_older rows ->
  In x rows -> In y rows ->
  (rank (map Donor._id rows) (Donor._id x) <=
   rank (map Donor._id rows) (Donor._id y))%nat ->
  not_older x y.
Proof.
  induction rows as [|h t IH]; intros N S Hx Hy; [destruct Hx|].
  simpl in N. apply NoDup_cons_iff in N. destruct N as [Nh Nt].
  apply StronglySorted_inv in S. destruct S as [St Sh].
  assert (Hd : forall z, In z t -> Donor._id h <> Donor._id z).
  { intros z Hz E. apply Nh. rewrite E. now apply in_map. }
  simpl. destruct Hx as [<-|Hx].
  - intros _. destruct Hy as [<-|Hy]; [unfold not_older; lia|].
    rewrite Forall_forall in Sh. now apply Sh.
  - destruct (Nat.eqb_spec (Donor._id h) (Donor._id x)) as [E|_];
      [now apply Hd in Hx|].
    destruct Hy as [<-|Hy].
    + rewrite Nat.eqb_refl. lia.
    + destruct (Nat.eqb_spec (Donor._id h) (Donor._id y)) as [E|_];
        [now apply Hd in Hy|].
      intros L. apply IH; try assumption. lia.
Qed.

Lemma StronglySorted_weaken {A} (R R' : A -> A -> Prop) (l : list A) :
  (forall u v, In u l -> In v l -> R u v -> R' u v) ->
  StronglySorted R l -> StronglySorted R' l.
Proof.
  induction l as [|a l IH]; intros H S; [constructor|].
  apply StronglySorted_inv in S. destruct S as [Sl Sa]. constructor.
  - apply IH; [|exact Sl]. intros u v Hu Hv. apply H; now right.
  - rewrite Forall_forall in *. intros z Hz. apply H; [now left | now right | now apply Sa].
Qed.

Lemma rank_sorted (rows : list Donor.t) :
  NoDup (map Donor._id rows) ->
  StronglySorted
    (fun u v => (rank (map Donor._id rows) (Donor._id u) <
                 rank (map Donor._id rows) (Donor._id v))%nat) rows.
Proof.
  induction rows as [|h t IH]; intros N; [constructor|].
  simpl in N. apply NoDup_cons_iff in N. destruct N as [Nh Nt].
  assert (Hd : forall z, In z t -> Nat.eqb (Donor._id h) (Donor._id z) = false).
  { intros z Hz. apply Nat.eqb_neq. intros E. apply Nh. rewrite E. now apply in_map. }
  constructor.
  - apply (StronglySorted_weaken _ _ t) with (2 := IH Nt).
    intros u v Hu Hv L. simpl. rewrite (Hd u Hu), (Hd v Hv). lia.
  - apply Forall_forall. intros z Hz. simpl. rewrite Nat.eqb_refl, (Hd z Hz). lia.
Qed.

Lemma sorted_perm_eq {A} (f : A -> nat) (l1 l2 : list A) :
  StronglySorted (fun u v => (f u < f v)%nat) l1 ->
  StronglySorted (fun u v => (f u < f v)%nat) l2 ->
  Permutation l1 l2 -> l1 = l2.
Proof.
  revert l2. induction l1 as [|a l1 IH]; intros l2 S1 S2 P.
  - apply Permutation_nil in P. now subst.
  - destruct l2 as [|b l2]; [apply Permutation_sym, Permutation_nil in P; discriminate|].
    apply StronglySorted_inv in S1. destruct S1 as [S1 F1].
    apply StronglySorted_inv in S2. destruct S2 as [S2 F2].
    rewrite Forall_forall in F1, F2.
    assert (E : a = b).
    { assert (Ha : In a (b :: l2)) by (apply (Permutation_in a P); now left).
      assert (Hb : In b (a :: l1))
        by (apply (Permutation_in b (Permutation_sym P)); now left).
      destruct Ha as [Ha|Ha]; [now symmetry|].
      destruct Hb as [Hb|Hb]; [exact Hb|].
      specialize (F1 b Hb). specialize (F2 a Ha). lia. }
    subst b. f_equal. apply IH; try assumption.
    now apply Permutation_cons_inv in P.
Qed.

Lemma insert_desc_listed (rows : list Donor.t) (x : Donor.t) (s : list Donor.t) :
  let rk := fun u => rank (map Donor._id rows) (Donor._id u) in
  NoDup (map Donor._id rows) -> StronglySorted not_older rows ->
  In x rows -> Forall (fun y => In y rows /\ rk y <> rk x) s ->
  StronglySorted (fun u v => (rk u < rk v)%nat) s ->
  StronglySorted (fun u v => (rk u < rk v)%nat)
    (Donor.insert_desc (listed_order rows) x s).
Proof.
  intros rk N R Hx. induction s as [|y s IH]; intros Hs S; simpl.
  - repeat constructor.
  - apply Forall_cons_iff in Hs. destruct Hs as [[Hy Hne] Hs].
    apply StronglySorted_inv in S. destruct S as [Ss Sy].
    assert (C : (Donor.donatedAt x <? Donor.donatedAt y)
                || (Donor.donatedAt x =? Donor.donatedAt y) && listed_order rows x y
                = Nat.ltb (rk y) (rk x)).
    { unfold listed_order. fold (rk x). fold (rk y).
      destruct (Nat.ltb_spec (rk y) (rk x)) as [L|L].
      - assert (O : not_older y x) by (apply (rank_older rows); try assumption; unfold rk in L; lia).
        unfold not_older in O. rewrite andb_true_r.
        destruct (Z.ltb_spec (Donor.donatedAt x) (Donor.donatedAt y)); [reflexivity|].
        destruct (Z.eqb_spec (Donor.donatedAt x) (Donor.donatedAt y)); [reflexivity | lia].
      - assert (O : not_older x y) by (apply (rank_older rows); assumption).
        unfold not_older in O. rewrite andb_false_r, orb_false_r.
        apply Z.ltb_ge. exact O. }
    rewrite C. destruct (Nat.ltb_spec (rk y) (rk x)) as [L|L].
    + constructor; [now apply IH|].
      apply (Permutation_Forall
               (Permutation_sym (insert_desc_perm (listed_order rows) x s))).
      constructor; [exact L | exact Sy].
    + constructor; [now constructor|].
      constructor; [lia|].
      eapply Forall_impl; [|exact Sy]. intros z Hz. simpl in Hz. lia.
Qed.

(** The order of equal keys is left open: every listing of the stored
    documents in which none comes ahead of a more recent one is the answer
    of the sort for some store. *)
Lemma sort_desc_any_order (l rows : list Donor.t) :
  NoDup (map Donor._id l) -> Permutation rows l ->
  StronglySorted not_older rows ->
  Donor.sort_desc (listed_order rows) l = rows.
Proof.
  intros N P R.
  assert (Nr : NoDup (map Donor._id rows)).
  { apply (Permutation_NoDup (Permutation_map Donor._id (Permutation_sym P)) N). }
  set (rk := fun u => rank (map Donor._id rows) (Donor._id u)).
  assert (S : forall l', NoDup (map Donor._id l') -> incl l' rows ->
              StronglySorted (fun u v => (rk u < rk v)%nat)
                (Donor.sort_desc (listed_order rows) l')).
  { induction l' as [|x l' IH]; intros N' I; simpl; [constructor|].
    simpl in N'. apply NoDup_cons_iff in N'. destruct N' as [Nx N'].
    assert (Hx : In x rows) by (apply I; now left).
    apply insert_desc_listed; try assumption.
    - apply Forall_forall. intros y Hy.
      apply (Permutation_in y (sort_desc_perm (listed_order rows) l')) in Hy.
      assert (Hyr : In y rows) by (apply I; now right).
      split; [exact Hyr|]. intros E. apply Nx.
      assert (Ei : Some (Donor._id y) = Some (Donor._id x)).
      { rewrite <- (rank_nth (map Donor._id rows) (Donor._id y)) by now apply in_map.
        rewrite <- (rank_nth (map Donor._id rows) (Donor._id x)) by now apply in_map.
        now f_equal. }
      injection Ei as <-. now apply in_map.
    - apply IH; [exact N'|]. intros z Hz. apply I. now right. }
  apply (sorted_perm_eq rk).
  - apply S; [exact N|]. intros z Hz. apply (Permutation_in z (Permutation_sym P) Hz).
  - apply rank_sorted, Nr.
  - eapply perm_trans; [apply sort_desc_perm | apply Permutation_sym, P].
Qed.

(** C8, as the code has it. For every stored set of donors and every
    [limit] parameter, with the store reachable, GET /api/donors answers 200
    and changes nothing.  The limit N it applies is the integer [parseInt]
    reads from the parameter, and 10 when the parameter is omitted, has no
    integer prefix or reads as 0; for N >= 1 the answer has exactly
    min(N, count) rows.  The rows are stored donors, in order of
    [donatedAt] descending, and every donor left out is not more recent
    than any row.  This holds however the store orders donors with equal
    [donatedAt]: the query sorts on [donatedAt] alone.  Each row has the
    fields [_id], [fullName], [bloodGroup] and [donatedAt], and neither
    [age] nor [year]. *)
Theorem get_donors_recent (query_limit : jsval) (e : env) (d : db) :
  up e 0%nat = true ->
  let N := or_default (parseInt query_limit) 10 in
  let rows := recent (ties e 0%nat) N d in
  run e 0 (get_donors query_limit) d = (Ok (donors_answer rows), d) /\
  (query_limit = Undefined -> N = 10) /\
  (parseInt query_limit = None -> N = 10) /\
  (parseInt query_limit = Some 0 -> N = 10) /\
  (forall n, parseInt query_limit = Some n -> n <> 0 -> N = n) /\
  (0 < N -> rows = firstn (Z.to_nat N) (Donor.sort_desc (ties e 0%nat) (donors d)) /\
            Z.of_nat (List.length rows) = Z.min N (count d)) /\
  (exists rest,
     Permutation (rows ++ rest) (donors d) /\
     Forall (fun y => Forall (fun x => not_older x y) rows) rest) /\
  StronglySorted not_older rows /\
  Forall (fun row =>
            keys row = ["_id"; "fullName"; "bloodGroup"; "donatedAt"]%string /\
            field "age" row = None /\ field "year" row = None)
         (map Donor.select rows).
Proof.
  intros U N rows.
  split; [|split; [|split; [|split; [|split; [|split; [|split; [|split]]]]]]].
  - unfold get_donors. cbn [await bind try_catch run]. rewrite U.
    unfold exec. cbn [run]. reflexivity.
  - intros ->. reflexivity.
  - intros Hn. unfold N. now rewrite Hn.
  - intros Hn. unfold N. now rewrite Hn.
  - intros n Hn Hz. unfold N. rewrite Hn. simpl.
    destruct (Z.eqb_spec n 0); [contradiction | reflexivity].
  - intros HN. split; [|now apply recent_length].
    unfold rows, recent, Donor.limit.
    destruct (Z.eqb_spec N 0); [lia|]. now rewrite Z.abs_eq by lia.
  - apply recent_most_recent.
  - apply recent_sorted.
  - apply Forall_forall. intros row Hrow. apply in_map_iff in Hrow.
    destruct Hrow as (x & <- & _). repeat split.
Qed.

Lemma get_donors_recent_witness :
  let N := or_default (parseInt (Str (str "0"))) 10 in
  let rows := recent (ties at_200 0%nat) N twelve_donors in
  run at_200 0 (get_donors (Str (str "0"))) twelve_donors =
    (Ok (donors_answer rows), twelve_donors) /\
  (Str (str "0") = Undefined -> N = 10) /\
  (parseInt (Str (str "0")) = None -> N = 10) /\
  (parseInt (Str (str "0")) = Some 0 -> N = 10) /\
  (forall n, parseInt (Str (str "0")) = Some n -> n <> 0 -> N = n) /\
  (0 < N -> rows = firstn (Z.to_nat N)
                     (Donor.sort_desc (ties at_200 0%nat) (donors twelve_donors)) /\
            Z.of_nat (List.length rows) = Z.min N (count twelve_donors)) /\
  (exists rest,
     Permutation (rows ++ rest) (donors twelve_donors) /\
     Forall (fun y => Forall (fun x => not_older x y) rows) rest) /\
  StronglySorted not_older rows /\
  Forall (fun row =>
            keys row = ["_id"; "fullName"; "bloodGroup"; "donatedAt"]%string /\
            field "age" row = None /\ field "year" row = None)
         (map Donor.select rows).
Proof.
  apply (get_donors_recent (Str (str "0")) at_200 twelve_donors). reflexivity.
Defined.

(** C8 fails as stated. With [limit=0] and twelve donors stored the route
    returns neither "up to 0" donors nor all twelve: 0 is replaced by the
    default and ten rows come back; and a returned row has four fields,
    [_id] among them. *)
Lemma get_donors_limit_zero :
  exists r rows,
    run always_up 0 (get_donors (Str (str "0"))) twelve_donors = (Ok r, twelve_donors) /\
    status r = 200 /\
    field "data" (body r) = Some (JArr rows) /\
    List.length rows = 10%nat /\
    map keys rows =
      repeat ["_id"; "fullName"; "bloodGroup"; "donatedAt"]%string 10.
Proof.
  eexists. eexists. vm_compute. repeat split; reflexivity.
Qed.

(* ================================================================== *)
(** ** Interleaved executions *)

Lemma steps_app (s1 s2 : list event) (ps : pool) (d : db) :
  steps (s1 ++ s2) ps d =
  let '(ps', d') := steps s1 ps d in steps s2 ps' d'.
Proof.
  revert ps d. induction s1 as [|ev s1 IH]; intros ps d; simpl.
  - reflexivity.
  - destruct (step ev ps d) as [ps' d']. apply IH.
Qed.

(** A property of the database that no storage operation breaks is kept
    along every schedule, whatever the requests in the pool are. *)
Lemma steps_preserve (P : db -> Prop) :
  (forall B (o : storeop B) t u tb d, P d -> P (snd (exec o t u tb d))) ->
  forall sched ps d, P d -> P (snd (steps sched ps d)).
Proof.
  intros HP. induction sched as [|ev sched IH]; intros ps d Hd; simpl; [exact Hd|].
  destruct (step ev ps d) as [ps' d'] eqn:S. apply IH.
  unfold step in S. destruct (nth_error ps (who ev)) as [[a | err | B o k]|].
  - now inversion S; subst.
  - now inversion S; subst.
  - specialize (HP B o (at_time ev) (store_up ev) (tie_break ev) d Hd).
    destruct (exec o (at_time ev) (store_up ev) (tie_break ev) d) as [r d1].
    now inversion S; subst.
  - now inversion S; subst.
Qed.

(** The same for a handler run on its own. *)
Lemma run_preserve (P : db -> Prop) :
  (forall B (o : storeop B) t u tb d, P d -> P (snd (exec o t u tb d))) ->
  forall A (p : prog A) e i d, P d -> P (snd (run e i p d)).
Proof.
  intros HP A p e. induction p as [a | err | B o k IH]; intros i d Hd; simpl.
  - exact Hd.
  - exact Hd.
  - specialize (HP B o (now e i) (up e i) (ties e i) d Hd).
    destruct (exec o (now e i) (up e i) (ties e i) d) as [r d1]. now apply IH.
Qed.

Lemma nth_error_dec_nth (j i : nat) (ns : list nat) :
  nth_error (dec_nth j ns) i =
  if Nat.eqb i j then option_map pred (nth_error ns i) else nth_error ns i.
Proof.
  revert j i. induction ns as [|n ns IH]; intros j i.
  - destruct i, j; simpl; try reflexivity; now destruct (Nat.eqb i j).
  - destruct j, i; simpl; try reflexivity. apply IH.
Qed.

Lemma nth_error_after_turns (sched : list event) (ns : list nat) (i : nat) :
  nth_error (after_turns sched ns) i =
  option_map (fun n => n - turns i sched)%nat (nth_error ns i).
Proof.
  revert ns. induction sched as [|ev sched IH]; intros ns.
  - unfold turns. simpl. destruct (nth_error ns i); simpl; [f_equal; lia | reflexivity].
  - unfold after_turns in *. simpl. rewrite IH, nth_error_dec_nth.
    unfold turns. simpl. rewrite (Nat.eqb_sym (who ev) i).
    destruct (Nat.eqb i (who ev)); [|reflexivity].
    destruct (nth_error ns i); simpl; [f_equal; lia | reflexivity].
Qed.

Lemma length_dec_nth (j : nat) (ns : list nat) :
  List.length (dec_nth j ns) = List.length ns.
Proof.
  revert j. induction ns as [|n ns IH]; intros [|j]; simpl; try reflexivity.
  now rewrite IH.
Qed.

Lemma length_after_turns (sched : list event) (ns : list nat) :
  List.length (after_turns sched ns) = List.length ns.
Proof.
  revert ns. induction sched as [|ev sched IH]; intros ns; [reflexivity|].
  unfold after_turns in *. simpl. now rewrite IH, length_dec_nth.
Qed.

(** When every request had its turns, nothing is left to do. *)
Lemma after_turns_done (sched : list event) (ns : list nat) (m : nat) :
  Forall (fun n => n <= m)%nat ns ->
  (forall i, (i < List.length ns)%nat -> (m <= turns i sched)%nat) ->
  after_turns sched ns = repeat 0%nat (List.length ns).
Proof.
  intros Hns Ht. apply nth_error_ext. intros i.
  rewrite nth_error_after_turns.
  destruct (nth_error ns i) as [n|] eqn:E; simpl.
  - assert (Hi : (i < List.length ns)%nat) by (apply nth_error_Some; congruence).
    rewrite nth_error_repeat by exact Hi. f_equal.
    rewrite Forall_forall in Hns. specialize (Hns n (nth_error_In _ _ E)).
    specialize (Ht i Hi). lia.
  - apply nth_error_None in E. symmetry. apply nth_error_None.
    now rewrite repeat_length.
Qed.

Lemma Forall2_nth_error_l {A B} (R : A -> B -> Prop) (l1 : list A) (l2 : list B)
    (i : nat) (a : A) :
  Forall2 R l1 l2 -> nth_error l1 i = Some a ->
  exists b, nth_error l2 i = Some b /\ R a b.
Proof.
  intros F. revert i. induction F as [|x y l1 l2 Hxy F IH]; intros i E.
  - destruct i; discriminate.
  - destruct i as [|i]; simpl in *.
    + injection E as <-. now exists y.
    + now apply IH.
Qed.

Lemma Forall2_set_nth {A B} (R : A -> B -> Prop) (l1 : list A) (l2 : list B)
    (i : nat) (a : A) (b : B) :
  Forall2 R l1 l2 -> R a b -> Forall2 R (set_nth i a l1) (set_nth i b l2).
Proof.
  intros F Hab. revert i. induction F as [|x y l1 l2 Hxy F IH]; intros i.
  - destruct i; constructor.
  - destruct i as [|i]; simpl; constructor; auto.
Qed.

Lemma set_nth_same {A} (l : list A) (i : nat) (a : A) :
  nth_error l i = Some a -> set_nth i a l = l.
Proof.
  revert i. induction l as [|x l IH]; intros [|i] E; simpl in *; try discriminate.
  - now injection E as ->.
  - f_equal. now apply IH.
Qed.

Lemma dec_nth_set_nth (ns : list nat) (i n : nat) :
  nth_error ns i = Some n -> dec_nth i ns = set_nth i (pred n) ns.
Proof.
  revert i. induction ns as [|x ns IH]; intros [|i] E; simpl in *; try discriminate.
  - now injection E as ->.
  - f_equal. now apply IH.
Qed.

Lemma dec_nth_overflow (ns : list nat) (i : nat) :
  nth_error ns i = None -> dec_nth i ns = ns.
Proof.
  revert i. induction ns as [|x ns IH]; intros [|i] E; simpl in *;
    try reflexivity; try discriminate.
  f_equal. now apply IH.
Qed.

Section Stages.

(** [stage d p n]: request [p] may still need [n] storage operations, and
    what it has done so far is reflected in the database [d]. *)
Variable stage : db -> prog response -> nat -> Prop.

(** [effect n d d']: what the turn of a request at stage [n] may do to the
    database. *)
Variable effect : nat -> db -> db -> Prop.

(** What is known of the stages and the database together. *)
Variable balance : list nat -> db -> Prop.

Hypothesis effect_idle : forall d, effect 0 d d.

Hypothesis stage_frame :
  forall d d' m p n, effect m d d' -> stage d p n -> stage d' p n.

Hypothesis stage_answered :
  forall d p n, stage d p n -> answered p = true ->
                stage d p (pred n) /\ effect n d d.

Hypothesis stage_turn :
  forall B (o : storeop B) k n t tb d,
    stage d (Op o k) n ->
    stage (snd (exec o t true tb d)) (k (fst (exec o t true tb d))) (pred n) /\
    effect n d (snd (exec o t true tb d)).

Hypothesis balance_turn :
  forall ns d d' i,
    balance ns d -> effect (nth i ns 0%nat) d d' -> balance (dec_nth i ns) d'.

Lemma step_stage (ev : event) (ps : pool) (ns : list nat) (d : db) :
  Forall2 (stage d) ps ns -> store_up ev = true ->
  Forall2 (stage (snd (step ev ps d))) (fst (step ev ps d)) (dec_nth (who ev) ns) /\
  effect (nth (who ev) ns 0%nat) d (snd (step ev ps d)).
Proof.
  intros F U. unfold step. rewrite U.
  destruct (nth_error ps (who ev)) as [p|] eqn:E.
  - destruct (Forall2_nth_error_l _ _ _ _ _ F E) as (n & En & Hp).
    rewrite (dec_nth_set_nth _ _ _ En), (nth_error_nth _ _ _ En).
    destruct p as [a | err | B o k].
    + destruct (stage_answered _ _ _ Hp eq_refl) as [H1 H2]. cbn [fst snd].
      split; [|exact H2]. rewrite <- (set_nth_same _ _ _ E) at 1.
      now apply Forall2_set_nth.
    + destruct (stage_answered _ _ _ Hp eq_refl) as [H1 H2]. cbn [fst snd].
      split; [|exact H2]. rewrite <- (set_nth_same _ _ _ E) at 1.
      now apply Forall2_set_nth.
    + destruct (stage_turn B o k n (at_time ev) (tie_break ev) d Hp) as [H1 H2].
      destruct (exec o (at_time ev) true (tie_break ev) d) as [r d']. cbn [fst snd] in *.
      split; [|exact H2]. apply Forall2_set_nth; [|exact H1].
      eapply Forall2_impl; [|exact F]. intros q m. now apply stage_frame with (m := n).
  - cbn [fst snd]. assert (En : nth_error ns (who ev) = None).
    { apply nth_error_None. rewrite <- (Forall2_length F). now apply nth_error_None. }
    rewrite (dec_nth_overflow _ _ En).
    rewrite nth_overflow by (now apply nth_error_None).
    split; [exact F | apply effect_idle].
Qed.

(** Along a schedule during which the store can be reached. *)
Lemma steps_stage (sched : list event) (ps : pool) (ns : list nat) (d : db) :
  Forall (fun ev => store_up ev = true) sched ->
  Forall2 (stage d) ps ns -> balance ns d ->
  Forall2 (stage (snd (steps sched ps d))) (fst (steps sched ps d))
    (after_turns sched ns) /\
  balance (after_turns sched ns) (snd (steps sched ps d)).
Proof.
  intros U. revert ps ns d.
  induction U as [|ev sched Hev U IH]; intros ps ns d F Bal; simpl.
  - now split.
  - destruct (step_stage ev ps ns d F Hev) as [F' Eff].
    destruct (step ev ps d) as [ps' d']. cbn [fst snd] in *.
    apply IH; [exact F'|]. now apply balance_turn with (d := d).
Qed.

End Stages.

Lemma total_of_dec_nth (f : nat -> Z) (ns : list nat) (i : nat) :
  f 0%nat = 0 ->
  total_of f (dec_nth i ns) + f (nth i ns 0%nat) =
  total_of f ns + f (pred (nth i ns 0%nat)).
Proof.
  intros H0. revert i. induction ns as [|n ns IH]; intros [|i]; simpl;
    try (rewrite H0; lia).
  - lia.
  - specialize (IH i). lia.
Qed.

Lemma total_of_repeat (f : nat -> Z) (n k : nat) :
  total_of f (repeat n k) = f n * Z.of_nat k.
Proof.
  induction k as [|k IH]; [simpl; lia|].
  cbn [repeat total_of fold_right]. fold (total_of f (repeat n k)).
  rewrite IH. lia.
Qed.

Lemma registering_valid (d : db) (b : req_body) :
  (exists name bg a yr, valid_submission b name bg a yr) ->
  registering d (donate b) 2.
Proof.
  intros (name & bg & a & yr & V).
  destruct (donate_valid_shape _ _ _ _ _ V) as (k & -> & Hk & _).
  destruct V as (_ & Hlen & _ & Hbin & _ & Ha & _ & Hyin).
  cbn [registering]. split; [reflexivity|]. split.
  - intros t id. rewrite construct_candidate. now apply validate_donor_of.
  - intros doc. destruct (Hk doc) as (k2 & E & Hk2 & _).
    exists k2. split; [exact E|]. intros s. eexists. split; [apply Hk2 | reflexivity].
Qed.

Lemma registering_turn B (o : storeop B) k n t tb d :
  registering d (Op o k) n ->
  registering (snd (exec o t true tb d)) (k (fst (exec o t true tb d))) (pred n) /\
  registration_effect n d (snd (exec o t true tb d)).
Proof.
  destruct o as [c | | lim | | | amount | total]; cbn [registering];
    try contradiction.
  - intros (-> & Hv & Hk). unfold exec. rewrite Hv. cbn [fst snd pred].
    destruct (Hk (Donor.construct c t (List.length (donors d)))) as (k2 & -> & Hk2).
    cbn [registering]. split; [now repeat split|].
    unfold registration_effect, count, totalUnits. cbn [donors stats saves_left incs_left pred].
    rewrite length_app. simpl. lia.
  - intros (-> & -> & Hk).
    destruct (exec_inc_up 1 t tb d) as (s & d' & E & F & T & _ & D & _).
    rewrite E. cbn [fst snd pred]. destruct (Hk s) as (r & -> & Hr).
    cbn [registering]. split; [now split|].
    unfold registration_effect, count. rewrite D.
    rewrite (totalUnits_findOne _ _ F), T. simpl. lia.
Qed.

(** C3. Take any number K of valid registrations in flight together, any
    starting database, and any schedule of their storage operations during
    which the store can be reached and every registration gets its two
    turns.  However the turns interleave, every registration is answered
    201, the total ends exactly K greater than before and the donor count
    ends exactly K greater than before: the increment is one operation of
    the store, so no update is lost. *)
Theorem concurrent_registrations (bodies : list req_body) (sched : list event) (d : db) :
  Forall (fun b => exists name bg a yr, valid_submission b name bg a yr) bodies ->
  Forall (fun ev => store_up ev = true) sched ->
  (forall i, (i < List.length bodies)%nat -> (2 <= turns i sched)%nat) ->
  let K := Z.of_nat (List.length bodies) in
  let final := steps sched (map donate bodies) d in
  Forall (fun p => exists r, p = Ret r /\ status r = 201) (fst final) /\
  totalUnits (snd final) = totalUnits d + K /\
  count (snd final) = count d + K.
Proof.
  intros V U T K final.
  assert (F0 : Forall2 (registering d) (map donate bodies)
                 (repeat 2%nat (List.length bodies))).
  { clear T. induction V as [|b bodies Hb V IH]; simpl; constructor.
    - now apply registering_valid.
    - exact IH. }
  assert (B0 : registration_balance (count d + K) (totalUnits d + K)
                 (repeat 2%nat (List.length bodies)) d).
  { unfold registration_balance. rewrite !total_of_repeat.
    change (saves_left 2) with 1. change (incs_left 2) with 1. unfold K. lia. }
  assert (H1 : forall d0, registration_effect 0 d0 d0)
    by (intros d0; unfold registration_effect; simpl; lia).
  assert (H2 : forall d0 d' (m : nat) p n,
             registration_effect m d0 d' -> registering d0 p n -> registering d' p n).
  { intros d0 d' m p n _ H. destruct p as [r | err | B o k]; [exact H | exact H|].
    destruct o; exact H. }
  assert (H3 : forall d0 p n, registering d0 p n -> answered p = true ->
             registering d0 p (pred n) /\ registration_effect n d0 d0).
  { intros d0 p n H A. destruct p as [r | err | B o k]; [|contradiction | discriminate].
    destruct H as [-> Hr]. split; [now split|].
    unfold registration_effect. simpl. lia. }
  assert (H5 : forall ns d0 d' i,
             registration_balance (count d + K) (totalUnits d + K) ns d0 ->
             registration_effect (nth i ns 0%nat) d0 d' ->
             registration_balance (count d + K) (totalUnits d + K) (dec_nth i ns) d').
  { intros ns d0 d' i [B1 B2] [E1 E2]. unfold registration_balance.
    pose proof (total_of_dec_nth saves_left ns i eq_refl).
    pose proof (total_of_dec_nth incs_left ns i eq_refl). lia. }
  destruct (steps_stage registering registration_effect
              (registration_balance (count d + K) (totalUnits d + K))
              H1 H2 H3 registering_turn H5 sched (map donate bodies)
              (repeat 2%nat (List.length bodies)) d U F0 B0) as [F B].
  fold final in F, B.
  assert (Done : after_turns sched (repeat 2%nat (List.length bodies)) =
                 repeat 0%nat (List.length bodies)).
  { rewrite (after_turns_done sched _ 2%nat).
    - now rewrite repeat_length.
    - apply Forall_forall. intros n Hn. apply repeat_spec in Hn. lia.
    - rewrite repeat_length. exact T. }
  rewrite Done in F, B.
  - destruct B as [B1 B2].
    rewrite total_of_repeat in B1, B2. simpl in B1, B2.
    split; [|split; lia].
    clear - F. remember (repeat 0%nat (List.length bodies)) as zs eqn:Ez.
    assert (Hz : Forall (fun z => z = 0%nat) zs)
      by (subst zs; apply Forall_forall; intros z Hz; now apply repeat_spec in Hz).
    clear Ez. induction F as [|p z ps zs Hp F IH]; constructor.
    + inversion Hz; subst. destruct p as [r | err | B o k].
      * exists r. destruct Hp as [_ Hr]. now split.
      * contradiction.
      * destruct o; cbn [registering] in Hp; try contradiction;
          destruct Hp as [Hp _]; discriminate.
    + apply IH. now inversion Hz.
Qed.

Lemma bo_valid : valid_submission bo (str " Bo Li ") (str "AB+") 19 (str "Final Year").
Proof.
  unfold valid_submission, bo. cbn [fullName bloodGroup age year].
  split; [reflexivity|]. split; [vm_compute; lia|].
  split; [reflexivity|]. split; [vm_compute; tauto|].
  split; [exists (inject_Z 19); split; reflexivity|].
  split; [lia|]. split; [reflexivity|]. vm_compute. tauto.
Defined.

Lemma concurrent_registrations_witness :
  let K := Z.of_nat (List.length [jane; bo]) in
  let final := steps interleaved (map donate [jane; bo]) drifted_db in
  Forall (fun p => exists r, p = Ret r /\ status r = 201) (fst final) /\
  totalUnits (snd final) = totalUnits drifted_db + K /\
  count (snd final) = count drifted_db + K.
Proof.
  apply (concurrent_registrations [jane; bo] interleaved drifted_db).
  - repeat constructor.
    + exists (str "Jane Doe"), (str "O-"), 30, (str "SY"). exact jane_valid.
    + exists (str " Bo Li "), (str "AB+"), 19, (str "Final Year"). exact bo_valid.
  - repeat constructor.
  - intros i Hi. simpl in Hi.
    destruct i as [|[|i]]; [vm_compute; lia | vm_compute; lia | lia].
Defined.

(* ================================================================== *)
(** ** The singleton *)

Lemma findOne_Some_singletons (d : db) (s : Stats.t) :
  Stats.findOne (stats d) = Some s -> (1 <= singletons d)%nat.
Proof.
  intros F. unfold singletons. apply find_some in F. destruct F as [Hin G].
  assert (Hin' : In s (filter Stats.is_global (stats d)))
    by (apply filter_In; split; assumption).
  destruct (filter Stats.is_global (stats d)); [destruct Hin' | simpl; lia].
Qed.

Lemma findOne_None_singletons (d : db) :
  Stats.findOne (stats d) = None -> singletons d = 0%nat.
Proof. intros F. unfold singletons. now rewrite (findOne_None_filter _ F). Qed.

(** [Stats.create] under the unique index, with the store reachable:
    afterwards the singleton exists, and it was not there twice before if it
    is not there twice now. *)
Lemma exec_create_up (t : Z) (tb : Donor.tiebreak) (d : db) :
  let d' := snd (exec StatsCreate t true tb d) in
  (1 <= singletons d')%nat /\ (singletons d <= singletons d')%nat /\
  ((singletons d <= 1)%nat -> (singletons d' <= 1)%nat) /\
  totalUnits d' = totalUnits d /\ donors d' = donors d.
Proof.
  unfold exec. cbn [negb]. destruct (Stats.findOne (stats d)) as [s|] eqn:F; cbn [snd].
  - pose proof (findOne_Some_singletons _ _ F). repeat split; auto.
  - pose proof (findOne_None_singletons _ F) as S0.
    assert (G : Stats.is_global {| Stats.identifier := Stats.global;
                                   Stats.totalBloodUnits := 0;
                                   Stats.lastUpdated := t |} = true) by reflexivity.
    assert (S1 : singletons {| donors := donors d;
                   stats := stats d ++ [{| Stats.identifier := Stats.global;
                                           Stats.totalBloodUnits := 0;
                                           Stats.lastUpdated := t |}] |} = 1%nat).
    { unfold singletons. cbn [stats].
      rewrite filter_app, (findOne_None_filter _ F). reflexivity. }
    rewrite S1, S0. repeat split; try lia.
    unfold totalUnits. cbn [stats]. rewrite (findOne_append _ _ F G), F. reflexivity.
Qed.

(** No storage operation removes the singleton or adds a second one. *)
Lemma exec_singletons B (o : storeop B) (t : Z) (u : bool)
    (tb : Donor.tiebreak) (d : db) :
  (singletons d <= singletons (snd (exec o t u tb d)))%nat /\
  ((singletons d <= 1)%nat -> (singletons (snd (exec o t u tb d)) <= 1)%nat).
Proof.
  destruct o as [c | | lim | | | amount | total].
  - unfold exec. destruct (Donor.validate _); [destruct u|]; cbn [snd];
      unfold singletons; cbn [stats]; split; auto.
  - unfold exec. destruct u; cbn [snd]; split; auto.
  - unfold exec. destruct u; cbn [snd]; split; auto.
  - unfold exec. destruct u; cbn [snd]; split; auto.
  - destruct u.
    + destruct (exec_create_up t tb d) as (_ & H1 & H2 & _). now split.
    + unfold exec. cbn [negb snd]. split; auto.
  - destruct u.
    + destruct (exec_inc_up amount t tb d) as (s & d' & -> & _ & _ & _ & _ & S).
      cbn [snd]. rewrite S. split; lia.
    + unfold exec. cbn [negb snd]. split; auto.
  - destruct u.
    + destruct (exec_set_up total t tb d) as (old & s & d' & -> & _ & _ & _ & _ & S).
      cbn [snd]. rewrite S. split; lia.
    + unfold exec. cbn [negb snd]. split; auto.
Qed.

Lemma reading_start (d : db) : reading d get_stats 2.
Proof.
  unfold get_stats, getStats. cbn [await bind try_catch reading].
  split; [reflexivity|]. split.
  - eexists. split; [reflexivity|]. intros [s|err]; eexists; reflexivity.
  - intros s. eexists. reflexivity.
Qed.

Lemma reading_turn B (o : storeop B) k n t tb d :
  reading d (Op o k) n ->
  reading (snd (exec o t true tb d)) (k (fst (exec o t true tb d))) (pred n) /\
  reading_effect n d (snd (exec o t true tb d)).
Proof.
  destruct o as [c | | lim | | | amount | total]; cbn [reading]; try contradiction.
  - intros (-> & (k2 & E2 & Hk2) & Hs). unfold exec. cbn [fst snd pred].
    split; [|unfold reading_effect; repeat split; auto].
    destruct (Stats.findOne (stats d)) as [s|] eqn:F.
    + destruct (Hs s) as [a ->]. cbn [reading].
      now apply findOne_Some_singletons with (s := s).
    + rewrite E2. cbn [reading]. now split.
  - intros (-> & Hk).
    destruct (exec_create_up t tb d) as (H1 & H2 & H3 & H4 & H5).
    destruct (Hk (fst (exec StatsCreate t true tb d))) as [a ->].
    cbn [reading pred]. split; [exact H1|]. unfold reading_effect. auto.
Qed.

(** C6. The singleton keyed ['global'] is created lazily and is never there
    twice.  (1) When it is absent and the store can be reached, [getStats]
    creates it with a total of 0 and exactly one singleton exists
    afterwards.  (2) In every execution, of any requests under any schedule
    and any store failures, the singleton is never removed, and if there was
    at most one there is at most one: the unique index turns a second
    creation down.  (3) When any number of GET /api/stats requests run
    together, every one having its two turns with the store reachable, all
    of them answer and exactly one singleton exists at the end, with the
    total it had (0 when it was absent), whatever the interleaving. *)
Theorem stats_singleton (e : env) (d : db) (ps : pool) (any_sched : list event)
    (K : nat) (sched : list event) :
  (Stats.findOne (stats d) = None -> up e 0%nat = true -> up e 1%nat = true ->
   exists s d',
     run e 0 getStats d = (Ok s, d') /\
     Stats.identifier s = Stats.global /\ Stats.totalBloodUnits s = 0 /\
     singletons d = 0%nat /\ singletons d' = 1%nat) /\
  (singletons d <= singletons (snd (steps any_sched ps d)))%nat /\
  ((singletons d <= 1)%nat -> (singletons (snd (steps any_sched ps d)) <= 1)%nat) /\
  ((singletons d <= 1)%nat -> (1 <= K)%nat ->
   Forall (fun ev => store_up ev = true) sched ->
   (forall i, (i < K)%nat -> (2 <= turns i sched)%nat) ->
   let final := steps sched (repeat get_stats K) d in
   Forall (fun p => answered p = true) (fst final) /\
   singletons (snd final) = 1%nat /\
   totalUnits (snd final) = totalUnits d).
Proof.
  split; [|split; [|split]].
  - intros F U0 U1.
    destruct (run_getStats_up e d U0 U1) as (s & d' & R & F' & T & _ & [[F2 _] | (_ & Es & Ed)]);
      [congruence|].
    exists s, d'. split; [exact R|]. split; [now rewrite Es|]. split; [now rewrite Es|].
    split; [now apply findOne_None_singletons|].
    unfold singletons. rewrite Ed, filter_app, (findOne_None_filter _ F).
    rewrite Es. reflexivity.
  - apply (steps_preserve (fun d' => (singletons d <= singletons d')%nat)); [|lia].
    intros B o t u tb d0 H. pose proof (proj1 (exec_singletons B o t u tb d0)). lia.
  - intros H. apply (steps_preserve (fun d' => (singletons d' <= 1)%nat)); [|exact H].
    intros B o t u tb d0 H0. now apply exec_singletons.
  - intros S1 HK U T final.
    assert (F0 : Forall2 (reading d) (repeat get_stats K) (repeat 2%nat K)).
    { clear. induction K as [|K IH]; simpl; constructor; [apply reading_start | exact IH]. }
    assert (B0 : reading_balance (totalUnits d) (repeat 2%nat K) d) by (now split).
    assert (H1 : forall d0, reading_effect 0 d0 d0)
      by (intros d0; unfold reading_effect; auto).
    assert (H2 : forall d0 d' (m : nat) p n,
               reading_effect m d0 d' -> reading d0 p n -> reading d' p n).
    { intros d0 d' m p n (Hm & _) H. destruct p as [r | err | B o k]; cbn [reading] in *.
      - lia.
      - exact H.
      - destruct o; exact H. }
    assert (H3 : forall d0 p n, reading d0 p n -> answered p = true ->
               reading d0 p (pred n) /\ reading_effect n d0 d0).
    { intros d0 p n H A. destruct p as [r | err | B o k]; [|contradiction | discriminate].
      split; [exact H | unfold reading_effect; auto]. }
    assert (H5 : forall ns d0 d' i,
               reading_balance (totalUnits d) ns d0 ->
               reading_effect (nth i ns 0%nat) d0 d' ->
               reading_balance (totalUnits d) (dec_nth i ns) d').
    { intros ns d0 d' i [B1 B2] (_ & E2 & E3 & _). split; [auto | congruence]. }
    destruct (steps_stage reading reading_effect (reading_balance (totalUnits d))
                H1 H2 H3 reading_turn H5 sched (repeat get_stats K)
                (repeat 2%nat K) d U F0 B0) as [F [B1 B2]].
    fold final in F, B1, B2.
    assert (Done : after_turns sched (repeat 2%nat K) = repeat 0%nat K).
    { rewrite (after_turns_done sched _ 2%nat).
      - now rewrite repeat_length.
      - apply Forall_forall. intros n Hn. apply repeat_spec in Hn. lia.
      - rewrite repeat_length. exact T. }
    rewrite Done in F.
    assert (A : Forall (fun p => answered p = true /\ (1 <= singletons (snd final))%nat)
                  (fst final)).
    { clear Done. remember (repeat 0%nat K) as zs eqn:Ez.
      assert (Hz : Forall (fun z => z = 0%nat) zs)
        by (subst zs; apply Forall_forall; intros z Hz; now apply repeat_spec in Hz).
      clear Ez. induction F as [|p z qs zs Hp F IH]; constructor.
      - inversion Hz; subst. destruct p as [r | err | B o k].
        + now split.
        + contradiction.
        + destruct o; cbn [reading] in Hp; try contradiction;
            destruct Hp as [Hp _]; discriminate.
      - apply IH. now inversion Hz. }
    split; [eapply Forall_impl; [|exact A]; now intros p [H _]|].
    split; [|exact B2].
    assert (L : List.length (fst final) = K).
    { rewrite (Forall2_length F). apply repeat_length. }
    destruct (fst final) as [|p qs]; [simpl in L; lia|].
    inversion A as [|? ? [_ Hp] _]; subst. lia.
Qed.

Lemma stats_singleton_witness :
  (exists s d',
     run always_up 0 getStats empty_db = (Ok s, d') /\
     Stats.identifier s = Stats.global /\ Stats.totalBloodUnits s = 0 /\
     singletons empty_db = 0%nat /\ singletons d' = 1%nat) /\
  (singletons (snd (steps race [get_stats; donate jane] empty_db)) <= 1)%nat /\
  (let final := steps race (repeat get_stats 2) empty_db in
   Forall (fun p => answered p = true) (fst final) /\
   singletons (snd final) = 1%nat /\
   totalUnits (snd final) = totalUnits empty_db).
Proof.
  pose proof (stats_singleton always_up empty_db [get_stats; donate jane] race 2 race)
    as (H1 & _ & H3 & H4).
  split; [|split].
  - apply H1; reflexivity.
  - apply H3. vm_compute. lia.
  - apply H4.
    + vm_compute. lia.
    + lia.
    + repeat constructor.
    + intros i Hi. destruct i as [|[|i]]; [vm_compute; lia | vm_compute; lia | lia].
Defined.

Lemma trim_trimmed (s : jsstring) : trimmed (trim s).
Proof. split; [apply trim_no_lead | apply trim_no_trail]. Qed.

Lemma exec_names_trimmed B (o : storeop B) (t : Z) (u : bool)
    (tb : Donor.tiebreak) (d : db) :
  Forall (fun x => trimmed (Donor.fullName x)) (donors d) ->
  Forall (fun x => trimmed (Donor.fullName x)) (donors (snd (exec o t u tb d))).
Proof.
  intros H. destruct o as [c | | lim | | | amount | total]; unfold exec.
  - destruct (Donor.validate _); [destruct u|]; cbn [snd donors]; try exact H.
    apply Forall_app. split; [exact H|]. constructor; [|constructor].
    cbn [Donor.construct Donor.fullName]. apply trim_trimmed.
  - destruct u; exact H.
  - destruct u; exact H.
  - destruct u; exact H.
  - destruct u; cbn [negb]; [destruct (Stats.findOne _)|]; exact H.
  - destruct u; cbn [negb]; [destruct (Stats.findOne _)|]; exact H.
  - destruct u; cbn [negb]; [destruct (Stats.findOne _)|]; exact H.
Qed.

(** C10. For every accepted submission (answered 201), the [fullName] is a
    string and the donor record that is persisted carries it with the
    surrounding white space removed: the route trims it and the schema
    setter trims it again, which changes nothing.  And no stored donor
    record ever has leading or trailing white space in [fullName]: if none
    has, none has after any handler run and after any interleaved execution
    of any requests. *)
Theorem stored_fullName_trimmed (b : req_body) (e : env) (d : db)
    (ps : pool) (sched : list event) :
  (forall r d',
      run e 0 (donate b) d = (Ok r, d') -> status r = 201 ->
      exists name doc,
        fullName b = Str name /\
        donors d' = donors d ++ [doc] /\
        Donor.fullName doc = trim name /\
        trim (trim name) = trim name /\
        trimmed (Donor.fullName doc)) /\
  (Forall (fun x => trimmed (Donor.fullName x)) (donors d) ->
   Forall (fun x => trimmed (Donor.fullName x)) (donors (snd (run e 0 (donate b) d))) /\
   Forall (fun x => trimmed (Donor.fullName x)) (donors (snd (steps sched ps d)))).
Proof.
  split.
  - intros r d' R S.
    destruct (donate_outcome b e d) as (r0 & d0 & R0 & H).
    rewrite R in R0. injection R0 as <- <-.
    destruct H as [[_ [H|H]] | (name & bg & a & yr & H)]; [lia | lia|].
    cbn zeta in H. destruct H as (Hn & _ & [(_ & H & _) | (_ & _ & D & _)]); [lia|].
    exists name. eexists. split; [exact Hn|]. split; [exact D|].
    cbn [Donor.construct Donor.fullName Donor.c_fullName].
    split; [apply trim_idempotent|]. split; [apply trim_idempotent|].
    apply trim_trimmed.
  - intros H. split.
    + now apply (run_preserve (fun d0 =>
                   Forall (fun x => trimmed (Donor.fullName x)) (donors d0))
                   exec_names_trimmed).
    + now apply (steps_preserve (fun d0 =>
                   Forall (fun x => trimmed (Donor.fullName x)) (donors d0))
                   exec_names_trimmed).
Qed.

Lemma stored_fullName_trimmed_witness :
  (exists name doc,
      fullName bo = Str name /\
      donors (snd (run always_up 0 (donate bo) empty_db)) = donors empty_db ++ [doc] /\
      Donor.fullName doc = trim name /\
      trim (trim name) = trim name /\
      trimmed (Donor.fullName doc)) /\
  Forall (fun x => trimmed (Donor.fullName x))
    (donors (snd (run always_up 0 (donate bo) empty_db))) /\
  Forall (fun x => trimmed (Donor.fullName x))
    (donors (snd (steps interleaved [donate jane; donate bo] empty_db))).
Proof.
  pose proof (stored_fullName_trimmed bo always_up empty_db
                [donate jane; donate bo] interleaved) as [H1 H2].
  split.
  - eapply H1; reflexivity.
  - apply H2. constructor.
Defined.

(* ================================================================== *)
(** * Further properties of the server *)

(** ** What is stored *)

Lemma validate_nil_inv (x : Donor.t) :
  Donor.validate x = [] ->
  (2 <= List.length (Donor.fullName x))%nat /\
  18 <= Donor.age x <= 65 /\
  In (Donor.bloodGroup x) Donor.bloodGroup_values /\
  In (Donor.year x) Donor.year_values.
Proof.
  unfold Donor.validate. cbn [flat_map].
  unfold Donor.validate_fullName, Donor.validate_age, Donor.validate_enum.
  destruct (Nat.eqb_spec (List.length (Donor.fullName x)) 0); [discriminate|].
  destruct (Nat.ltb_spec (List.length (Donor.fullName x)) 2); [discriminate|].
  destruct (Nat.eqb_spec (List.length (Donor.bloodGroup x)) 0); [discriminate|].
  destruct (existsb (jsstring_eqb (Donor.bloodGroup x)) Donor.bloodGroup_values) eqn:Eb;
    [|discriminate].
  destruct (Z.ltb_spec (Donor.age x) 18); [discriminate|].
  destruct (Z.ltb_spec 65 (Donor.age x)); [discriminate|].
  destruct (Nat.eqb_spec (List.length (Donor.year x)) 0); [discriminate|].
  destruct (existsb (jsstring_eqb (Donor.year x)) Donor.year_values) eqn:Ey;
    [|discriminate].
  intros _. apply existsb_In in Eb. apply existsb_In in Ey.
  repeat split; try assumption; lia.
Qed.

Lemma exec_schema_ok B (o : storeop B) (t : Z) (u : bool)
    (tb : Donor.tiebreak) (d : db) :
  Forall schema_ok (donors d) -> Forall schema_ok (donors (snd (exec o t u tb d))).
Proof.
  intros H. destruct o as [c | | lim | | | amount | total]; unfold exec.
  - destruct (Donor.validate _) eqn:V; [destruct u|]; cbn [snd donors]; try exact H.
    apply Forall_app. split; [exact H|]. constructor; [|constructor].
    destruct (validate_nil_inv _ V) as (H1 & H2 & H3 & H4).
    repeat split; try assumption.
    + cbn [Donor.construct Donor.fullName]. apply trim_no_lead.
    + cbn [Donor.construct Donor.fullName]. apply trim_no_trail.
    + lia.
    + lia.
  - destruct u; exact H.
  - destruct u; exact H.
  - destruct u; exact H.
  - destruct u; cbn [negb]; [destruct (Stats.findOne _)|]; exact H.
  - destruct u; cbn [negb]; [destruct (Stats.findOne _)|]; exact H.
  - destruct u; cbn [negb]; [destruct (Stats.findOne _)|]; exact H.
Qed.

(** X1. Whatever is submitted and however requests interleave or the store
    fails, every donor record in the collection meets the schema: a trimmed
    name of two characters or more, an age from 18 to 65, a blood group and
    a year from their closed sets.  If that holds of the stored donors, it
    holds after any handler run and after any execution of any pool. *)
Theorem stored_donors_meet_schema (A : Type) (p : prog A) (e : env) (i : nat)
    (ps : pool) (sched : list event) (d : db) :
  Forall schema_ok (donors d) ->
  Forall schema_ok (donors (snd (run e i p d))) /\
  Forall schema_ok (donors (snd (steps sched ps d))).
Proof.
  intros H. split.
  - now apply (run_preserve (fun d0 => Forall schema_ok (donors d0)) exec_schema_ok).
  - now apply (steps_preserve (fun d0 => Forall schema_ok (donors d0)) exec_schema_ok).
Qed.

Lemma stored_donors_meet_schema_witness :
  Forall schema_ok (donors (snd (run always_up 0 (donate fractional_age) empty_db))) /\
  Forall schema_ok
    (donors (snd (steps interleaved [donate jane; donate numeric_name] empty_db))).
Proof.
  apply (stored_donors_meet_schema response (donate fractional_age) always_up 0
           [donate jane; donate numeric_name] interleaved empty_db).
  constructor.
Defined.

Lemma exec_appends B (o : storeop B) (t : Z) (u : bool)
    (tb : Donor.tiebreak) (d : db) :
  exists rest, donors (snd (exec o t u tb d)) = donors d ++ rest.
Proof.
  destruct o as [c | | lim | | | amount | total]; unfold exec.
  - destruct (Donor.validate _); [destruct u|]; cbn [snd donors].
    + eexists. reflexivity.
    + exists []. now rewrite app_nil_r.
    + exists []. now rewrite app_nil_r.
  - exists []. rewrite app_nil_r. now destruct u.
  - exists []. rewrite app_nil_r. now destruct u.
  - exists []. rewrite app_nil_r. now destruct u.
  - exists []. rewrite app_nil_r.
    destruct u; cbn [negb]; [destruct (Stats.findOne _)|]; reflexivity.
  - exists []. rewrite app_nil_r.
    destruct u; cbn [negb]; [destruct (Stats.findOne _)|]; reflexivity.
  - exists []. rewrite app_nil_r.
    destruct u; cbn [negb]; [destruct (Stats.findOne _)|]; reflexivity.
Qed.

(** X2. The donor collection is append-only: no handler and no execution
    of any pool of requests changes or removes a stored donor record; the
    collection afterwards is the collection before, followed by the records
    added. *)
Theorem donors_append_only (A : Type) (p : prog A) (e : env) (i : nat)
    (ps : pool) (sched : list event) (d : db) :
  (exists rest, donors (snd (run e i p d)) = donors d ++ rest) /\
  (exists rest, donors (snd (steps sched ps d)) = donors d ++ rest).
Proof.
  assert (Step : forall B (o : storeop B) t u tb d0,
             (exists rest, donors d0 = donors d ++ rest) ->
             exists rest, donors (snd (exec o t u tb d0)) = donors d ++ rest).
  { intros B o t u tb d0 [r1 E1]. destruct (exec_appends B o t u tb d0) as [r2 E2].
    exists (r1 ++ r2). now rewrite E2, E1, app_assoc. }
  split.
  - apply (run_preserve (fun d0 => exists rest, donors d0 = donors d ++ rest) Step).
    exists []. now rewrite app_nil_r.
  - apply (steps_preserve (fun d0 => exists rest, donors d0 = donors d ++ rest) Step).
    exists []. now rewrite app_nil_r.
Qed.

(** ** Executions with a ghost value per request *)

Section Ghost.

(** [holds p g]: what is known of request [p], with a value [g] that the
    program does not carry; [agrees gs d]: how the values of all requests
    and the database fit together. *)
Variable G : Type.
Variable holds : prog response -> G -> Prop.
Variable agrees : list G -> db -> Prop.

Hypothesis ghost_turn :
  forall B (o : storeop B) k g t u tb d gs i,
    holds (Op o k) g -> nth_error gs i = Some g -> agrees gs d ->
    exists g',
      holds (k (fst (exec o t u tb d))) g' /\
      agrees (set_nth i g' gs) (snd (exec o t u tb d)).

Lemma step_ghost (ev : event) (ps : pool) (gs : list G) (d : db) :
  Forall2 holds ps gs -> agrees gs d ->
  exists gs',
    Forall2 holds (fst (step ev ps d)) gs' /\ agrees gs' (snd (step ev ps d)).
Proof.
  intros F Ag. unfold step.
  destruct (nth_error ps (who ev)) as [[a | err | B o k]|] eqn:E;
    try (exists gs; cbn [fst snd]; now split).
  destruct (Forall2_nth_error_l _ _ _ _ _ F E) as (g & Eg & Hg).
  destruct (ghost_turn B o k g (at_time ev) (store_up ev) (tie_break ev) d gs (who ev) Hg Eg Ag)
    as (g' & H1 & H2).
  destruct (exec o (at_time ev) (store_up ev) (tie_break ev) d) as [r d']. cbn [fst snd] in *.
  exists (set_nth (who ev) g' gs). split; [|exact H2].
  now apply Forall2_set_nth.
Qed.

Lemma steps_ghost (sched : list event) (ps : pool) (gs : list G) (d : db) :
  Forall2 holds ps gs -> agrees gs d ->
  exists gs',
    Forall2 holds (fst (steps sched ps d)) gs' /\ agrees gs' (snd (steps sched ps d)).
Proof.
  revert ps gs d. induction sched as [|ev sched IH]; intros ps gs d F Ag; simpl.
  - exists gs. now split.
  - destruct (step_ghost ev ps gs d F Ag) as (gs1 & F1 & A1).
    destruct (step ev ps d) as [ps1 d1]. cbn [fst snd] in *.
    now apply (IH ps1 gs1 d1).
Qed.

End Ghost.

(** ** The total is never negative *)

Lemma exec_plausible B (o : storeop B) (t : Z) (u : bool)
    (tb : Donor.tiebreak) (d : db) :
  plausible o (fst (exec o t u tb d)).
Proof.
  destruct o; cbn [plausible]; try exact I.
  unfold exec. destruct u; cbn [fst]; [lia | exact I].
Qed.

Lemma exec_total_nonneg B (o : storeop B) (t : Z) (u : bool)
    (tb : Donor.tiebreak) (d : db) :
  raises_only o -> 0 <= totalUnits d -> 0 <= totalUnits (snd (exec o t u tb d)).
Proof.
  intros Ho Hd. destruct o as [c | | lim | | | amount | total]; cbn [raises_only] in Ho.
  - unfold exec. destruct (Donor.validate _); [destruct u|]; cbn [snd]; exact Hd.
  - unfold exec. destruct u; exact Hd.
  - unfold exec. destruct u; exact Hd.
  - unfold exec. destruct u; exact Hd.
  - destruct u.
    + destruct (exec_create_up t tb d) as (_ & _ & _ & T & _). now rewrite T.
    + exact Hd.
  - destruct u.
    + destruct (exec_inc_up amount t tb d) as (s & d' & -> & F & T & _).
      cbn [snd]. rewrite (totalUnits_findOne _ _ F), T. lia.
    + exact Hd.
  - destruct u.
    + destruct (exec_set_up total t tb d) as (old & s & d' & -> & F & T & _).
      cbn [snd]. rewrite (totalUnits_findOne _ _ F), T. exact Ho.
    + exact Hd.
Qed.

Lemma api_request_total_safe (p : prog response) : api_request p -> total_safe p.
Proof.
  intros [b | | | q].
  - unfold donate.
    destruct (negb (truthy (fullName b)) || negb (truthy (bloodGroup b))
              || negb (truthy (age b)) || negb (truthy (year b))); [exact I|].
    destruct (parseInt (age b)) as [a|]; [|exact I].
    destruct (a <? 18); [exact I|].
    destruct (includes validBloodGroups (bloodGroup b)) as [bg|]; [|exact I].
    destruct (includes validYears (year b)) as [yr|]; [|exact I].
    destruct (fullName b) as [| | nb | nq | name];
      cbn [call_trim bind try_catch await incrementCount total_safe]; try exact I.
    split; [exact I|]. intros [doc | err] _.
    + cbn [bind try_catch total_safe raises_only]. split; [lia|].
      intros [s | err] _; [exact I | destruct err; exact I].
    + destruct err; exact I.
  - unfold get_stats, getStats. cbn [await bind try_catch total_safe].
    split; [exact I|]. intros [[s|] | err] _; cbn [bind try_catch total_safe];
      try exact I.
    split; [exact I|]. intros [s | err] _; exact I.
  - unfold sync_stats. cbn [await bind try_catch total_safe].
    split; [exact I|]. intros [n | err] Hn; cbn [bind try_catch total_safe];
      [|exact I].
    cbn [plausible] in Hn. split; [exact Hn|]. intros [o | err] _; exact I.
  - unfold get_donors. cbn [await bind try_catch total_safe].
    split; [exact I|]. intros [rows | err] _; exact I.
Qed.

(** X3. The total never goes negative.  Take any pool of API requests
    (registrations of any submissions, stats reads, reconciliations, donor
    listings), any schedule of their storage operations and any store
    failures: if the total was not negative before, it is not negative
    after. *)
Theorem total_never_negative (ps : pool) (sched : list event) (d : db) :
  Forall api_request ps -> 0 <= totalUnits d ->
  0 <= totalUnits (snd (steps sched ps d)).
Proof.
  intros Hps Hd.
  assert (F : Forall2 (fun p (_ : unit) => total_safe p) ps
                (repeat tt (List.length ps))).
  { induction Hps as [|p ps Hp Hps IH]; simpl; constructor; [|exact IH].
    now apply api_request_total_safe. }
  destruct (steps_ghost unit (fun p _ => total_safe p)
              (fun _ d0 => 0 <= totalUnits d0)) with
    (sched := sched) (ps := ps) (gs := repeat tt (List.length ps)) (d := d)
    as (gs' & _ & H); try assumption.
  intros B o k g t u tb d0 gs i [Ho Hk] _ H0. exists tt. split.
  - apply Hk, exec_plausible.
  - now apply exec_total_nonneg.
Qed.

Lemma total_never_negative_witness :
  0 <= totalUnits (snd (steps race [sync_stats; donate jane] empty_db)).
Proof.
  apply (total_never_negative [sync_stats; donate jane] race empty_db).
  - repeat constructor.
  - vm_compute. discriminate.
Defined.

(** ** The total never runs ahead of the donors *)

Lemma exec_credit B (o : storeop B) (t : Z) (u : bool)
    (tb : Donor.tiebreak) (d : db) (c : Z) :
  spends o c ->
  drift (snd (exec o t u tb d)) - credit_after o (fst (exec o t u tb d)) c = drift d - c /\
  (0 <= c -> 0 <= credit_after o (fst (exec o t u tb d)) c).
Proof.
  intros Ho. destruct o as [cand | | lim | | | amount | total]; cbn [spends] in Ho.
  - unfold exec. destruct (Donor.validate _); [destruct u|];
      cbn [fst snd credit_after]; try (split; lia).
    unfold drift, count, totalUnits. cbn [donors stats]. rewrite length_app.
    simpl List.length. split; lia.
  - unfold exec. destruct u; cbn [fst snd credit_after]; split; lia.
  - unfold exec. destruct u; cbn [fst snd credit_after]; split; lia.
  - unfold exec. destruct u; cbn [fst snd credit_after]; split; lia.
  - destruct u.
    + destruct (exec_create_up t tb d) as (_ & _ & _ & T & D).
      assert (E : drift (snd (exec StatsCreate t true tb d)) = drift d)
        by (unfold drift, count; now rewrite T, D).
      rewrite E. destruct (fst (exec StatsCreate t true tb d)); cbn [credit_after];
        split; lia.
    + unfold exec. cbn [negb fst snd credit_after]. split; lia.
  - destruct u.
    + destruct (exec_inc_up amount t tb d) as (s & d' & -> & F & T & _ & D & _).
      cbn [fst snd credit_after]. unfold drift, count. rewrite D.
      rewrite (totalUnits_findOne _ _ F), T. split; lia.
    + unfold exec. cbn [negb fst snd credit_after]. split; lia.
  - contradiction.
Qed.

Lemma sum_credits_set_nth (cs : list Z) (i : nat) (c c' : Z) :
  nth_error cs i = Some c ->
  sum_credits (set_nth i c' cs) = sum_credits cs - c + c'.
Proof.
  revert i. induction cs as [|x cs IH]; intros [|i] E; simpl in *; try discriminate.
  - injection E as ->. lia.
  - rewrite (IH i E). lia.
Qed.

Lemma sum_credits_nonneg (cs : list Z) :
  Forall (fun c => 0 <= c) cs -> 0 <= sum_credits cs.
Proof. induction 1; simpl; lia. Qed.

Lemma sum_credits_zeros (n : nat) : sum_credits (repeat 0 n) = 0.
Proof. induction n; simpl; lia. Qed.

Lemma everyday_request_within_credit (p : prog response) :
  everyday_request p -> within_credit p 0.
Proof.
  intros [b | | q].
  - unfold donate.
    destruct (negb (truthy (fullName b)) || negb (truthy (bloodGroup b))
              || negb (truthy (age b)) || negb (truthy (year b))); [exact I|].
    destruct (parseInt (age b)) as [a|]; [|exact I].
    destruct (a <? 18); [exact I|].
    destruct (includes validBloodGroups (bloodGroup b)) as [bg|]; [|exact I].
    destruct (includes validYears (year b)) as [yr|]; [|exact I].
    destruct (fullName b) as [| | nb | nq | name];
      cbn [call_trim bind try_catch await incrementCount within_credit]; try exact I.
    split; [exact I|]. intros [doc | err]; cbn [credit_after].
    + cbn [bind try_catch within_credit spends]. split; [lia|].
      intros [s | err]; [exact I | destruct err; exact I].
    + destruct err; exact I.
  - unfold get_stats, getStats. cbn [await bind try_catch within_credit].
    split; [exact I|]. intros [[s|] | err]; cbn [bind try_catch within_credit];
      try exact I.
    split; [exact I|]. intros [s | err]; exact I.
  - unfold get_donors. cbn [await bind try_catch within_credit].
    split; [exact I|]. intros [rows | err]; exact I.
Qed.

(** X4. As long as no reconciliation runs, the total never runs ahead of
    the donor count.  Take any pool of registrations (of any submissions),
    stats reads and donor listings, any schedule and any store failures: the
    lead of the donor count over the total never shrinks, so a total that
    did not exceed the count before does not exceed it after. *)
Theorem total_never_ahead (ps : pool) (sched : list event) (d : db) :
  Forall everyday_request ps ->
  drift d <= drift (snd (steps sched ps d)) /\
  (totalUnits d <= count d ->
   totalUnits (snd (steps sched ps d)) <= count (snd (steps sched ps d))).
Proof.
  intros Hps.
  assert (F : Forall2 (fun p c => 0 <= c /\ within_credit p c) ps
                (repeat 0 (List.length ps))).
  { induction Hps as [|p ps Hp Hps IH]; simpl; constructor; [|exact IH].
    split; [lia | now apply everyday_request_within_credit]. }
  destruct (steps_ghost Z (fun p c => 0 <= c /\ within_credit p c)
              (fun cs d0 => drift d0 - sum_credits cs = drift d)) with
    (sched := sched) (ps := ps) (gs := repeat 0 (List.length ps)) (d := d)
    as (cs & Fc & H); try assumption.
  - intros B o k c t u tb d0 cs i [Hc [Ho Hk]] Ei H0.
    destruct (exec_credit B o t u tb d0 c Ho) as [E N].
    exists (credit_after o (fst (exec o t u tb d0)) c). split; [split; [auto | apply Hk]|].
    rewrite (sum_credits_set_nth _ _ _ _ Ei). lia.
  - rewrite sum_credits_zeros. lia.
  - assert (N : 0 <= sum_credits cs).
    { apply sum_credits_nonneg. clear - Fc.
      induction Fc as [|p c qs cs [Hc _] Fc IH]; constructor; assumption. }
    unfold drift in *. split; lia.
Qed.

Lemma total_never_ahead_witness :
  drift drifted_db <=
    drift (snd (steps interleaved [donate jane; donate bo] drifted_db)) /\
  totalUnits (snd (steps interleaved [donate jane; donate bo] drifted_db)) <=
    count (snd (steps interleaved [donate jane; donate bo] drifted_db)).
Proof.
  destruct (total_never_ahead [donate jane; donate bo] interleaved drifted_db)
    as [H1 H2].
  - repeat constructor.
  - split; [exact H1 | apply H2; vm_compute; discriminate].
Defined.

(** ** Which submissions are accepted *)

Lemma parseInt_truthy (v : jsval) (a : Z) :
  parseInt v = Some a -> a <> 0 -> truthy v = true.
Proof.
  destruct v as [| | b | q | s]; simpl; try discriminate.
  - intros [= <-] Ha. destruct (Z.eqb_spec (Qnum q) 0) as [E|]; [|reflexivity].
    exfalso. apply Ha. unfold parseInt_number. rewrite E. simpl Z.abs.
    destruct (Z.leb_spec (10 ^ 21 * Z.pos (Qden q)) 0) as [H|_].
    + assert (0 < 10 ^ 21) by (apply Z.pow_pos_nonneg; lia). nia.
    + reflexivity.
  - intros H _. destruct s; [discriminate | reflexivity].
Qed.

Lemma valid_submission_accepted (b : req_body) (name bg : jsstring) (a : Z)
    (yr : jsstring) :
  valid_submission b name bg a yr -> accepted_input b name bg a yr.
Proof.
  intros (Hn & Hlen & Hb & Hbin & (q & Hq & Hqa) & Ha & Hy & Hyin).
  unfold accepted_input. rewrite Hb, Hy, Hq.
  repeat split; try assumption; try lia.
  - now apply includes_In.
  - now apply parseInt_whole.
  - now apply includes_In.
Qed.

(** The run of POST /api/donate on an input that passes every check, with
    the store reachable. *)
Lemma run_donate_accepted (b : req_body) (name bg : jsstring) (a : Z)
    (yr : jsstring) (e : env) (d : db) :
  accepted_input b name bg a yr ->
  up e 0%nat = true -> up e 1%nat = true ->
  exists d',
    run e 0 (donate b) d = (Ok (created (trim name) bg (totalUnits d + 1)), d') /\
    donors d' =
      donors d ++ [donor_of name bg a yr (now e 0%nat) (List.length (donors d))] /\
    stats d' = stats (snd (exec (StatsInc 1) (now e 1%nat) true (ties e 1%nat) d)) /\
    totalUnits d' = totalUnits d + 1.
Proof.
  intros (Hn & Hlen & Hb & Hp & Ha & Hy) U0 U1.
  destruct (includes_Some _ _ _ Hb) as [Eb Hbin].
  destruct (includes_Some _ _ _ Hy) as [Ey Hyin].
  unfold donate. rewrite Hb, Hp, Hy.
  assert (Tn : truthy (fullName b) = true).
  { rewrite Hn. destruct name; [simpl in Hlen; lia | reflexivity]. }
  rewrite Tn, Eb, Ey, (truthy_member _ _ Hbin validBloodGroups_nonempty),
    (truthy_member _ _ Hyin validYears_nonempty).
  rewrite (parseInt_truthy _ _ Hp) by lia. cbn [negb orb].
  destruct (Z.ltb_spec a 18) as [|_]; [lia|].
  rewrite Hn. cbn [call_trim bind try_catch await incrementCount run]. rewrite U0.
  change {| Donor.c_fullName := trim name; Donor.c_bloodGroup := bg;
            Donor.c_age := a; Donor.c_year := yr |} with (candidate_of name bg a yr).
  rewrite (exec_save_valid name bg a yr (now e 0%nat) (ties e 0%nat) d Hlen Hbin Ha Hyin).
  cbn [bind try_catch run]. rewrite U1.
  set (doc := donor_of name bg a yr (now e 0%nat) (List.length (donors d))).
  set (d1 := {| donors := donors d ++ [doc]; stats := stats d |}).
  assert (Same : exec (StatsInc 1) (now e 1%nat) true (ties e 1%nat) d1 =
                 (fst (exec (StatsInc 1) (now e 1%nat) true (ties e 1%nat) d),
                  {| donors := donors d1;
                     stats := stats (snd (exec (StatsInc 1) (now e 1%nat) true (ties e 1%nat) d)) |})).
  { unfold exec. cbn [negb stats d1]. now destruct (Stats.findOne (stats d)). }
  destruct (exec_inc_up 1 (now e 1%nat) (ties e 1%nat) d) as (s & d2 & E & F & T & _).
  rewrite Same, E. cbn [fst snd bind try_catch run].
  eexists. split; [|split; [|split]].
  - unfold created. rewrite T. reflexivity.
  - reflexivity.
  - reflexivity.
  - unfold totalUnits at 1. cbn [stats]. rewrite F. exact T.
Qed.

Lemma donate_created_inv (b : req_body) (e : env) (d : db) (r : response) (d' : db) :
  run e 0 (donate b) d = (Ok r, d') -> status r = 201 ->
  (exists name bg a yr, accepted_input b name bg a yr) /\
  up e 0%nat = true /\ up e 1%nat = true.
Proof.
  unfold donate. intros R S.
  destruct (truthy (fullName b)) eqn:Tn; cbn [negb orb] in R;
    [|injection R as <- <-; discriminate S].
  destruct (truthy (bloodGroup b)) eqn:Tb; cbn [negb orb] in R;
    [|injection R as <- <-; discriminate S].
  destruct (truthy (age b)) eqn:Ta; cbn [negb orb] in R;
    [|injection R as <- <-; discriminate S].
  destruct (truthy (year b)) eqn:Ty; cbn [negb orb] in R;
    [|injection R as <- <-; discriminate S].
  destruct (parseInt (age b)) as [a|] eqn:Pa;
    [|injection R as <- <-; discriminate S].
  destruct (Z.ltb_spec a 18) as [|Ha]; [injection R as <- <-; discriminate S|].
  destruct (includes validBloodGroups (bloodGroup b)) as [bg|] eqn:Ib;
    [|injection R as <- <-; discriminate S].
  destruct (includes validYears (year b)) as [yr|] eqn:Iy;
    [|injection R as <- <-; discriminate S].
  destruct (fullName b) as [| | nb | nq | name] eqn:Fn;
    try (cbn [call_trim bind try_catch run] in R; injection R as <- <-; discriminate S).
  cbn [call_trim bind try_catch await run incrementCount] in R.
  unfold exec at 1 in R.
  destruct (Donor.validate _) as [|m msgs] eqn:V in R;
    [|cbn [bind try_catch run] in R; injection R as <- <-; discriminate S].
  destruct (up e 0%nat) eqn:U0;
    [|cbn [bind try_catch run] in R; injection R as <- <-; discriminate S].
  cbn [bind try_catch run] in R.
  destruct (up e 1%nat) eqn:U1;
    [|unfold exec in R; cbn [negb bind try_catch run] in R;
      injection R as <- <-; discriminate S].
  split; [|now split].
  destruct (validate_nil_inv _ V) as (H1 & H2 & _).
  cbn [Donor.construct Donor.fullName Donor.age Donor.c_fullName Donor.c_age] in H1, H2.
  rewrite trim_idempotent in H1.
  exists name, bg, a, yr. unfold accepted_input. repeat split; try assumption; lia.
Qed.

(** X5. POST /api/donate answers 201 exactly when the submission passes
    every check of the route and the schema and the store answers both
    operations: [fullName] is a string with two characters or more once
    trimmed, [bloodGroup] and [year] are strings of their closed sets, and
    the integer that [parseInt] reads from [age] lies in 18..65. *)
Theorem donate_created_iff (b : req_body) (e : env) (d : db) :
  (exists r d', run e 0 (donate b) d = (Ok r, d') /\ status r = 201) <->
  (exists name bg a yr, accepted_input b name bg a yr) /\
  up e 0%nat = true /\ up e 1%nat = true.
Proof.
  split.
  - intros (r & d' & R & S). exact (donate_created_inv b e d r d' R S).
  - intros ((name & bg & a & yr & Acc) & U0 & U1).
    destruct (run_donate_accepted b name bg a yr e d Acc U0 U1) as (d' & R & _).
    eexists. exists d'. split; [exact R | reflexivity].
Qed.

(** ** Reads *)

(** X6. Reads can be repeated.  With the store reachable, a second GET
    /api/stats right after a first gives the same answer and writes nothing;
    once the singleton exists GET /api/stats writes nothing, whether the
    store answers or not; and GET /api/donors never writes anything. *)
Theorem reads_repeatable (e1 e2 : env) (q : jsval) (d : db) :
  (up e1 0%nat = true -> up e1 1%nat = true -> up e2 0%nat = true ->
   run e2 0 get_stats (snd (run e1 0 get_stats d)) = run e1 0 get_stats d) /\
  ((1 <= singletons d)%nat -> snd (run e1 0 get_stats d) = d) /\
  snd (run e1 0 (get_donors q) d) = d.
Proof.
  assert (P : forall e d0, run e 0 get_stats d0 =
    match run e 0 getStats d0 with
    | (Ok s, d') => (Ok (stats_answer s), d')
    | (Err _, d') => (Ok (failure 500 (str "Error fetching statistics")), d')
    end).
  { intros e d0. unfold get_stats.
    apply (run_try_answer getStats stats_answer
             (fun _ => failure 500 (str "Error fetching statistics"))). }
  split; [|split].
  - intros U0 U1 U2. rewrite (P e1 d).
    destruct (run_getStats_up e1 d U0 U1) as (s & d1 & -> & F & _).
    cbn [snd]. rewrite (P e2 d1). unfold getStats. cbn [await bind run].
    rewrite U2. unfold exec. rewrite F. reflexivity.
  - intros S. rewrite (P e1 d). unfold getStats. cbn [await bind run].
    unfold exec at 1. destruct (up e1 0%nat); [|reflexivity].
    destruct (Stats.findOne (stats d)) as [s|] eqn:F; [reflexivity|].
    rewrite (findOne_None_singletons _ F) in S. lia.
  - unfold get_donors. cbn [await bind try_catch run]. unfold exec.
    destruct (up e1 0%nat); reflexivity.
Qed.

Lemma reads_repeatable_witness :
  run always_up 0 get_stats (snd (run always_up 0 get_stats empty_db)) =
    run always_up 0 get_stats empty_db /\
  snd (run always_down 0 get_stats drifted_db) = drifted_db /\
  snd (run always_down 0 (get_donors Undefined) three_donors) = three_donors.
Proof.
  split; [|split].
  - apply (proj1 (reads_repeatable always_up always_up Undefined empty_db));
      reflexivity.
  - apply (proj1 (proj2 (reads_repeatable always_down always_up Undefined drifted_db))).
    vm_compute. lia.
  - apply (proj2 (proj2 (reads_repeatable always_down always_up Undefined three_donors))).
Defined.

Lemma donate_created_iff_witness :
  exists r d', run always_up 0 (donate fractional_age) empty_db = (Ok r, d') /\
               status r = 201.
Proof.
  apply (proj2 (donate_created_iff fractional_age always_up empty_db)).
  split; [|split; reflexivity].
  exists (str "Jane Doe"), (str "O-"), 30, (str "SY").
  unfold accepted_input. repeat split; try reflexivity; try lia.
  vm_compute. lia.
Defined.

(** ** What trimming removes *)

Lemma trimStart_cut (s : jsstring) :
  exists w, s = w ++ trimStart s /\ all_whitespace w = true.
Proof.
  induction s as [|c s (w & E & Hw)]; simpl.
  - exists []. now split.
  - destruct (is_whitespace c) eqn:C.
    + exists (c :: w). simpl. rewrite C, Hw. split; [now f_equal | reflexivity].
    + exists []. now split.
Qed.

Lemma all_whitespace_rev (w : jsstring) :
  all_whitespace w = true -> all_whitespace (rev w) = true.
Proof.
  unfold all_whitespace. rewrite !forallb_forall. intros H c Hc.
  apply H. now apply in_rev.
Qed.

Lemma trimEnd_cut (s : jsstring) :
  exists w, s = trimEnd s ++ w /\ all_whitespace w = true.
Proof.
  unfold trimEnd. destruct (trimStart_cut (rev s)) as (w & E & Hw).
  exists (rev w). split; [|now apply all_whitespace_rev].
  rewrite <- rev_app_distr, <- E. symmetry. apply rev_involutive.
Qed.

Lemma trim_cut (s : jsstring) :
  exists w1 w2,
    s = w1 ++ trim s ++ w2 /\ all_whitespace w1 = true /\ all_whitespace w2 = true.
Proof.
  destruct (trimStart_cut s) as (w1 & E1 & H1).
  destruct (trimEnd_cut (trimStart s)) as (w2 & E2 & H2).
  exists w1, w2. unfold trim. rewrite <- E2. now repeat split.
Qed.

(** X7. The name stored for an accepted submission is the submitted name
    without the white space at its two ends, and nothing else is changed:
    the submitted string is white space, then the stored name, then white
    space, and the stored name neither starts nor ends with white space. *)
Theorem stored_name_is_core_of_submitted (b : req_body) (e : env) (d : db)
    (r : response) (d' : db) :
  run e 0 (donate b) d = (Ok r, d') -> status r = 201 ->
  exists name doc w1 w2,
    fullName b = Str name /\
    donors d' = donors d ++ [doc] /\
    name = w1 ++ Donor.fullName doc ++ w2 /\
    all_whitespace w1 = true /\ all_whitespace w2 = true /\
    trimmed (Donor.fullName doc) /\
    field "data" (body r) =
      Some (JObj [ ("donor", JObj [ ("fullName", JStr (Donor.fullName doc));
                                    ("bloodGroup", JStr (Donor.bloodGroup doc)) ]);
                   ("totalUnits", JNum (totalUnits d')) ]%string).
Proof.
  intros R S.
  destruct (donate_created_inv b e d r d' R S) as ((name & bg & a & yr & Acc) & U0 & U1).
  destruct (run_donate_accepted b name bg a yr e d Acc U0 U1) as (d2 & R2 & D & _ & T).
  rewrite R in R2. injection R2 as -> <-.
  destruct (trim_cut name) as (w1 & w2 & E & H1 & H2).
  destruct Acc as (Hn & _).
  exists name. eexists. exists w1, w2.
  split; [exact Hn|]. split; [exact D|]. cbn [donor_of Donor.fullName Donor.bloodGroup].
  split; [exact E|]. split; [exact H1|]. split; [exact H2|].
  split; [apply trim_trimmed|]. cbn. now rewrite T.
Qed.

Lemma stored_name_is_core_of_submitted_witness :
  exists name doc w1 w2,
    fullName bo = Str name /\
    donors (snd (run always_up 0 (donate bo) empty_db)) = donors empty_db ++ [doc] /\
    name = w1 ++ Donor.fullName doc ++ w2 /\
    all_whitespace w1 = true /\ all_whitespace w2 = true /\
    trimmed (Donor.fullName doc) /\
    field "data" (body (created (str "Bo Li") (str "AB+") 1)) =
      Some (JObj [ ("donor", JObj [ ("fullName", JStr (Donor.fullName doc));
                                    ("bloodGroup", JStr (Donor.bloodGroup doc)) ]);
                   ("totalUnits",
                    JNum (totalUnits (snd (run always_up 0 (donate bo) empty_db)))) ]%string).
Proof.
  apply (stored_name_is_core_of_submitted bo always_up empty_db); reflexivity.
Defined.

(** ** The newest donor in the listing *)

(** The first document of a sorted listing: none is more recent. *)
Lemma sort_desc_head (tie : Donor.tiebreak) (l : list Donor.t) (x : Donor.t) :
  exists h rest,
    Donor.sort_desc tie (l ++ [x]) = h :: rest /\
    In h (l ++ [x]) /\
    Forall (fun y => not_older h y) (l ++ [x]).
Proof.
  pose proof (sort_desc_perm tie (l ++ [x])) as P.
  pose proof (sort_desc_sorted tie (l ++ [x])) as S.
  destruct (Donor.sort_desc tie (l ++ [x])) as [|h rest].
  - apply Permutation_length in P. rewrite length_app in P. simpl in P. lia.
  - exists h, rest. split; [reflexivity|]. split.
    + apply (Permutation_in h P). now left.
    + apply (Permutation_Forall P). apply StronglySorted_inv in S.
      destruct S as [_ S]. constructor; [unfold not_older; lia | exact S].
Qed.

(** A store that returns equal keys in insertion order puts the last
    inserted document first only if it is strictly the most recent. *)
Lemma sort_desc_record_order (l : list Donor.t) (x : Donor.t) :
  Exists (fun y => Donor.donatedAt x <= Donor.donatedAt y) l ->
  exists h rest,
    Donor.sort_desc Donor.record_order (l ++ [x]) = h :: rest /\ In h l.
Proof.
  assert (C : forall u v : Donor.t,
             (Donor.donatedAt u <? Donor.donatedAt v)
             || (Donor.donatedAt u =? Donor.donatedAt v) && Donor.record_order u v
             = (Donor.donatedAt u <? Donor.donatedAt v)).
  { intros u v. unfold Donor.record_order. now rewrite andb_false_r, orb_false_r. }
  induction l as [|y l IH]; intros H; [inversion H|].
  simpl. inversion H as [? ? Hy | ? ? Hl]; subst.
  - destruct (Donor.sort_desc Donor.record_order (l ++ [x])) as [|h s] eqn:Es; simpl.
    + exists y, []. split; [reflexivity | now left].
    + rewrite C.
      destruct (Z.ltb_spec (Donor.donatedAt y) (Donor.donatedAt h)) as [Hlt|Hge].
      * exists h. eexists. split; [reflexivity|].
        assert (Hh : In h (l ++ [x])).
        { apply (Permutation_in h (sort_desc_perm Donor.record_order (l ++ [x]))).
          rewrite Es. now left. }
        apply in_app_or in Hh. destruct Hh as [Hh | [<- | []]]; [now right | lia].
      * exists y. eexists. split; [reflexivity | now left].
  - destruct (IH Hl) as (h & rest & -> & Hin). simpl. rewrite C.
    destruct (Z.ltb_spec (Donor.donatedAt y) (Donor.donatedAt h)) as [Hlt|Hge].
    + exists h. eexists. split; [reflexivity | now right].
    + exists y. eexists. split; [reflexivity | now left].
Qed.

(** A store that returns equal keys in the reverse of insertion order puts
    the last inserted document first as soon as none is more recent. *)
Lemma sort_desc_reverse_order (l : list Donor.t) (x : Donor.t) :
  Forall (fun y => Donor.donatedAt y <= Donor.donatedAt x) l ->
  Donor.sort_desc Donor.reverse_order (l ++ [x]) =
  x :: Donor.sort_desc Donor.reverse_order l.
Proof.
  induction 1 as [|y l Hy Hl IH]; [reflexivity|].
  simpl. rewrite IH. simpl. unfold Donor.reverse_order at 1.
  rewrite andb_true_r.
  destruct (Z.ltb_spec (Donor.donatedAt y) (Donor.donatedAt x)); [reflexivity|].
  destruct (Z.eqb_spec (Donor.donatedAt y) (Donor.donatedAt x)); [reflexivity | lia].
Qed.

(** X8. After a registration, GET /api/donors?limit=1 returns one row: a
    donor of the collection that none is more recent than.  It is the new
    donor when the save happened at a later instant than every stored
    [donatedAt], and a donor stored before when some stored [donatedAt] is
    later than the save (a clock that went back).  When stored donors share
    the instant of the save and none is later, the query, which sorts on
    [donatedAt] alone, does not settle the row: a store that returns equal
    keys in insertion order returns a donor stored before, one that returns
    them in the reverse order returns the new donor. *)
Theorem newest_donor_listing (b : req_body) (name bg : jsstring) (a : Z)
    (yr : jsstring) (e e2 : env) (d : db) :
  valid_submission b name bg a yr ->
  up e 0%nat = true -> up e 1%nat = true -> up e2 0%nat = true ->
  let d' := snd (run e 0 (donate b) d) in
  let doc := donor_of name bg a yr (now e 0%nat) (List.length (donors d)) in
  exists h,
    run e2 0 (get_donors (Str (str "1"))) d' = (Ok (donors_answer [h]), d') /\
    In h (donors d ++ [doc]) /\
    Forall (fun y => not_older h y) (donors d ++ [doc]) /\
    (Forall (fun y => Donor.donatedAt y < now e 0%nat) (donors d) -> h = doc) /\
    (Exists (fun y => now e 0%nat < Donor.donatedAt y) (donors d) ->
     In h (donors d) /\ now e 0%nat < Donor.donatedAt h) /\
    (Exists (fun y => now e 0%nat <= Donor.donatedAt y) (donors d) ->
     ties e2 0%nat = Donor.record_order -> In h (donors d)) /\
    (Forall (fun y => Donor.donatedAt y <= now e 0%nat) (donors d) ->
     ties e2 0%nat = Donor.reverse_order -> h = doc).
Proof.
  intros V U0 U1 U2 d' doc.
  destruct (run_donate_accepted b name bg a yr e d
              (valid_submission_accepted _ _ _ _ _ V) U0 U1) as (d2 & R & D & _).
  assert (Ed : d' = d2) by (unfold d'; now rewrite R).
  assert (Run : run e2 0 (get_donors (Str (str "1"))) d' =
                (Ok (donors_answer
                       (firstn 1 (Donor.sort_desc (ties e2 0%nat) (donors d ++ [doc])))),
                 d')).
  { unfold get_donors. cbn [await bind try_catch run]. rewrite U2. unfold exec.
    cbn [run]. rewrite Ed, D. reflexivity. }
  destruct (sort_desc_head (ties e2 0%nat) (donors d) doc)
    as (h & rest & E & Hin & Hmax).
  assert (Hdoc : Donor.donatedAt doc = now e 0%nat) by reflexivity.
  exists h. split; [rewrite Run, E; reflexivity|].
  split; [exact Hin|]. split; [exact Hmax|].
  split; [|split; [|split]].
  - intros Hnew. apply in_app_or in Hin. destruct Hin as [Hin | [<- | []]];
      [|reflexivity].
    exfalso. rewrite Forall_forall in Hnew, Hmax. specialize (Hnew h Hin).
    assert (Hd : not_older h doc) by (apply Hmax, in_or_app; right; now left).
    unfold not_older in Hd. lia.
  - intros Hlater. apply Exists_exists in Hlater. destruct Hlater as (y & Hy & Hlt).
    rewrite Forall_forall in Hmax.
    assert (Hd : not_older h y) by (apply Hmax, in_or_app; now left).
    unfold not_older in Hd.
    apply in_app_or in Hin. destruct Hin as [Hin | [<- | []]]; [split; [exact Hin | lia] | lia].
  - intros Hold T. rewrite T in E.
    destruct (sort_desc_record_order (donors d) doc) as (h' & rest' & E' & Hin').
    { eapply Exists_impl; [|exact Hold]. intros y Hy. exact Hy. }
    rewrite E' in E. injection E as <- _. exact Hin'.
  - intros Hold T. rewrite T in E. rewrite sort_desc_reverse_order in E.
    + now injection E as <- _.
    + eapply Forall_impl; [|exact Hold]. intros y Hy. exact Hy.
Qed.

Lemma newest_donor_listing_witness :
  exists h,
    run at_200 0 (get_donors (Str (str "1")))
      (snd (run at_200 0 (donate jane) three_donors)) =
    (Ok (donors_answer [h]), snd (run at_200 0 (donate jane) three_donors)) /\
    h = donor_of (str "Jane Doe") (str "O-") 30 (str "SY")
          (now at_200 0%nat) (List.length (donors three_donors)).
Proof.
  destruct (newest_donor_listing jane (str "Jane Doe") (str "O-") 30 (str "SY")
              at_200 at_200 three_donors jane_valid eq_refl eq_refl eq_refl)
    as (h & R & _ & _ & _ & _ & _ & Rev).
  exists h. split; [exact R|]. apply Rev; [|reflexivity].
  unfold three_donors. cbn [donors].
  repeat (constructor; [cbn; lia|]). constructor.
Defined.

(** ** Reconciliation while a registration is in flight *)

Lemma step_op B (o : storeop B) (k : result B -> prog response)
    (i : nat) (t : Z) (u : bool) (tb : Donor.tiebreak) (ps : pool) (d : db) :
  nth_error ps i = Some (Op o k) ->
  step {| who := i; at_time := t; store_up := u; tie_break := tb |} ps d =
  (set_nth i (k (fst (exec o t u tb d))) ps, snd (exec o t u tb d)).
Proof.
  intros E. unfold step. cbn [who at_time store_up tie_break]. rewrite E.
  now destruct (exec o t u tb d).
Qed.

(** X9. Reconciliation is not safe against a registration in flight.  When
    POST /api/sync-stats counts the donors and overwrites the total between
    the save and the increment of a valid registration, the increment lands
    on the reconciled total: both requests answer, and the total ends one
    above the number of donor records, whatever the database was before. *)
Theorem reconcile_race_overcounts (b : req_body) (name bg : jsstring) (a : Z)
    (yr : jsstring) (d : db) (t1 t2 t3 t4 : Z) :
  valid_submission b name bg a yr ->
  let final := steps [turn 0 t1; turn 1 t2; turn 1 t3; turn 0 t4]
                 [donate b; sync_stats] d in
  Forall (fun p => answered p = true) (fst final) /\
  count (snd final) = count d + 1 /\
  totalUnits (snd final) = count (snd final) + 1.
Proof.
  intros V final.
  destruct (donate_valid_shape _ _ _ _ _ V) as (k & Ek & Hk & _).
  destruct V as (_ & Hlen & _ & Hbin & _ & Ha & _ & Hyin).
  assert (E : exists r0 r1 d3,
             final = ([Ret r0; Ret r1], d3) /\
             count d3 = count d + 1 /\ totalUnits d3 = count d + 2).
  { unfold final. rewrite Ek. unfold turn. cbn [steps].
    rewrite (step_op _ (DonorSave (candidate_of name bg a yr)) k 0 t1 true Donor.record_order)
      by reflexivity.
    rewrite (exec_save_valid name bg a yr t1 Donor.record_order d Hlen Hbin Ha Hyin).
    cbn [fst snd set_nth].
    set (doc := donor_of name bg a yr t1 (List.length (donors d))).
    set (d1 := {| donors := donors d ++ [doc]; stats := stats d |}).
    destruct (Hk doc) as (k2 & -> & Hk2 & _).
    unfold sync_stats. cbn [await bind try_catch].
    erewrite step_op by reflexivity.
    unfold exec at 1 2. cbn [fst snd set_nth bind try_catch].
    erewrite step_op by reflexivity.
    destruct (exec_set_up (Z.of_nat (List.length (donors d1))) t3 Donor.record_order d1)
      as (old & s & d2 & -> & F2 & T2 & _ & D2 & _).
    cbn [fst snd set_nth bind try_catch].
    erewrite step_op by reflexivity.
    destruct (exec_inc_up 1 t4 Donor.record_order d2) as (s3 & d3 & -> & F3 & T3 & _ & D3 & _).
    cbn [fst snd set_nth]. rewrite Hk2.
    eexists. eexists. exists d3. split; [reflexivity|].
    assert (C1 : Z.of_nat (List.length (donors d1)) = count d + 1).
    { cbn [donors d1]. rewrite length_app. unfold count. simpl. lia. }
    split.
    - unfold count. rewrite D3, D2. exact C1.
    - rewrite (totalUnits_findOne _ _ F3), T3, (totalUnits_findOne _ _ F2), T2, C1.
      lia. }
  destruct E as (r0 & r1 & d3 & -> & C & T). cbn [fst snd].
  split; [repeat constructor|]. split; [exact C | lia].
Qed.

Lemma reconcile_race_overcounts_witness :
  let final := steps [turn 0 1; turn 1 2; turn 1 3; turn 0 4]
                 [donate jane; sync_stats] drifted_db in
  Forall (fun p => answered p = true) (fst final) /\
  count (snd final) = count drifted_db + 1 /\
  totalUnits (snd final) = count (snd final) + 1.
Proof.
  apply (reconcile_race_overcounts jane (str "Jane Doe") (str "O-") 30 (str "SY")
           drifted_db 1 2 3 4 jane_valid).
Defined.

(** ** The messages of a rejection *)

Lemma run_donate_schema (b : req_body) (name bg : jsstring) (a : Z) (yr : jsstring)
    (e : env) (d : db) :
  all_present b = true -> fullName b = Str name ->
  parseInt (age b) = Some a -> 18 <= a ->
  includes validBloodGroups (bloodGroup b) = Some bg ->
  includes validYears (year b) = Some yr ->
  forall m msgs,
    failures [Donor.validate_fullName (trim name); Donor.validate_age a] = m :: msgs ->
    run e 0 (donate b) d = (Ok (failure 400 (join (str ", ") (m :: msgs))), d).
Proof.
  intros P Hn Hp Ha Hb Hy m msgs V.
  destruct (includes_Some _ _ _ Hb) as [_ Hbin].
  destruct (includes_Some _ _ _ Hy) as [_ Hyin].
  unfold all_present in P. apply andb_prop in P. destruct P as [P Ty].
  apply andb_prop in P. destruct P as [P Ta]. apply andb_prop in P. destruct P as [Tn Tb].
  unfold donate. rewrite Tn, Tb, Ta, Ty, Hp, Hb, Hy. cbn [negb orb].
  destruct (Z.ltb_spec a 18) as [|_]; [lia|].
  rewrite Hn. cbn [call_trim bind try_catch await incrementCount run].
  unfold exec at 1.
  assert (E : Donor.validate
                (Donor.construct
                   {| Donor.c_fullName := trim name; Donor.c_bloodGroup := bg;
                      Donor.c_age := a; Donor.c_year := yr |}
                   (now e 0%nat) (List.length (donors d))) = m :: msgs).
  { unfold Donor.validate, Donor.construct.
    cbn [Donor.fullName Donor.bloodGroup Donor.age Donor.year
         Donor.c_fullName Donor.c_bloodGroup Donor.c_age Donor.c_year flat_map].
    rewrite trim_idempotent.
    rewrite (validate_enum_member _ _ _ _ Hbin validBloodGroups_nonempty).
    rewrite (validate_enum_member _ _ _ _ Hyin validYears_nonempty).
    rewrite <- V. unfold failures. cbn [flat_map app]. rewrite app_nil_r.
    destruct (Donor.validate_fullName (trim name)); reflexivity. }
  rewrite E. cbn [bind try_catch run]. reflexivity.
Qed.

(** X10. What a rejected registration is told.  A missing (falsy) field is
    reported first, as "All fields are required", whatever else is wrong;
    then an age that [parseInt] cannot read or reads below 18; then the blood
    group; then the year.  When these pass, the schema's messages are joined
    with ", ", the name's before the age's: a name of one character once
    trimmed, a name of white space only (reported as missing), an age above
    65, or a name and an age that both fail.  Nothing is written in any of
    these cases. *)
Theorem donate_rejection_messages (b : req_body) (e : env) (d : db) :
  (all_present b = false ->
   run e 0 (donate b) d = (Ok (failure 400 (str "All fields are required")), d)) /\
  (all_present b = true ->
   (forall a, parseInt (age b) = Some a -> a < 18) ->
   run e 0 (donate b) d =
     (Ok (failure 400 (str "Donor must be at least 18 years old")), d)) /\
  (forall a, all_present b = true -> parseInt (age b) = Some a -> 18 <= a ->
   includes validBloodGroups (bloodGroup b) = None ->
   run e 0 (donate b) d = (Ok (failure 400 (str "Invalid blood group")), d)) /\
  (forall a bg, all_present b = true -> parseInt (age b) = Some a -> 18 <= a ->
   includes validBloodGroups (bloodGroup b) = Some bg ->
   includes validYears (year b) = None ->
   run e 0 (donate b) d = (Ok (failure 400 (str "Invalid year selection")), d)) /\
  (forall name a bg yr,
   all_present b = true -> fullName b = Str name ->
   parseInt (age b) = Some a -> 18 <= a ->
   includes validBloodGroups (bloodGroup b) = Some bg ->
   includes validYears (year b) = Some yr ->
   (List.length (trim name) = 1%nat -> a <= 65 ->
    run e 0 (donate b) d =
      (Ok (failure 400 (str "Name must be at least 2 characters long")), d)) /\
   (List.length (trim name) = 0%nat -> a <= 65 ->
    run e 0 (donate b) d = (Ok (failure 400 (str "Full name is required")), d)) /\
   ((2 <= List.length (trim name))%nat -> 65 < a ->
    run e 0 (donate b) d =
      (Ok (failure 400 (str "Donor must be 65 years or younger")), d)) /\
   (List.length (trim name) = 1%nat -> 65 < a ->
    run e 0 (donate b) d =
      (Ok (failure 400
             (str "Name must be at least 2 characters long, Donor must be 65 years or younger")),
       d)) /\
   (List.length (trim name) = 0%nat -> 65 < a ->
    run e 0 (donate b) d =
      (Ok (failure 400
             (str "Full name is required, Donor must be 65 years or younger")),
       d))).
Proof.
  unfold all_present.
  split; [|split; [|split; [|split]]].
  - intros P. unfold donate.
    destruct (truthy (fullName b)), (truthy (bloodGroup b)), (truthy (age b)),
      (truthy (year b)); try discriminate P; reflexivity.
  - intros P Hage. unfold donate.
    destruct (truthy (fullName b)), (truthy (bloodGroup b)), (truthy (age b)),
      (truthy (year b)); try discriminate P. cbn [negb orb].
    destruct (parseInt (age b)) as [a|]; [|reflexivity].
    specialize (Hage a eq_refl). destruct (Z.ltb_spec a 18); [reflexivity | lia].
  - intros a P Hp Ha Hb. unfold donate.
    destruct (truthy (fullName b)), (truthy (bloodGroup b)), (truthy (age b)),
      (truthy (year b)); try discriminate P. cbn [negb orb]. rewrite Hp, Hb.
    destruct (Z.ltb_spec a 18); [lia | reflexivity].
  - intros a bg P Hp Ha Hb Hy. unfold donate.
    destruct (truthy (fullName b)), (truthy (bloodGroup b)), (truthy (age b)),
      (truthy (year b)); try discriminate P. cbn [negb orb]. rewrite Hp, Hb, Hy.
    destruct (Z.ltb_spec a 18); [lia | reflexivity].
  - intros name a bg yr P Hn Hp Ha Hb Hy.
    pose proof (run_donate_schema b name bg a yr e d P Hn Hp Ha Hb Hy) as R.
    unfold failures, Donor.validate_fullName, Donor.validate_age in R.
    cbn [flat_map] in R.
    destruct (Z.ltb_spec a 18) as [|_]; [lia|].
    split; [|split; [|split; [|split]]]; intros Hlen Hold; rewrite ?Hlen in R.
    + destruct (Z.ltb_spec 65 a); [lia|]. exact (R _ _ eq_refl).
    + destruct (Z.ltb_spec 65 a); [lia|]. exact (R _ _ eq_refl).
    + destruct (Nat.eqb_spec (List.length (trim name)) 0); [lia|].
      destruct (Nat.ltb_spec (List.length (trim name)) 2); [lia|].
      destruct (Z.ltb_spec 65 a); [|lia]. exact (R _ _ eq_refl).
    + destruct (Z.ltb_spec 65 a); [|lia]. exact (R _ _ eq_refl).
    + destruct (Z.ltb_spec 65 a); [|lia]. exact (R _ _ eq_refl).
Qed.

Lemma donate_rejection_messages_witness :
  run always_down 0 (donate short_and_old) drifted_db =
    (Ok (failure 400
           (str "Name must be at least 2 characters long, Donor must be 65 years or younger")),
     drifted_db) /\
  run always_up 0 (donate blank_and_old) empty_db =
    (Ok (failure 400
           (str "Full name is required, Donor must be 65 years or younger")),
     empty_db).
Proof.
  split.
  - apply (proj2 (proj2 (proj2 (proj2
             (donate_rejection_messages short_and_old always_down drifted_db))))
             (str " J ") 70 (str "O-") (str "SY"));
      try reflexivity; lia.
  - apply (proj2 (proj2 (proj2 (proj2
             (donate_rejection_messages blank_and_old always_up empty_db))))
             (str "   ") 70 (str "O-") (str "SY"));
      try reflexivity; lia.
Defined.

(* ================================================================== *)
(** * Properties of the page script *)

(** ** What the form sends *)

Lemma validateField_trim (v : jsstring) :
  validateField v = true -> trim v <> [].
Proof. unfold validateField. destruct (trim v); [discriminate | discriminate]. Qed.

Lemma submit_Sent_inv (f : Form.t) (b : req_body) :
  submit f = Sent b ->
  b = form_body f /\
  validateField (Form.fullName f) = true /\
  validateField (Form.bloodGroup f) = true /\
  age_error (Form.age f) = None /\
  validateField (Form.year f) = true.
Proof.
  unfold submit, form_errors.
  destruct (validateField (Form.fullName f)); [|discriminate].
  destruct (validateField (Form.bloodGroup f)); [|discriminate].
  destruct (age_error (Form.age f)); [discriminate|].
  destruct (validateField (Form.year f)); [|discriminate].
  simpl. intros [= <-]. now repeat split.
Qed.

Lemma age_error_None (v : jsstring) :
  age_error v = None ->
  parseInt_string v = None \/ exists n, parseInt_string v = Some n /\ 18 <= n <= 65.
Proof.
  unfold age_error. destruct (negb (validateField v)); [discriminate|].
  destruct (parseInt_string v) as [n|]; [|now left].
  destruct (Z.ltb_spec n 18); [discriminate|].
  destruct (Z.ltb_spec 65 n); [discriminate|].
  intros _. right. exists n. split; [reflexivity | lia].
Qed.

(** X11. Whatever is typed into the form, a request that the submit
    handler lets through carries a trimmed, non-empty name, and an age that
    is either [null] (the text had no integer to read) or a whole number from
    18 to 65: a fractional or decorated age text is sent as the integer
    [parseInt] reads from it, and [null] is sent when it reads none.  The
    name sent is the typed name, trimmed; blood group and year are sent as
    selected. *)
Theorem form_sends_checked_body (f : Form.t) (b : req_body) :
  submit f = Sent b ->
  (exists name, fullName b = Str name /\ name <> [] /\ trimmed name) /\
  (age b = Null \/
   exists n, age b = Num (inject_Z n) /\ 18 <= n <= 65 /\ parseInt (age b) = Some n) /\
  bloodGroup b = Str (Form.bloodGroup f) /\ year b = Str (Form.year f) /\
  fullName b = Str (trim (Form.fullName f)) /\
  (forall n, parseInt_string (Form.age f) = Some n -> age b = Num (inject_Z n)) /\
  (parseInt_string (Form.age f) = None -> age b = Null).
Proof.
  intros H. destruct (submit_Sent_inv f b H) as (-> & Vn & _ & Va & _).
  unfold form_body. cbn [fullName bloodGroup age year].
  split; [|split; [|split; [reflexivity|split; [reflexivity|split; [reflexivity|]]]]];
    [| |split; intros; match goal with E : parseInt_string _ = _ |- _ => rewrite E end;
        reflexivity].
  - exists (trim (Form.fullName f)). split; [reflexivity|].
    split; [now apply validateField_trim | apply trim_trimmed].
  - destruct (age_error_None _ Va) as [-> | (n & -> & Hn)]; [now left|].
    right. exists n. cbn [number_sent]. split; [reflexivity|]. split; [exact Hn|].
    apply parseInt_whole; [reflexivity | exact Hn].
Qed.

Lemma form_sends_checked_body_witness :
  (exists name, fullName (form_body initial_only) = Str name /\ name <> [] /\ trimmed name) /\
  (age (form_body initial_only) = Null \/
   exists n, age (form_body initial_only) = Num (inject_Z n) /\ 18 <= n <= 65 /\
             parseInt (age (form_body initial_only)) = Some n) /\
  bloodGroup (form_body initial_only) = Str (Form.bloodGroup initial_only) /\
  year (form_body initial_only) = Str (Form.year initial_only) /\
  fullName (form_body initial_only) = Str (trim (Form.fullName initial_only)) /\
  (forall n, parseInt_string (Form.age initial_only) = Some n ->
             age (form_body initial_only) = Num (inject_Z n)) /\
  (parseInt_string (Form.age initial_only) = None ->
   age (form_body initial_only) = Null).
Proof.
  apply (form_sends_checked_body initial_only (form_body initial_only)). reflexivity.
Defined.

(** ** The form and the server together *)

(** With a string for a name and the store reachable, the route answers
    201, or 400 without having written. *)
Lemma donate_up_outcome (b : req_body) (e : env) (d : db) :
  (exists s, fullName b = Str s) -> up e 0%nat = true -> up e 1%nat = true ->
  exists r d',
    run e 0 (donate b) d = (Ok r, d') /\
    (status r = 201 \/ (status r = 400 /\ d' = d)).
Proof.
  intros [s Hs] U0 U1. unfold donate.
  destruct (negb (truthy (fullName b)) || negb (truthy (bloodGroup b))
            || negb (truthy (age b)) || negb (truthy (year b)));
    [eexists; eexists; split; [reflexivity | right; now split]|].
  destruct (parseInt (age b)) as [a|];
    [|eexists; eexists; split; [reflexivity | right; now split]].
  destruct (a <? 18); [eexists; eexists; split; [reflexivity | right; now split]|].
  destruct (includes validBloodGroups (bloodGroup b)) as [bg|];
    [|eexists; eexists; split; [reflexivity | right; now split]].
  destruct (includes validYears (year b)) as [yr|];
    [|eexists; eexists; split; [reflexivity | right; now split]].
  rewrite Hs. cbn [call_trim bind try_catch await incrementCount run].
  rewrite U0. unfold exec at 1.
  destruct (Donor.validate _) as [|m msgs];
    [|cbn [bind try_catch run]; eexists; eexists;
      split; [reflexivity | right; now split]].
  cbn [bind try_catch run]. rewrite U1.
  match goal with
  | |- context [exec (StatsInc 1) ?t true ?tb ?d1] =>
      destruct (exec_inc_up 1 t tb d1) as (s3 & d3 & -> & _)
  end.
  cbn [bind try_catch run]. eexists; eexists. split; [reflexivity | now left].
Qed.

(** X12. The form and the server together, with the store reachable.  A
    request the form lets through is answered 201 exactly when, on top of the
    form's checks, the trimmed name has two characters or more, the blood
    group and the year are in the server's closed sets and the age text has
    an integer to read; the donor is then stored with the integer read from
    the age text.  Otherwise it is answered 400 and nothing is written: the
    form lets a name of one character through, and the server turns it
    down. *)
Theorem form_then_server (f : Form.t) (b : req_body) (e : env) (d : db) :
  submit f = Sent b ->
  up e 0%nat = true -> up e 1%nat = true ->
  (server_accepts f ->
   exists n d',
     parseInt_string (Form.age f) = Some n /\
     run e 0 (donate b) d =
       (Ok (created (trim (Form.fullName f)) (Form.bloodGroup f) (totalUnits d + 1)),
        d') /\
     donors d' =
       donors d ++ [donor_of (Form.fullName f) (Form.bloodGroup f) n (Form.year f)
                      (now e 0%nat) (List.length (donors d))]) /\
  (~ server_accepts f ->
   exists r, run e 0 (donate b) d = (Ok r, d) /\ status r = 400).
Proof.
  intros H U0 U1. destruct (submit_Sent_inv f b H) as (-> & Vn & _ & Va & _).
  split.
  - intros (Hlen & Hb & Hy & Hp).
    destruct (age_error_None _ Va) as [E | (n & E & Hn)]; [contradiction|].
    assert (Acc : accepted_input (form_body f) (trim (Form.fullName f))
                    (Form.bloodGroup f) n (Form.year f)).
    { unfold accepted_input, form_body. cbn [fullName bloodGroup age year].
      rewrite E. cbn [number_sent]. rewrite trim_idempotent.
      repeat split; try assumption; try lia.
      - now apply includes_In.
      - apply parseInt_whole; [reflexivity | exact Hn].
      - now apply includes_In. }
    destruct (run_donate_accepted _ _ _ _ _ e d Acc U0 U1) as (d' & R & D & _).
    exists n, d'. split; [exact E|]. rewrite trim_idempotent in R. split; [exact R|].
    rewrite D. unfold donor_of. now rewrite trim_idempotent.
  - intros Hno.
    destruct (donate_up_outcome (form_body f) e d) as (r & d' & R & [S | [S ->]]);
      try assumption.
    + eexists. reflexivity.
    + exfalso. apply Hno.
      destruct (donate_created_inv _ e d r d' R S) as ((name & bg & a & yr & Acc) & _).
      unfold accepted_input, form_body in Acc. cbn [fullName bloodGroup age year] in Acc.
      destruct Acc as (Hn & Hlen & Hb & Hp & _ & Hy).
      injection Hn as <-. rewrite trim_idempotent in Hlen.
      apply includes_Some in Hb. apply includes_Some in Hy.
      destruct Hb as [Eb Hb], Hy as [Ey Hy]. injection Eb as <-. injection Ey as <-.
      repeat split; try assumption.
      intros E. rewrite E in Hp. discriminate.
    + exists r. now split.
Qed.

Lemma form_then_server_witness :
  exists r,
    run always_up 0 (donate (form_body initial_only)) empty_db = (Ok r, empty_db) /\
    status r = 400.
Proof.
  apply (proj2 (form_then_server initial_only (form_body initial_only)
                  always_up empty_db eq_refl eq_refl eq_refl)).
  intros (Hlen & _). vm_compute in Hlen. lia.
Defined.

(** ** Every answer of the API, as the page script receives it *)

Lemma validate_messages_nonempty (x : Donor.t) :
  Forall (fun m : jsstring => m <> []) (Donor.validate x).
Proof.
  unfold Donor.validate. cbn [flat_map].
  unfold Donor.validate_fullName, Donor.validate_age, Donor.validate_enum.
  repeat match goal with
         | |- context [if ?c then _ else _] => destruct c
         end;
    repeat constructor; discriminate.
Qed.

Lemma join_nonempty (sep m : jsstring) (l : list jsstring) :
  m <> [] -> join sep (m :: l) <> [].
Proof.
  intros H. destruct l; simpl; [exact H|].
  destruct m; [congruence | discriminate].
Qed.

Lemma failure_well_formed (st : Z) (m : jsstring) :
  st = 400 \/ st = 500 -> m <> [] -> well_formed_answer (failure st m).
Proof.
  intros Hst Hm. right. cbn [failure status]. split; [exact Hst|].
  exists m. split; [reflexivity|]. split; [exact Hm|].
  unfold apiRequest, response_ok. cbn [failure status body field find fst snd].
  assert (O : (200 <=? st) && (st <=? 299) = false)
    by (destruct Hst as [-> | ->]; reflexivity).
  rewrite O. simpl. destruct m; [congruence | reflexivity].
Qed.

Lemma donate_answer_well_formed (b : req_body) (e : env) (d : db) :
  exists r d', run e 0 (donate b) d = (Ok r, d') /\ well_formed_answer r.
Proof.
  assert (Lit : forall st m (d0 : db),
             st = 400 \/ st = 500 -> m <> [] ->
             exists r d', (@Ok response (failure st m), d0) = (Ok r, d') /\
                          well_formed_answer r).
  { intros st m d0 Hst Hm. eexists; eexists. split; [reflexivity|].
    now apply failure_well_formed. }
  unfold donate.
  destruct (negb (truthy (fullName b)) || negb (truthy (bloodGroup b))
            || negb (truthy (age b)) || negb (truthy (year b)));
    [apply Lit; [now left | discriminate]|].
  destruct (parseInt (age b)) as [a|]; [|apply Lit; [now left | discriminate]].
  destruct (a <? 18); [apply Lit; [now left | discriminate]|].
  destruct (includes validBloodGroups (bloodGroup b)) as [bg|];
    [|apply Lit; [now left | discriminate]].
  destruct (includes validYears (year b)) as [yr|];
    [|apply Lit; [now left | discriminate]].
  destruct (fullName b) as [| | nb | nq | name];
    try (cbn [call_trim bind try_catch run]; apply Lit; [now right | discriminate]).
  cbn [call_trim bind try_catch await incrementCount run].
  unfold exec at 1.
  match goal with
  | |- context [Donor.validate ?x] =>
      pose proof (validate_messages_nonempty x) as Hv;
      destruct (Donor.validate x) as [|m msgs]
  end.
  2:{ cbn [bind try_catch run]. apply Lit; [now left|].
      apply join_nonempty. now inversion Hv. }
  destruct (up e 0%nat);
    [|cbn [bind try_catch run]; apply Lit; [now right | discriminate]].
  cbn [bind try_catch run].
  destruct (up e 1%nat).
  - match goal with
    | |- context [exec (StatsInc 1) ?t true ?tb ?d1] =>
        destruct (exec_inc_up 1 t tb d1) as (s3 & d3 & -> & _)
    end.
    cbn [bind try_catch run]. eexists; eexists. split; [reflexivity|].
    left. split; [now right|]. split; reflexivity.
  - unfold exec. cbn [negb bind try_catch run]. apply Lit; [now right | discriminate].
Qed.

(** X13. No API route throws, and every answer has one of two shapes.  For
    every request to POST /api/donate, GET /api/stats, POST /api/sync-stats
    or GET /api/donors, whatever the input and the state of the store, the
    handler answers: either with status 200 or 201 and [success: true], which
    [apiRequest] returns to its caller, or with status 400 or 500,
    [success: false] and a non-empty [message], which [apiRequest] throws as
    the message of its error, verbatim. *)
Theorem api_answers_well_formed (p : prog response) (e : env) (d : db) :
  api_request p ->
  exists r d', run e 0 p d = (Ok r, d') /\ well_formed_answer r.
Proof.
  intros [b | | | q].
  - apply donate_answer_well_formed.
  - unfold get_stats.
    rewrite (run_try_answer getStats stats_answer
               (fun _ => failure 500 (str "Error fetching statistics"))).
    destruct (run e 0 getStats d) as [[s | err] d']; eexists; eexists;
      (split; [reflexivity|]).
    + left. split; [now left|]. split; reflexivity.
    + apply failure_well_formed; [now right | discriminate].
  - unfold sync_stats. cbn [await bind try_catch run]. unfold exec at 1.
    destruct (up e 0%nat); cbn [bind try_catch run].
    + unfold exec. destruct (up e 1%nat); cbn [negb].
      * destruct (Stats.findOne (stats d)); cbn [bind try_catch run];
          eexists; eexists; (split; [reflexivity|]);
          left; (split; [now left|]); split; reflexivity.
      * cbn [bind try_catch run]. eexists; eexists. split; [reflexivity|].
        apply failure_well_formed; [now right | discriminate].
    + eexists; eexists. split; [reflexivity|].
      apply failure_well_formed; [now right | discriminate].
  - unfold get_donors. cbn [await bind try_catch run]. unfold exec.
    destruct (up e 0%nat); cbn [bind try_catch run]; eexists; eexists;
      (split; [reflexivity|]).
    + left. split; [now left|]. split; reflexivity.
    + apply failure_well_formed; [now right | discriminate].
Qed.

Lemma api_answers_well_formed_witness :
  exists r d',
    run always_down 0 (donate short_and_old) drifted_db = (Ok r, d') /\
    well_formed_answer r.
Proof.
  apply (api_answers_well_formed (donate short_and_old) always_down drifted_db).
  constructor.
Defined.

(** ** The popups of the dashboard *)

Lemma last_cons_default (l : list Z) (t p : Z) : last (t :: l) p = last l t.
Proof.
  revert t p. induction l as [|z l IH]; intros t p; [reflexivity|].
  change (last (t :: z :: l) p) with (last (z :: l) p). now rewrite !IH.
Qed.

Lemma polls_loaded (replies : list (option Z)) (p : Z) :
  StronglySorted Z.le (p :: answered_totals replies) ->
  let out := polls replies {| Dashboard.previousTotal := p;
                              Dashboard.isFirstLoad := false |} in
  Dashboard.previousTotal (fst out) = last (answered_totals replies) p /\
  Dashboard.isFirstLoad (fst out) = false /\
  0 <= snd out <= last (answered_totals replies) p - p.
Proof.
  revert p. induction replies as [|[t|] replies IH]; intros p S.
  - simpl. repeat split; lia.
  - apply StronglySorted_inv in S. destruct S as [S Hp].
    assert (Hpt : p <= t) by (inversion Hp; assumption).
    specialize (IH t S). cbn zeta in IH.
    cbn [polls answered_totals flat_map app]. fold (answered_totals replies).
    unfold fetchStats. cbn [Dashboard.previousTotal Dashboard.isFirstLoad negb andb
                            Dashboard.popup].
    assert (E : (if negb (t =? p) then t else p) = t)
      by (destruct (Z.eqb_spec t p); simpl; congruence).
    rewrite E.
    destruct (polls replies {| Dashboard.previousTotal := t;
                               Dashboard.isFirstLoad := false |}) as [st n].
    cbn [fst snd] in *. destruct IH as (I1 & I2 & I3).
    rewrite last_cons_default. split; [exact I1|]. split; [exact I2|].
    destruct (Z.ltb_spec p t); lia.
  - apply IH. exact S.
Qed.

(** X14. The thank-you popups of the dashboard.  From the opening of the
    page, through any run of polls of which some may fail: the first answered
    poll sets off no popup, and when the totals seen never go down the
    number of popups is at most the rise of the total since the first
    answered poll (registrations that fall between two polls share one
    popup).  After the run the dashboard remembers the total of the last
    answered poll. *)
Theorem dashboard_popups (replies : list (option Z)) (t1 : Z) (later : list Z) :
  answered_totals replies = t1 :: later ->
  StronglySorted Z.le (t1 :: later) ->
  let out := polls replies Dashboard.initial in
  Dashboard.previousTotal (fst out) = last later t1 /\
  Dashboard.isFirstLoad (fst out) = false /\
  0 <= snd out <= last later t1 - t1 /\
  (later = [] -> snd out = 0).
Proof.
  intros E S.
  assert (G : let out := polls replies Dashboard.initial in
              Dashboard.previousTotal (fst out) = last later t1 /\
              Dashboard.isFirstLoad (fst out) = false /\
              0 <= snd out <= last later t1 - t1).
  { revert E. induction replies as [|[t|] replies IH]; intros E.
    - discriminate E.
    - cbn [answered_totals flat_map app] in E. fold (answered_totals replies) in E.
      injection E as -> E. cbn [polls]. unfold fetchStats, Dashboard.initial.
      cbn [Dashboard.previousTotal Dashboard.isFirstLoad negb andb Dashboard.popup].
      assert (E0 : (if negb (t1 =? 0) then t1 else 0) = t1)
        by (destruct (Z.eqb_spec t1 0); simpl; congruence).
      rewrite E0. rewrite <- E in S |- *.
      pose proof (polls_loaded replies t1 S) as H. cbn zeta in H.
      destruct (polls replies {| Dashboard.previousTotal := t1;
                                 Dashboard.isFirstLoad := false |}) as [st n].
      cbn [fst snd] in *. exact H.
    - cbn [polls]. apply IH. exact E. }
  cbn zeta in G |- *. destruct G as (G1 & G2 & G3).
  split; [exact G1|]. split; [exact G2|]. split; [exact G3|].
  intros ->. simpl in G3. lia.
Qed.

Lemma dashboard_popups_witness :
  let out := polls four_then_seven Dashboard.initial in
  Dashboard.previousTotal (fst out) = last [4; 7] 4 /\
  Dashboard.isFirstLoad (fst out) = false /\
  0 <= snd out <= last [4; 7] 4 - 4 /\
  ([4; 7] = [] -> snd out = 0).
Proof.
  apply (dashboard_popups four_then_seven 4 [4; 7]).
  - reflexivity.
  - repeat constructor; lia.
Defined.

(** ** The search of the donors modal *)

Lemma starts_with_spec (s t : jsstring) :
  starts_with s t = true <-> exists b, s = t ++ b.
Proof.
  revert s. induction t as [|c t IH]; intros s; simpl.
  - split; [intros _; now exists s | reflexivity].
  - destruct s as [|c' s]; split.
    + discriminate.
    + intros [b E]. discriminate E.
    + intros H. apply andb_prop in H. destruct H as [Hc H].
      apply N.eqb_eq in Hc. subst c'. apply IH in H. destruct H as [b ->]. now exists b.
    + intros [b E]. injection E as -> ->. rewrite N.eqb_refl. simpl.
      apply IH. now exists b.
Qed.

Lemma string_includes_spec (s t : jsstring) :
  string_includes s t = true <-> exists a b, s = a ++ t ++ b.
Proof.
  induction s as [|c s IH]; simpl.
  - rewrite orb_false_r, starts_with_spec. split.
    + intros [b E]. now exists [], b.
    + intros (a & b & E). destruct a; [now exists b|discriminate E].
  - split.
    + intros H. apply orb_prop in H. destruct H as [H | H].
      * apply (starts_with_spec (c :: s) t) in H. destruct H as [b E]. now exists [], b.
      * apply IH in H. destruct H as (a & b & ->). now exists (c :: a), b.
    + intros (a & b & E). destruct a as [|c' a].
      * apply orb_true_intro. left. apply (starts_with_spec (c :: s) t). now exists b.
      * injection E as -> ->. apply orb_true_intro. right. apply IH. now exists a, b.
Qed.

Lemma string_includes_trans (s t2 t1 : jsstring) :
  string_includes s t2 = true -> string_includes t2 t1 = true ->
  string_includes s t1 = true.
Proof.
  rewrite !string_includes_spec. intros (a & b & ->) (a' & b' & ->).
  exists (a ++ a'), (b' ++ b). now rewrite <- !app_assoc.
Qed.

Section SearchProperties.

Variable toLowerCase : jsstring -> jsstring.

(** X15. The search of the donors modal.  With an empty term all donors are
    shown.  With a term, the cards shown are exactly the donors whose
    lower-cased name or blood group contains the term, in the order of the
    listing, and "no match" is shown exactly when there is none.  Searching
    for more never shows more: when a term occurs inside a longer term, every
    donor that the longer term shows is among those the shorter term
    shows. *)
Theorem filterDonors_shows_matches (allDonorsData : list Listed.t)
    (term longer : jsstring) :
  filterDonors toLowerCase allDonorsData [] = Cards allDonorsData /\
  (term <> [] ->
   (forall rows, filterDonors toLowerCase allDonorsData term = Cards rows ->
      rows = filter (matches toLowerCase term) allDonorsData /\ rows <> []) /\
   (filterDonors toLowerCase allDonorsData term = NoMatch term <->
      forall x, In x allDonorsData -> matches toLowerCase term x = false) /\
   (string_includes longer term = true ->
    forall x, In x (filter (matches toLowerCase longer) allDonorsData) ->
              In x (filter (matches toLowerCase term) allDonorsData))).
Proof.
  split; [reflexivity|]. intros Ht. unfold filterDonors.
  destruct term as [|c term]; [congruence|].
  split; [|split].
  - intros rows. destruct (filter _ allDonorsData) as [|y ys]; [discriminate|].
    intros [= <-]. split; [reflexivity | discriminate].
  - destruct (filter (matches toLowerCase (c :: term)) allDonorsData) as [|y ys] eqn:F.
    + split; [|reflexivity]. intros _ x Hx.
      destruct (matches toLowerCase (c :: term) x) eqn:M; [|reflexivity].
      assert (Hin : In x (filter (matches toLowerCase (c :: term)) allDonorsData))
        by (apply filter_In; now split).
      rewrite F in Hin. destruct Hin.
    + split; [discriminate|]. intros H.
      assert (Hy : In y (filter (matches toLowerCase (c :: term)) allDonorsData))
        by (rewrite F; now left).
      apply filter_In in Hy. destruct Hy as [Hy My]. rewrite (H y Hy) in My. discriminate.
  - intros Hl x Hx. apply filter_In in Hx. destruct Hx as [Hx Mx].
    apply filter_In. split; [exact Hx|]. unfold matches in *.
    apply orb_prop in Mx. apply orb_true_intro.
    destruct Mx as [M | M]; [left | right];
      exact (string_includes_trans _ _ _ M Hl).
Qed.

End SearchProperties.

Lemma filterDonors_shows_matches_witness :
  (forall rows, filterDonors ascii_lower two_listed (str "li") = Cards rows ->
     rows = filter (matches ascii_lower (str "li")) two_listed /\ rows <> []) /\
  (filterDonors ascii_lower two_listed (str "li") = NoMatch (str "li") <->
     forall x, In x two_listed -> matches ascii_lower (str "li") x = false) /\
  (string_includes (str "bo li") (str "li") = true ->
   forall x, In x (filter (matches ascii_lower (str "bo li")) two_listed) ->
             In x (filter (matches ascii_lower (str "li")) two_listed)).
Proof.
  apply (proj2 (filterDonors_shows_matches ascii_lower two_listed (str "li") (str "bo li"))).
  discriminate.
Defined.

(** ** Escaped markup *)

Lemma escape_unit_no_angle (c : N) :
  ~ In 60%N (escape_unit c) /\ ~ In 62%N (escape_unit c).
Proof.
  unfold escape_unit.
  destruct (N.eqb_spec c 38); [vm_compute; intuition discriminate|].
  destruct (N.eqb_spec c 60); [vm_compute; intuition discriminate|].
  destruct (N.eqb_spec c 62); [vm_compute; intuition discriminate|].
  destruct (N.eqb_spec c 160); [vm_compute; intuition discriminate|].
  simpl. split; intros [H | []]; congruence.
Qed.

Lemma escape_unit_cases (c : N) :
  (c = 38%N /\ escape_unit c = str "&amp;") \/
  (c = 60%N /\ escape_unit c = str "&lt;") \/
  (c = 62%N /\ escape_unit c = str "&gt;") \/
  (c = 160%N /\ escape_unit c = str "&nbsp;") \/
  (c <> 38%N /\ escape_unit c = [c]).
Proof.
  unfold escape_unit.
  destruct (N.eqb_spec c 38); [now left|].
  destruct (N.eqb_spec c 60); [right; now left|].
  destruct (N.eqb_spec c 62); [right; right; now left|].
  destruct (N.eqb_spec c 160); [right; right; right; now left|].
  right; right; right; right. now split.
Qed.

(** X16. [escapeHtml] leaves no markup in a name: its result contains
    neither [<] nor [>], whatever the text; and it loses nothing: two texts
    with the same escaped form are the same text. *)
Theorem escapeHtml_safe_and_faithful (text other : jsstring) :
  ~ In 60%N (escapeHtml text) /\ ~ In 62%N (escapeHtml text) /\
  (escapeHtml text = escapeHtml other -> text = other).
Proof.
  split; [|split].
  - unfold escapeHtml. intros H. apply in_flat_map in H. destruct H as (c & _ & H).
    now apply (proj1 (escape_unit_no_angle c)).
  - unfold escapeHtml. intros H. apply in_flat_map in H. destruct H as (c & _ & H).
    now apply (proj2 (escape_unit_no_angle c)).
  - revert other. unfold escapeHtml.
    induction text as [|c text IH]; intros [|c' other]; simpl.
    + reflexivity.
    + intros H. exfalso.
      destruct (escape_unit_cases c') as [[_ E]|[[_ E]|[[_ E]|[[_ E]|[_ E]]]]];
        rewrite E in H; discriminate H.
    + intros H. exfalso.
      destruct (escape_unit_cases c) as [[_ E]|[[_ E]|[[_ E]|[[_ E]|[_ E]]]]];
        rewrite E in H; discriminate H.
    + intros H.
      destruct (escape_unit_cases c) as [[Hc E]|[[Hc E]|[[Hc E]|[[Hc E]|[Hc E]]]]];
        destruct (escape_unit_cases c') as [[Hc' E']|[[Hc' E']|[[Hc' E']|[[Hc' E']|[Hc' E']]]]];
        rewrite E, E' in H; cbn [str map list_ascii_of_string app] in H;
        try discriminate H;
        try (injection H as H; subst; f_equal; now apply IH);
        try (injection H as H0 H; congruence).
Qed.

(* ================================================================== *)
(** * A registration seen through the read path *)

(** X17. A registration followed by GET /api/stats.  After a valid
    submission has been registered, with the store reachable, the stats
    answer carries the former total plus one and, as [lastUpdated], the clock
    reading of the increment; the read writes nothing. *)
Theorem registration_then_stats (b : req_body) (name bg : jsstring) (a : Z)
    (yr : jsstring) (e e2 : env) (d : db) :
  valid_submission b name bg a yr ->
  up e 0%nat = true -> up e 1%nat = true -> up e2 0%nat = true ->
  let d' := snd (run e 0 (donate b) d) in
  exists s,
    run e2 0 get_stats d' = (Ok (stats_answer s), d') /\
    Stats.totalBloodUnits s = totalUnits d + 1 /\
    Stats.lastUpdated s = now e 1%nat.
Proof.
  intros V U0 U1 U2 d'.
  destruct (run_donate_accepted b name bg a yr e d
              (valid_submission_accepted _ _ _ _ _ V) U0 U1) as (d2 & R & _ & St & _).
  assert (Ed : d' = d2) by (unfold d'; now rewrite R).
  destruct (exec_inc_up 1 (now e 1%nat) (ties e 1%nat) d) as (s & d3 & E & F & T & L & _).
  rewrite E in St. cbn [snd] in St.
  exists s. split; [|split; [exact T | exact L]].
  unfold get_stats.
  rewrite (run_try_answer getStats stats_answer
             (fun _ => failure 500 (str "Error fetching statistics"))).
  unfold getStats. cbn [await bind run]. rewrite U2. unfold exec.
  rewrite Ed, St, F. reflexivity.
Qed.

Lemma registration_then_stats_witness :
  let d' := snd (run always_up 0 (donate jane) drifted_db) in
  exists s,
    run always_up 0 get_stats d' = (Ok (stats_answer s), d') /\
    Stats.totalBloodUnits s = totalUnits drifted_db + 1 /\
    Stats.lastUpdated s = now always_up 1%nat.
Proof.
  apply (registration_then_stats jane (str "Jane Doe") (str "O-") 30 (str "SY")
           always_up always_up drifted_db jane_valid); reflexivity.
Defined.

(* ================================================================== *)
(** * Start-up *)

Lemma run_try_ret {A C} (p : prog A) (g : A -> C) (h : error -> C)
    (e : env) (i : nat) (d : db) :
  run e i (try_catch (a <- p ;; Ret (g a)) (fun err => Ret (h err))) d =
  match run e i p d with
  | (Ok a, d') => (Ok (g a), d')
  | (Err err, d') => (Ok (h err), d')
  end.
Proof.
  revert i d. induction p as [a | err | B o k IH]; intros i d; cbn [bind try_catch run].
  - reflexivity.
  - reflexivity.
  - destruct (exec o (now e i) (up e i) (ties e i) d) as [r d']. apply IH.
Qed.

Lemma run_getStats_keeps (e : env) (d : db) :
  let out := run e 0 getStats d in
  donors (snd out) = donors d /\ totalUnits (snd out) = totalUnits d /\
  (forall s, fst out = Ok s -> (1 <= singletons (snd out))%nat).
Proof.
  unfold getStats. cbn [await bind run].
  destruct (up e 0%nat).
  2:{ change (exec StatsFindOne (now e 0%nat) false (ties e 0%nat) d) with
        (@Err (option Stats.t) StoreUnavailable, d).
      cbn [bind run fst snd]. repeat split; discriminate. }
  change (exec StatsFindOne (now e 0%nat) true (ties e 0%nat) d) with (Ok (Stats.findOne (stats d)), d).
  destruct (Stats.findOne (stats d)) as [s|] eqn:F; cbn [bind run fst snd].
  - split; [reflexivity|]. split; [reflexivity|].
    intros s0 _. now apply findOne_Some_singletons with (s := s).
  - cbn [await run]. destruct (up e 1%nat) eqn:U.
    + destruct (exec_create_up (now e 1%nat) (ties e 1%nat) d) as (H1 & _ & _ & T & D).
      destruct (exec StatsCreate (now e 1%nat) true (ties e 1%nat) d) as [[s | err] d'];
        cbn [run fst snd] in *.
      * split; [exact D|]. split; [exact T|]. intros s0 _. exact H1.
      * split; [exact D|]. split; [exact T|]. discriminate.
    + change (exec StatsCreate (now e 1%nat) false (ties e 1%nat) d) with
        (@Err Stats.t StoreUnavailable, d).
      cbn [run fst snd]. repeat split; discriminate.
Qed.

(** X18. Starting the server never resets anything.  Whatever the database
    holds and whether or not the store can be reached, start-up leaves the
    donors and the total as they were; the server ends up listening exactly
    when the connection and the stats initialisation both succeeded, and
    then the singleton exists; otherwise the process exits with code 1. *)
Theorem startServer_keeps_state (connected : bool) (e : env) (d : db) :
  let out := run e 0 (startServer connected) d in
  donors (snd out) = donors d /\
  totalUnits (snd out) = totalUnits d /\
  (fst out = Ok Listening \/ fst out = Ok (Exited 1)) /\
  (fst out = Ok Listening ->
   connected = true /\ (1 <= singletons (snd out))%nat) /\
  (connected = true -> up e 0%nat = true -> up e 1%nat = true ->
   fst out = Ok Listening).
Proof.
  unfold startServer. destruct connected.
  - cbn zeta.
    rewrite (run_try_ret getStats (fun _ => Listening) (fun _ => Exited 1)).
    pose proof (run_getStats_keeps e d) as K. cbn zeta in K.
    destruct (run e 0 getStats d) as [[s | err] d'] eqn:Rg; cbn [fst snd] in *;
      destruct K as (K1 & K2 & K3).
    + split; [exact K1|]. split; [exact K2|]. split; [now left|].
      split; [intros _; split; [reflexivity | now apply (K3 s)]|]. reflexivity.
    + split; [exact K1|]. split; [exact K2|]. split; [now right|].
      split; [discriminate|].
      intros _ U0 U1. destruct (run_getStats_up e d U0 U1) as (s & d2 & R2 & _).
      rewrite R2 in Rg. discriminate.
  - cbn [try_catch run fst snd].
    split; [reflexivity|]. split; [reflexivity|]. split; [now right|].
    split; discriminate.
Qed.

Lemma startServer_keeps_state_witness :
  fst (run always_up 0 (startServer true) drifted_db) = Ok Listening.
Proof.
  apply (proj2 (proj2 (proj2 (proj2
           (startServer_keeps_state true always_up drifted_db)))));
    reflexivity.
Defined.
